(** * A concurrent HTTP/1.1 file server: queue, reader/writer lock,
      per-URI lock registry and request handlers

    Shallow embedding of the C sources
    - [asgn3/queue.c]      (bounded blocking queue),
    - [asgn3/rwlock.c]     (reader/writer lock with three priorities),
    - [asgn4/httpserver.c] (lock registry, GET/PUT handlers, dispatcher),
    - [asgn2/seb_http.c]   (request parsing and accessors, Content-Length),
    - [asgn2/httpserver.c] (the earlier single-threaded server and its
                            [pass_n_bytes_fr])

    Threaded code is modelled as an interleaving of per-thread steps.  A
    step runs one thread from one synchronisation call to the next; the
    statements of a region protected by a mutex form one step, which is what
    the mutex guarantees to every other thread that takes the same mutex. *)

From stdpp Require Import base list strings.
From Stdlib Require Import ZArith Lia Ascii DecimalString DecimalPos DecimalN.

Open Scope Z_scope.

(** ** Machine integers *)

Definition INT_MAX : Z := 2147483647.
Definition UINT32_MOD : Z := 4294967296.
Definition SSIZE_MOD : Z := 18446744073709551616.
Definition SSIZE_MAX : Z := 9223372036854775807.

(** [uint32_t] arithmetic wraps modulo 2^32. *)
Definition u32 (x : Z) : Z := x mod UINT32_MOD.

(** [int] arithmetic, two's complement on 32 bits. *)
Definition s32 (x : Z) : Z := (x + 2147483648) mod UINT32_MOD - 2147483648.

(** [ssize_t] arithmetic, two's complement on 64 bits (LP64). *)
Definition s64 (x : Z) : Z := (x + 9223372036854775808) mod SSIZE_MOD - 9223372036854775808.

(** ** Thread pools

    The threads of a model are a list of program counters indexed by the
    thread number.  [count f l] is the number of threads whose program
    counter satisfies [f]. *)

Definition b2z (b : bool) : Z := if b then 1 else 0.

Fixpoint count {P : Type} (f : P -> bool) (l : list P) : Z :=
  match l with
  | [] => 0
  | c :: l' => b2z (f c) + count f l'
  end.

(** * The bounded queue ([asgn3/queue.c]) *)

Module Queue.
Section Queue.
(** The element type stands for [void *]. A buffer slot that was never
    written holds whatever [malloc] left there: [None]. *)
Context {A : Type}.

Record queue := mkQueue {
  size : Z;
  buf : list (option A);
  head : Z;
  tail : Z;
  wr_lock : bool;
  rd_lock : bool;
  rd_sem : Z;
  wr_sem : Z
}.

(** [queue_new]: [None] is the NULL result. *)
Definition queue_new (sz : Z) : option queue :=
  if sz <=? 0 then None
  else Some {| size := sz; buf := replicate (Z.to_nat sz) None;
               head := 0; tail := 0;
               wr_lock := false; rd_lock := false;
               rd_sem := 0; wr_sem := sz |}.

(** Where a thread stands inside [queue_push] or [queue_pop]. *)
Inductive pc :=
| Idle
| PushSem (elem : A)    (* at sem_wait(&q->wr_sem) *)
| PushLock (elem : A)   (* at pthread_mutex_lock(&q->wr_lock) *)
| PushCrit (elem : A)   (* holds wr_lock, at q->buf[q->head++] = elem *)
| PushPost              (* at sem_post(&q->rd_sem) *)
| PopSem                (* at sem_wait(&q->rd_sem) *)
| PopLock               (* at pthread_mutex_lock(&q->rd_lock) *)
| PopCrit               (* holds rd_lock, at *elem = q->buf[q->tail++] *)
| PopPost.              (* at sem_post(&q->wr_sem) *)

Inductive act :=
| Call_push (elem : A)
| Call_pop
| Run.

(** What a step makes visible: the element stored, or the slot read. *)
Inductive obs :=
| Silent
| Stored (elem : A)
| Loaded (slot : option A).

(** One step of one thread.  [None]: the step is not enabled (the thread
    is blocked on a semaphore or a mutex), or the access is out of the
    buffer. *)
Definition thread_step (q : queue) (c : pc) (a : act) : option (queue * pc * obs) :=
  match c, a with
  | Idle, Call_push elem => Some (q, PushSem elem, Silent)
  | Idle, Call_pop => Some (q, PopSem, Silent)
  | PushSem elem, Run =>
      if 0 <? wr_sem q
      then Some (mkQueue (size q) (buf q) (head q) (tail q) (wr_lock q) (rd_lock q)
                   (rd_sem q) (wr_sem q - 1), PushLock elem, Silent)
      else None
  | PushLock elem, Run =>
      if wr_lock q then None
      else Some (mkQueue (size q) (buf q) (head q) (tail q) true (rd_lock q)
                   (rd_sem q) (wr_sem q), PushCrit elem, Silent)
  | PushCrit elem, Run =>
      if (0 <=? head q) && (head q <? Z.of_nat (length (buf q)))
      then Some (mkQueue (size q) (<[Z.to_nat (head q) := Some elem]> (buf q))
                   (Z.rem (s32 (head q + 1)) (size q)) (tail q) false (rd_lock q)
                   (rd_sem q) (wr_sem q), PushPost, Stored elem)
      else None
  | PushPost, Run =>
      Some (mkQueue (size q) (buf q) (head q) (tail q) (wr_lock q) (rd_lock q)
              (rd_sem q + 1) (wr_sem q), Idle, Silent)
  | PopSem, Run =>
      if 0 <? rd_sem q
      then Some (mkQueue (size q) (buf q) (head q) (tail q) (wr_lock q) (rd_lock q)
                   (rd_sem q - 1) (wr_sem q), PopLock, Silent)
      else None
  | PopLock, Run =>
      if rd_lock q then None
      else Some (mkQueue (size q) (buf q) (head q) (tail q) (wr_lock q) true
                   (rd_sem q) (wr_sem q), PopCrit, Silent)
  | PopCrit, Run =>
      if 0 <=? tail q then
        match buf q !! Z.to_nat (tail q) with
        | Some slot =>
            Some (mkQueue (size q) (buf q) (head q)
                    (Z.rem (s32 (tail q + 1)) (size q)) (wr_lock q) false
                    (rd_sem q) (wr_sem q), PopPost, Loaded slot)
        | None => None
        end
      else None
  | PopPost, Run =>
      Some (mkQueue (size q) (buf q) (head q) (tail q) (wr_lock q) (rd_lock q)
              (rd_sem q) (wr_sem q + 1), Idle, Silent)
  | _, _ => None
  end.

(** The queue, its threads, and the two histories its properties speak of:
    the elements in the order they were stored and the slots in the
    order they were read. *)
Record sys := mkSys {
  q : queue;
  pcs : list pc;
  pushed : list A;
  popped : list (option A)
}.

Definition record (o : obs) (s : sys) (q' : queue) (pcs' : list pc) : sys :=
  match o with
  | Silent => mkSys q' pcs' (pushed s) (popped s)
  | Stored elem => mkSys q' pcs' (pushed s ++ [elem]) (popped s)
  | Loaded slot => mkSys q' pcs' (pushed s) (popped s ++ [slot])
  end.

Definition sys_step (s : sys) (ta : nat * act) : option sys :=
  match pcs s !! ta.1 with
  | Some c =>
      match thread_step (q s) c ta.2 with
      | Some (q', c', o) => Some (record o s q' (<[ta.1 := c']> (pcs s)))
      | None => None
      end
  | None => None
  end.

Fixpoint run (sched : list (nat * act)) (s : sys) : option sys :=
  match sched with
  | [] => Some s
  | ta :: sched' =>
      match sys_step s ta with
      | Some s' => run sched' s'
      | None => None
      end
  end.

Definition start (q0 : queue) (nthreads : nat) : sys :=
  mkSys q0 (replicate nthreads Idle) [] [].

Definition is_PushLock c := match c with PushLock _ => true | _ => false end.
Definition is_PushCrit c := match c with PushCrit _ => true | _ => false end.
Definition is_PushPost c := match c with PushPost => true | _ => false end.
Definition is_PopLock c := match c with PopLock => true | _ => false end.
Definition is_PopCrit c := match c with PopCrit => true | _ => false end.
Definition is_PopPost c := match c with PopPost => true | _ => false end.

(** The invariant of the interleaved executions, for capacity [C]. *)
Record inv (C : Z) (s : sys) : Prop := mkInv {
  inv_size : size (q s) = C;
  inv_buf : Z.of_nat (length (buf (q s))) = C;
  inv_head : head (q s) = Z.of_nat (length (pushed s)) mod C;
  inv_tail : tail (q s) = Z.of_nat (length (popped s)) mod C;
  inv_free :
    wr_sem (q s) + count is_PushLock (pcs s) + count is_PushCrit (pcs s)
    + (Z.of_nat (length (pushed s)) - Z.of_nat (length (popped s)))
    + count is_PopPost (pcs s) = C;
  inv_full :
    rd_sem (q s) + count is_PopLock (pcs s) + count is_PopCrit (pcs s)
    + count is_PushPost (pcs s)
    = Z.of_nat (length (pushed s)) - Z.of_nat (length (popped s));
  inv_wr_sem : 0 <= wr_sem (q s);
  inv_rd_sem : 0 <= rd_sem (q s);
  inv_wr_lock : count is_PushCrit (pcs s) = b2z (wr_lock (q s));
  inv_rd_lock : count is_PopCrit (pcs s) = b2z (rd_lock (q s));
  inv_window : forall (k : nat) (x : A),
    pushed s !! k = Some x -> (length (popped s) <= k)%nat ->
    buf (q s) !! Z.to_nat (Z.of_nat k mod C) = Some (Some x);
  inv_popped : popped s = Some <$> take (length (popped s)) (pushed s)
}.
End Queue.

(** Two producers and one consumer on a queue of capacity 2: thread 0
    and thread 1 race to store 10 and 20, thread 2 pops twice. *)
Definition fifo_sched : list (nat * @act Z) :=
  [ (0%nat, Call_push 10); (1%nat, Call_push 20); (2%nat, Call_pop);
    (0%nat, Run); (1%nat, Run); (1%nat, Run); (1%nat, Run); (1%nat, Run);
    (2%nat, Run); (2%nat, Run); (2%nat, Run); (2%nat, Run);
    (0%nat, Run); (0%nat, Run); (0%nat, Run);
    (2%nat, Call_pop); (2%nat, Run); (2%nat, Run); (2%nat, Run); (2%nat, Run) ].

(** One thread: a whole [queue_push] of [elem], a whole [queue_pop]. *)
Definition push_sched {A : Type} (elem : A) : list (nat * @act A) :=
  [ (0%nat, Call_push elem); (0%nat, Run); (0%nat, Run); (0%nat, Run); (0%nat, Run) ].

Definition pop_sched {A : Type} : list (nat * @act A) :=
  [ (0%nat, Call_pop); (0%nat, Run); (0%nat, Run); (0%nat, Run); (0%nat, Run) ].

Fixpoint pushes {A : Type} (elems : list A) : list (nat * @act A) :=
  match elems with
  | [] => []
  | elem :: elems' => push_sched elem ++ pushes elems'
  end.

Fixpoint pops {A : Type} (n : nat) : list (nat * @act A) :=
  match n with
  | O => []
  | S n' => pop_sched ++ pops n'
  end.

End Queue.

(** * The reader/writer lock ([asgn3/rwlock.c])

    The three priorities keep their state in a union selected by the
    priority tag; here the constructor of [policy_state] is the tag.

    Condition variables carry no state of their own in the model:
    [pthread_cond_wait] releases the mutex and may return at any later time
    (POSIX allows a wait to return without a signal), after which the thread
    takes the mutex again and tests the condition of its loop again.  A
    signal or broadcast therefore adds no behaviour and is left out. *)

Module RWLock.

(** Modelled from the spec: the enumeration [PRIORITY] is declared in
    [rwlock.h], which is not among the sources; its values are the three
    tags [rwlock.c] switches on.  A value outside the enumeration, for which
    [rwlock_new] returns NULL, has no counterpart here. *)
Inductive PRIORITY := READERS | WRITERS | N_WAY.

Record N_WAY_STATE := mkNWay {
  nway_n : Z;
  nway_readers_waiting : Z;
  nway_readers_passed : Z;
  nway_writers_waiting : Z
}.

Record RD_PR_STATE := mkRdPr {
  rd_writer_holding : bool;
  rd_writers_waiting : Z
}.

Record WR_PR_STATE := mkWrPr {
  wr_writers_waiting : Z;
  wr_readers_waiting : Z
}.

Inductive policy_state :=
| St_nway (st : N_WAY_STATE)
| St_rd (st : RD_PR_STATE)
| St_wr (st : WR_PR_STATE).

Record rwlock := mkRW {
  state : policy_state;
  readers_holding : Z;
  mutex : bool;           (* true: some thread holds the mutex *)
  write_lock : Z          (* value of the semaphore *)
}.

Definition priority (rw : rwlock) : PRIORITY :=
  match state rw with
  | St_nway _ => N_WAY
  | St_rd _ => READERS
  | St_wr _ => WRITERS
  end.

(** [rwlock_new]; [n] is a [uint32_t]; [None] is the NULL result. *)
Definition rwlock_new (p : PRIORITY) (n : Z) : option rwlock :=
  match p with
  | N_WAY =>
      if n =? 0 then None
      else Some (mkRW (St_nway (mkNWay n 0 0 0)) 0 false 1)
  | WRITERS => Some (mkRW (St_wr (mkWrPr 0 0)) 0 false 1)
  | READERS => Some (mkRW (St_rd (mkRdPr false 0)) 0 false 1)
  end.

(** Where a thread stands in the four operations. *)
Inductive pc :=
| Idle
| RLockMutex     (* reader_lock: at pthread_mutex_lock *)
| RLockCond      (* reader_lock: inside pthread_cond_wait, mutex released *)
| RLockGate      (* reader_lock: holds the mutex, at sem_wait(&rw->write_lock) *)
| Reading        (* reader_lock returned *)
| RUnlockMutex   (* reader_unlock: at pthread_mutex_lock *)
| WLockMutex     (* writer_lock: at pthread_mutex_lock *)
| WLockCond      (* writer_lock: inside pthread_cond_wait, mutex released *)
| WLockGate      (* writer_lock: mutex released, at sem_wait(&rw->write_lock) *)
| Writing        (* writer_lock returned *)
| WUnlockPost    (* writer_unlock of READERS and N_WAY: at sem_post *)
| WUnlockMutex   (* writer_unlock of READERS and N_WAY: posted, at pthread_mutex_lock *)
| WUnlockHeld.   (* writer_unlock of WRITERS: at pthread_mutex_lock, gate still held *)

Inductive act :=
| Call_reader_lock
| Call_reader_unlock
| Call_writer_lock
| Call_writer_unlock
| Run.

Definition set_state (rw : rwlock) (st : policy_state) : rwlock :=
  mkRW st (readers_holding rw) (mutex rw) (write_lock rw).

(** [sem_wait(&rw->write_lock)]; [None] while the value is 0. *)
Definition sem_wait (rw : rwlock) : option rwlock :=
  if 0 <? write_lock rw
  then Some (mkRW (state rw) (readers_holding rw) (mutex rw) (write_lock rw - 1))
  else None.

Definition sem_post (rw : rwlock) : rwlock :=
  mkRW (state rw) (readers_holding rw) (mutex rw) (write_lock rw + 1).

(** [rw->readers_holding++] and [rw->readers_holding--]. *)
Definition hold (rw : rwlock) : rwlock :=
  mkRW (state rw) (u32 (readers_holding rw + 1)) (mutex rw) (write_lock rw).

Definition unhold (rw : rwlock) : rwlock :=
  mkRW (state rw) (u32 (readers_holding rw - 1)) (mutex rw) (write_lock rw).

Definition set_mutex (b : bool) (rw : rwlock) : rwlock :=
  mkRW (state rw) (readers_holding rw) b (write_lock rw).

(** The end of the three [*_rd_lock] functions, from the test of
    [rw->readers_holding] on: the first reader goes for the semaphore with
    the mutex held, the others enter at once. *)
Definition first_reader_or_enter (rw : rwlock) (enter : rwlock -> rwlock) : rwlock * pc :=
  if readers_holding rw =? 0
  then (set_mutex true rw, RLockGate)
  else (hold (enter rw), Reading).

(** ** READERS priority *)

Definition rd_priority_rd_lock (rw : rwlock) (c : pc) : option (rwlock * pc) :=
  match c with
  | RLockMutex =>
      if mutex rw then None
      else Some (first_reader_or_enter rw (fun rw => rw))
  | RLockGate =>
      match sem_wait rw with
      | Some rw1 => Some (set_mutex false (hold rw1), Reading)
      | None => None
      end
  | _ => None
  end.

Definition rd_priority_rd_unlock (rw : rwlock) (c : pc) : option (rwlock * pc) :=
  match c with
  | RUnlockMutex =>
      if mutex rw then None
      else
        let rw1 := unhold rw in
        if readers_holding rw1 =? 0
        then Some (sem_post rw1, Idle)   (* then signals wr_cond if writers wait *)
        else Some (rw1, Idle)
  | _ => None
  end.

(** The loop of [rd_priority_wr_lock], entered with the mutex held. *)
Definition rd_priority_wr_wait (rw : rwlock) (st : RD_PR_STATE) : rwlock * pc :=
  if negb (readers_holding rw =? 0) || rd_writer_holding st
  then (set_state rw (St_rd st), WLockCond)
  else (set_state rw (St_rd (mkRdPr true (u32 (rd_writers_waiting st - 1)))), WLockGate).

Definition rd_priority_wr_lock (rw : rwlock) (st : RD_PR_STATE) (c : pc)
  : option (rwlock * pc) :=
  match c with
  | WLockMutex =>
      if mutex rw then None
      else Some (rd_priority_wr_wait rw
                   (mkRdPr (rd_writer_holding st) (u32 (rd_writers_waiting st + 1))))
  | WLockCond =>
      if mutex rw then None else Some (rd_priority_wr_wait rw st)
  | WLockGate =>
      match sem_wait rw with
      | Some rw1 => Some (rw1, Writing)
      | None => None
      end
  | _ => None
  end.

Definition rd_priority_wr_unlock (rw : rwlock) (st : RD_PR_STATE) (c : pc)
  : option (rwlock * pc) :=
  match c with
  | WUnlockPost => Some (sem_post rw, WUnlockMutex)
  | WUnlockMutex =>
      if mutex rw then None
      else Some (set_state rw (St_rd (mkRdPr false (rd_writers_waiting st))), Idle)
  | _ => None
  end.

(** ** WRITERS priority *)

Definition wr_leave_waiting (st : WR_PR_STATE) (rw : rwlock) : rwlock :=
  set_state rw (St_wr (mkWrPr (wr_writers_waiting st) (u32 (wr_readers_waiting st - 1)))).

(** The loop of [wr_priority_rd_lock] and what follows it. *)
Definition wr_priority_rd_wait (rw : rwlock) (st : WR_PR_STATE) : rwlock * pc :=
  if negb (wr_writers_waiting st =? 0)
  then (set_state rw (St_wr st), RLockCond)
  else first_reader_or_enter (set_state rw (St_wr st)) (wr_leave_waiting st).

Definition wr_priority_rd_lock (rw : rwlock) (st : WR_PR_STATE) (c : pc)
  : option (rwlock * pc) :=
  match c with
  | RLockMutex =>
      if mutex rw then None
      else Some (wr_priority_rd_wait rw
                   (mkWrPr (wr_writers_waiting st) (u32 (wr_readers_waiting st + 1))))
  | RLockCond =>
      if mutex rw then None else Some (wr_priority_rd_wait rw st)
  | RLockGate =>
      match sem_wait rw with
      | Some rw1 => Some (set_mutex false (hold (wr_leave_waiting st rw1)), Reading)
      | None => None
      end
  | _ => None
  end.

Definition wr_priority_rd_unlock (rw : rwlock) (c : pc) : option (rwlock * pc) :=
  match c with
  | RUnlockMutex =>
      if mutex rw then None
      else
        let rw1 := unhold rw in
        if readers_holding rw1 =? 0
        then Some (sem_post rw1, Idle)
        else Some (rw1, Idle)            (* broadcasts rd_cond if no writer waits *)
  | _ => None
  end.

Definition wr_priority_wr_lock (rw : rwlock) (st : WR_PR_STATE) (c : pc)
  : option (rwlock * pc) :=
  match c with
  | WLockMutex =>
      if mutex rw then None
      else Some (set_state rw (St_wr (mkWrPr (u32 (wr_writers_waiting st + 1))
                                        (wr_readers_waiting st))), WLockGate)
  | WLockGate =>
      match sem_wait rw with
      | Some rw1 => Some (rw1, Writing)
      | None => None
      end
  | _ => None
  end.

Definition wr_priority_wr_unlock (rw : rwlock) (st : WR_PR_STATE) (c : pc)
  : option (rwlock * pc) :=
  match c with
  | WUnlockHeld =>
      if mutex rw then None
      else Some (sem_post
                   (set_state rw (St_wr (mkWrPr (u32 (wr_writers_waiting st - 1))
                                           (wr_readers_waiting st)))), Idle)
  | _ => None
  end.

(** ** N_WAY priority *)

Definition nway_leave_waiting (st : N_WAY_STATE) : N_WAY_STATE :=
  mkNWay (nway_n st)
    (u32 (nway_readers_waiting st - 1))
    (if nway_readers_passed st <? nway_n st
     then u32 (nway_readers_passed st + 1) else nway_readers_passed st)
    (nway_writers_waiting st).

(** The condition of the loop of [nway_priority_rd_lock]. *)
Definition nway_reader_blocked (st : N_WAY_STATE) : bool :=
  (nway_n st <=? nway_readers_passed st) && negb (nway_writers_waiting st =? 0).

Definition nway_priority_rd_wait (rw : rwlock) (st : N_WAY_STATE) : rwlock * pc :=
  if nway_reader_blocked st
  then (set_state rw (St_nway st), RLockCond)
  else first_reader_or_enter (set_state rw (St_nway (nway_leave_waiting st))) (fun rw => rw).

Definition nway_priority_rd_lock (rw : rwlock) (st : N_WAY_STATE) (c : pc)
  : option (rwlock * pc) :=
  match c with
  | RLockMutex =>
      if mutex rw then None
      else Some (nway_priority_rd_wait rw
                   (mkNWay (nway_n st) (u32 (nway_readers_waiting st + 1))
                      (nway_readers_passed st) (nway_writers_waiting st)))
  | RLockCond =>
      if mutex rw then None else Some (nway_priority_rd_wait rw st)
  | RLockGate =>
      match sem_wait rw with
      | Some rw1 => Some (set_mutex false (hold rw1), Reading)
      | None => None
      end
  | _ => None
  end.

Definition nway_priority_rd_unlock (rw : rwlock) (c : pc) : option (rwlock * pc) :=
  match c with
  | RUnlockMutex =>
      if mutex rw then None
      else
        let rw1 := unhold rw in
        if readers_holding rw1 =? 0
        then Some (sem_post rw1, Idle)   (* then signals a writer or readers *)
        else Some (rw1, Idle)
  | _ => None
  end.

(** The condition of the loop of [nway_priority_wr_lock]. *)
Definition nway_writer_blocked (rw : rwlock) (st : N_WAY_STATE) : bool :=
  negb (readers_holding rw =? 0)
  || ((nway_readers_passed st <? nway_n st) && negb (nway_readers_waiting st =? 0)).

Definition nway_priority_wr_wait (rw : rwlock) (st : N_WAY_STATE) : rwlock * pc :=
  if nway_writer_blocked rw st
  then (set_state rw (St_nway st), WLockCond)
  else (set_state rw (St_nway st), WLockGate).

Definition nway_priority_wr_lock (rw : rwlock) (st : N_WAY_STATE) (c : pc)
  : option (rwlock * pc) :=
  match c with
  | WLockMutex =>
      if mutex rw then None
      else Some (nway_priority_wr_wait rw
                   (mkNWay (nway_n st) (nway_readers_waiting st)
                      (nway_readers_passed st) (u32 (nway_writers_waiting st + 1))))
  | WLockCond =>
      if mutex rw then None else Some (nway_priority_wr_wait rw st)
  | WLockGate =>
      match sem_wait rw with
      | Some rw1 => Some (rw1, Writing)
      | None => None
      end
  | _ => None
  end.

Definition nway_priority_wr_unlock (rw : rwlock) (st : N_WAY_STATE) (c : pc)
  : option (rwlock * pc) :=
  match c with
  | WUnlockPost => Some (sem_post rw, WUnlockMutex)
  | WUnlockMutex =>
      if mutex rw then None
      else Some (set_state rw (St_nway (mkNWay (nway_n st) (nway_readers_waiting st)
                                          0 (u32 (nway_writers_waiting st - 1)))), Idle)
  | _ => None
  end.

(** ** The public operations dispatch on the priority *)

Definition reader_lock (rw : rwlock) (c : pc) : option (rwlock * pc) :=
  match state rw with
  | St_nway st => nway_priority_rd_lock rw st c
  | St_rd _ => rd_priority_rd_lock rw c
  | St_wr st => wr_priority_rd_lock rw st c
  end.

Definition reader_unlock (rw : rwlock) (c : pc) : option (rwlock * pc) :=
  match state rw with
  | St_nway _ => nway_priority_rd_unlock rw c
  | St_rd _ => rd_priority_rd_unlock rw c
  | St_wr _ => wr_priority_rd_unlock rw c
  end.

Definition writer_lock (rw : rwlock) (c : pc) : option (rwlock * pc) :=
  match state rw with
  | St_nway st => nway_priority_wr_lock rw st c
  | St_rd st => rd_priority_wr_lock rw st c
  | St_wr st => wr_priority_wr_lock rw st c
  end.

Definition writer_unlock (rw : rwlock) (c : pc) : option (rwlock * pc) :=
  match state rw with
  | St_nway st => nway_priority_wr_unlock rw st c
  | St_rd st => rd_priority_wr_unlock rw st c
  | St_wr st => wr_priority_wr_unlock rw st c
  end.

(** The first statement of [writer_unlock]: [sem_post] under READERS and
    N_WAY, [pthread_mutex_lock] under WRITERS. *)
Definition writer_unlock_entry (rw : rwlock) : pc :=
  match state rw with
  | St_wr _ => WUnlockHeld
  | _ => WUnlockPost
  end.

(** One step of one thread.  A thread calls the unlock operation of the
    lock operation it returned from, and nothing else. *)
Definition thread_step (rw : rwlock) (c : pc) (a : act) : option (rwlock * pc) :=
  match a, c with
  | Call_reader_lock, Idle => Some (rw, RLockMutex)
  | Call_writer_lock, Idle => Some (rw, WLockMutex)
  | Call_reader_unlock, Reading => Some (rw, RUnlockMutex)
  | Call_writer_unlock, Writing => Some (rw, writer_unlock_entry rw)
  | Run, (RLockMutex | RLockCond | RLockGate) => reader_lock rw c
  | Run, RUnlockMutex => reader_unlock rw c
  | Run, (WLockMutex | WLockCond | WLockGate) => writer_lock rw c
  | Run, (WUnlockPost | WUnlockMutex | WUnlockHeld) => writer_unlock rw c
  | _, _ => None
  end.

Record sys := mkSys {
  rw : rwlock;
  pcs : list pc
}.

Definition sys_step (s : sys) (ta : nat * act) : option sys :=
  match pcs s !! ta.1 with
  | Some c =>
      match thread_step (rw s) c ta.2 with
      | Some (rw', c') => Some (mkSys rw' (<[ta.1 := c']> (pcs s)))
      | None => None
      end
  | None => None
  end.

Fixpoint run (sched : list (nat * act)) (s : sys) : option sys :=
  match sched with
  | [] => Some s
  | ta :: sched' =>
      match sys_step s ta with
      | Some s' => run sched' s'
      | None => None
      end
  end.

Definition start (rw0 : rwlock) (nthreads : nat) : sys :=
  mkSys rw0 (replicate nthreads Idle).

(** A writer is in the critical section from the return of [writer_lock]
    to its call of [writer_unlock]; it holds the write gate until its
    [sem_post]. *)
Definition is_Writing (c : pc) : bool :=
  match c with Writing => true | _ => false end.

Definition holds_gate_as_writer (c : pc) : bool :=
  match c with Writing | WUnlockPost | WUnlockHeld => true | _ => false end.

(** The threads counted in [readers_holding]. *)
Definition is_Reading (c : pc) : bool :=
  match c with Reading => true | _ => false end.

Definition counted_reader (c : pc) : bool :=
  match c with Reading | RUnlockMutex => true | _ => false end.

Definition is_RLockGate (c : pc) : bool :=
  match c with RLockGate => true | _ => false end.

(** The invariant behind mutual exclusion: the semaphore, the writers that
    hold the gate and the cohort of readers share one token. *)
Record inv (s : sys) : Prop := mkInv {
  inv_token :
    write_lock (rw s) + count holds_gate_as_writer (pcs s)
    + (if 0 <? count counted_reader (pcs s) then 1 else 0) = 1;
  inv_sem : 0 <= write_lock (rw s);
  inv_readers : readers_holding (rw s) = count counted_reader (pcs s) mod UINT32_MOD;
  inv_bound : count counted_reader (pcs s) <= UINT32_MOD;
  inv_mutex : count is_RLockGate (pcs s) = b2z (mutex (rw s))
}.

(** ** Readers admitted while a writer waits *)

(** A writer waits from its call of [writer_lock] until [sem_wait] gives it
    the write gate. *)
Definition waiting_writer (c : pc) : bool :=
  match c with WLockMutex | WLockCond | WLockGate => true | _ => false end.

Definition pc_of (s : sys) (t : nat) : pc := default Idle (pcs s !! t).

(** Did this step take thread [t] into the critical section as a reader? *)
Definition admits (s s' : sys) (t : nat) : bool :=
  negb (is_Reading (pc_of s t)) && is_Reading (pc_of s' t).

(** Runs [sched] from [s] while thread [w] stays a waiting writer, and
    counts the readers admitted on the way.  [None]: a step is not enabled,
    or [w] stopped waiting. *)
Fixpoint admitted_while_waiting (w : nat) (sched : list (nat * act)) (s : sys)
  : option (Z * sys) :=
  if waiting_writer (pc_of s w) then
    match sched with
    | [] => Some (0, s)
    | ta :: sched' =>
        match sys_step s ta with
        | Some s' =>
            match admitted_while_waiting w sched' s' with
            | Some (k, s'') => Some (b2z (admits s s' ta.1) + k, s'')
            | None => None
            end
        | None => None
        end
    end
  else None.

(** Writers 0 and 1, readers 2 and 3.  Writer 0 takes the lock; writer 1
    calls [writer_lock] and blocks in [sem_wait]. *)
Definition quota_prefix : list (nat * act) :=
  [ (0%nat, Call_writer_lock); (0%nat, Run); (0%nat, Run);
    (1%nat, Call_writer_lock); (1%nat, Run) ].

(** Writer 0 posts the semaphore in [writer_unlock]; reader 2 takes it;
    writer 0 then resets [readers_passed]; reader 3 enters as well. *)
Definition quota_suffix : list (nat * act) :=
  [ (0%nat, Call_writer_unlock); (0%nat, Run);
    (2%nat, Call_reader_lock); (2%nat, Run); (2%nat, Run);
    (0%nat, Run);
    (3%nat, Call_reader_lock); (3%nat, Run) ].

(** Readers 0 and 1 and writer 2 on one lock. *)
Definition mutex_sched : list (nat * act) :=
  [ (0%nat, Call_reader_lock); (1%nat, Call_reader_lock); (2%nat, Call_writer_lock);
    (0%nat, Run); (0%nat, Run); (2%nat, Run); (1%nat, Run); (2%nat, Run);
    (0%nat, Call_reader_unlock); (0%nat, Run); (2%nat, Run);
    (1%nat, Call_reader_unlock); (1%nat, Run);
    (2%nat, Run); (2%nat, Run) ].

End RWLock.

(** * The per-URI lock registry ([asgn4/httpserver.c])

    [file_locks] is an array of [thread_count] entries; a pointer to an
    entry is its index, and the [rwlock_t *] of an entry is the number of
    the lock. *)

Module Registry.

Record file_lock := mkFileLock {
  lock : nat;
  filename : option string;   (* None: NULL *)
  users : Z
}.

(** The loop of [find_file_lock] from entry [i] on; [None] is the NULL
    result when the loop runs off the array. *)
Fixpoint find_file_lock_from (i : nat) (URI : string) (fls : list file_lock)
  : option (nat * list file_lock) :=
  match fls with
  | [] => None
  | fl :: rest =>
      match filename fl with
      | None =>
          (* unused slot, use it *)
          Some (i, mkFileLock (lock fl) (Some URI) 1 :: rest)
      | Some name =>
          if String.eqb name URI
          then Some (i, mkFileLock (lock fl) (Some name) (s32 (users fl + 1)) :: rest)
          else
            match find_file_lock_from (S i) URI rest with
            | Some (j, rest') => Some (j, fl :: rest')
            | None => None
            end
      end
  end.

Definition find_file_lock (URI : string) (fls : list file_lock)
  : option (nat * list file_lock) :=
  find_file_lock_from 0 URI fls.

(** [release_file_lock(&file_locks[i])]; [None] if there is no entry [i]. *)
Definition release_file_lock (i : nat) (fls : list file_lock) : option (list file_lock) :=
  match fls !! i with
  | Some fl =>
      let u := s32 (users fl - 1) in
      Some (<[i := mkFileLock (lock fl) (if u =? 0 then None else filename fl) u]> fls)
  | None => None
  end.

(** Entries [0 .. j-1] are in use for paths other than [URI]: the scan for
    [URI] passes over them. *)
Definition passed_over (URI : string) (fls : list file_lock) (j : nat) : Prop :=
  forall (j' : nat) (fl' : file_lock), (j' < j)%nat -> fls !! j' = Some fl' ->
    exists name, filename fl' = Some name /\ name <> URI.

(** The array as [main] sets it up: lock [i] in entry [i], no path, no
    user. *)
Definition init_file_locks (threads : nat) : list file_lock :=
  (fun i => mkFileLock i None 0) <$> seq 0 threads.

(** ** Workers

    Each worker thread handles one request at a time: it takes an entry
    with [find_file_lock], and gives it back with [release_file_lock]
    before it takes the next one. *)

Record pool := mkPool {
  file_locks : list file_lock;
  holds : list (option nat)       (* per worker: the entry it holds *)
}.

Inductive act :=
| Acquire (URI : string)
| Release.

Definition pool_step (s : pool) (wa : nat * act) : option pool :=
  match holds s !! wa.1, wa.2 with
  | Some None, Acquire URI =>
      match find_file_lock URI (file_locks s) with
      | Some (i, fls) => Some (mkPool fls (<[wa.1 := Some i]> (holds s)))
      | None => None               (* the worker dereferences NULL *)
      end
  | Some (Some i), Release =>
      match release_file_lock i (file_locks s) with
      | Some fls => Some (mkPool fls (<[wa.1 := None]> (holds s)))
      | None => None
      end
  | _, _ => None
  end.

Fixpoint run (sched : list (nat * act)) (s : pool) : option pool :=
  match sched with
  | [] => Some s
  | wa :: sched' =>
      match pool_step s wa with
      | Some s' => run sched' s'
      | None => None
      end
  end.

Definition start (threads : nat) : pool :=
  mkPool (init_file_locks threads) (replicate threads None).

Definition holds_entry (i : nat) (h : option nat) : bool :=
  match h with Some j => Nat.eqb i j | None => false end.

Definition holds_some (h : option nat) : bool :=
  match h with Some _ => true | None => false end.

(** Sum of [f 0 .. f (n-1)]. *)
Fixpoint sum_upto (f : nat -> Z) (n : nat) : Z :=
  match n with
  | O => 0
  | S n' => sum_upto f n' + f n'
  end.

Record inv (T : nat) (s : pool) : Prop := mkInv {
  inv_length : length (file_locks s) = T;
  inv_workers : length (holds s) = T;
  inv_users : forall i fl, file_locks s !! i = Some fl ->
    users fl = count (holds_entry i) (holds s);
  inv_name : forall i fl, file_locks s !! i = Some fl ->
    (filename fl = None <-> users fl = 0)
}.

(** Workers 0 and 1 of a pool of two: 0 takes "a", 1 takes "b", 0 gives
    "a" back and then asks for "b" as well. *)
Definition split_sched : list (nat * act) :=
  [ (0%nat, Acquire "a"); (1%nat, Acquire "b"); (0%nat, Release); (0%nat, Acquire "b") ].

End Registry.

(** * Requests ([asgn2/seb_http.c], [asgn2/seb_http.h]) *)

Module Http.

Inductive Method := GET | PUT | UNSUPPORTED.

Record Header := mkHeader {
  key : string;
  value : string
}.

(** A request as [req_parse] leaves it.  [body] is the part of the body
    that was already read with the headers; [body_size] is its length. *)
Record Request := mkRequest {
  sockfd : Z;
  method : Method;
  uri : string;
  http_ver_major : ascii;
  http_ver_minor : ascii;
  headers : list Header;
  body : string
}.

Record Response := mkResponse {
  responded : bool;
  status : Z
}.

Definition RESPONSE_UNSENT (code : Z) : Response := mkResponse false code.
Definition RESPONSE_SENT (code : Z) : Response := mkResponse true code.

Definition req_get_sockfd (req : Request) : Z := sockfd req.
Definition req_get_method (req : Request) : Method := method req.
Definition req_get_uri (req : Request) : string := uri req.
Definition req_get_http_ver_major (req : Request) : ascii := http_ver_major req.
Definition req_get_http_ver_minor (req : Request) : ascii := http_ver_minor req.
Definition req_get_body (req : Request) : string := body req.
Definition req_get_body_size (req : Request) : Z := Z.of_nat (String.length (body req)).

Definition tolower (c : ascii) : ascii :=
  let n := nat_of_ascii c in
  if (65 <=? n)%nat && (n <=? 90)%nat then ascii_of_nat (n + 32) else c.

Fixpoint lowercase (s : string) : string :=
  match s with
  | EmptyString => EmptyString
  | String c s' => String (tolower c) (lowercase s')
  end.

(** [strcasecmp(a, b) == 0] *)
Definition strcasecmp_eq (a b : string) : bool :=
  String.eqb (lowercase a) (lowercase b).

(** The first header whose key is [k] up to case; [None] is NULL. *)
Fixpoint header_value (hs : list Header) (k : string) : option string :=
  match hs with
  | [] => None
  | h :: hs' => if strcasecmp_eq (key h) k then Some (value h) else header_value hs' k
  end.

Definition req_get_header_value (req : Request) (k : string) : option string :=
  header_value (headers req) k.

Definition digit_of (c : ascii) : option Z :=
  let n := nat_of_ascii c in
  if (48 <=? n)%nat && (n <=? 57)%nat then Some (Z.of_nat n - 48) else None.

(** The loop of [_str_to_long] with [res] so far.  [ssize_t] arithmetic is
    taken modulo 2^64, as the compiled code computes it. *)
Fixpoint str_to_long_from (res : Z) (str : string) : Z :=
  match str with
  | EmptyString => res
  | String c str' =>
      let res := s64 (res * 10) in
      match digit_of c with
      | Some d => str_to_long_from (s64 (res + d)) str'
      | None => -1
      end
  end.

Definition _str_to_long (str : string) : Z := str_to_long_from 0 str.

Definition req_get_content_length (req : Request) : Z :=
  match req_get_header_value req "Content-Length" with
  | None => -1                      (* no content-length header *)
  | Some content_length_str =>
      let content_length := _str_to_long content_length_str in
      if content_length <? 0 then -2 else content_length
  end.

(** What the patterns of [parse_headers] let through: a key of 1 to 128
    characters of the bracket expression [[a-zA-Z0-9\.-]], a value of 1 to
    128 printable characters.  In a POSIX bracket expression the backslash
    stands for itself, so the class of a key is the letters, the digits,
    the backslash (92), the dot (46) and the hyphen (45). *)
Definition key_char (c : ascii) : bool :=
  let n := nat_of_ascii c in
  ((97 <=? n) && (n <=? 122) || (65 <=? n) && (n <=? 90) || (48 <=? n) && (n <=? 57)
   || (n =? 92) || (n =? 46) || (n =? 45))%nat.

Definition printable (c : ascii) : bool :=
  let n := nat_of_ascii c in ((32 <=? n) && (n <=? 126))%nat.

Fixpoint all_chars (f : ascii -> bool) (s : string) : bool :=
  match s with
  | EmptyString => true
  | String c s' => f c && all_chars f s'
  end.

Definition header_ok (h : Header) : bool :=
  ((1 <=? String.length (key h)) && (String.length (key h) <=? 128))%nat
  && all_chars key_char (key h)
  && ((1 <=? String.length (value h)) && (String.length (value h) <=? 128))%nat
  && all_chars printable (value h).

Definition parsed (req : Request) : Prop :=
  forallb header_ok (headers req) = true.

(** A non-negative decimal integer: one digit or more, nothing else. *)
Definition is_digit (c : ascii) : bool :=
  match digit_of c with Some _ => true | None => false end.

Definition decimal (s : string) : bool :=
  (1 <=? String.length s)%nat && all_chars is_digit s.

(** Its value. *)
Fixpoint decimal_value_from (acc : Z) (s : string) : Z :=
  match s with
  | EmptyString => acc
  | String c s' => decimal_value_from (acc * 10 + default 0 (digit_of c)) s'
  end.

Definition decimal_value (s : string) : Z := decimal_value_from 0 s.

(** * System calls and handlers ([asgn4/httpserver.c]) *)

Inductive errno :=
| EACCES | EBADF | EFAULT | EISDIR | ENAMETOOLONG | ENOENT | EPERM | EROFS
| EINTR | EIO | ELOOP | EMFILE | ENFILE | ENOMEM | ENOSPC | ENOTDIR | EOVERFLOW | ETXTBSY.

Inductive open_flags := O_RDONLY | O_WRONLY_O_TRUNC.

Record stat := mkStat {
  st_isdir : bool;     (* S_ISDIR(st_mode) *)
  st_size : Z
}.

(** The calls a handler makes, with the type of what they return.  A file
    descriptor result is the descriptor or the [errno] of the failure.
    [write_n_bytes] and [pass_n_bytes] are the helpers declared in
    [asgn2_helper_funcs.h]; like the system calls they are calls to the
    outside, answered by the environment. *)
Inductive call : Type -> Type :=
| Sys_open (path : string) (flags : open_flags) : call (errno + Z)
| Sys_creat (path : string) (mode : Z) : call Z
| Sys_fstat (fd : Z) : call (errno + stat)
| Sys_close (fd : Z) : call unit
| Write_n_bytes (fd : Z) (buf : string) (n : Z) : call Z
| Pass_n_bytes (src dst : Z) (n : Z) : call Z
| Fprintf_stderr (line : string) : call unit
| Find_file_lock (URI : string) : call (option nat)
| Release_file_lock (entry : nat) : call unit
| Reader_lock (entry : nat) : call unit
| Reader_unlock (entry : nat) : call unit
| Writer_lock (entry : nat) : call unit
| Writer_unlock (entry : nat) : call unit
| Req_close (fd : Z) : call unit.

(** A handler is a tree of calls; [Crash] is the dereference of NULL. *)
Inductive prog (R : Type) : Type :=
| Ret (r : R)
| Crash
| Vis (X : Type) (c : call X) (k : X -> prog R).

Arguments Ret {R} r.
Arguments Crash {R}.
Arguments Vis {R X} c k.

Fixpoint bind {R S : Type} (p : prog R) (f : R -> prog S) : prog S :=
  match p with
  | Ret r => f r
  | Crash => Crash
  | Vis c k => Vis c (fun x => bind (k x) f)
  end.

Definition trigger {X : Type} (c : call X) : prog X := Vis c Ret.

#[global] Instance prog_ret : MRet prog := fun _ r => Ret r.
#[global] Instance prog_bind : MBind prog := fun _ _ f p => bind p f.

Definition CRLF : string := String "013" (String "010" EmptyString).
Definition LF : string := String "010" EmptyString.

(** [printf]'s [%d] of an [int] and [%lu] of a 64-bit value. *)
Definition fmt_d (n : Z) : string := NilZero.string_of_int (Z.to_int (s32 n)).
Definition fmt_lu (n : Z) : string :=
  NilZero.string_of_uint (N.to_uint (Z.to_N (n mod SSIZE_MOD))).

Definition strlen (s : string) : Z := Z.of_nat (String.length s).

Definition audit_line (op URI : string) (status : Z) (req_id : string) : string :=
  op +:+ ",/" +:+ URI +:+ "," +:+ fmt_d status +:+ "," +:+ req_id +:+ LF.

Definition write_audit_log (op URI : string) (status : Z) (req_id : string) : prog unit :=
  trigger (Fprintf_stderr (audit_line op URI status req_id)).

Definition handle_get (req : Request) : prog Response :=
  let URI := req_get_uri req in
  fd ← trigger (Sys_open URI O_RDONLY);
  match fd with
  | inl e =>
      match e with
      | EACCES | ENAMETOOLONG | EPERM | EROFS => mret (RESPONSE_UNSENT 403)
      | ENOENT => mret (RESPONSE_UNSENT 404)
      | _ => mret (RESPONSE_UNSENT 500)
      end
  | inr fd =>
      st_res ← trigger (Sys_fstat fd);
      match st_res with
      | inl e =>
          match e with
          | EACCES | EBADF | EFAULT => trigger (Sys_close fd);; mret (RESPONSE_UNSENT 403)
          | ENOENT => trigger (Sys_close fd);; mret (RESPONSE_UNSENT 404)
          | _ => trigger (Sys_close fd);; mret (RESPONSE_UNSENT 500)
          end
      | inr st =>
          if st_isdir st then
            trigger (Sys_close fd);; mret (RESPONSE_UNSENT 403)
          else
            let file_size := st_size st in
            let sock := req_get_sockfd req in
            trigger (Write_n_bytes sock ("HTTP/1.1 200 OK" +:+ CRLF) 17);;
            let file_size_str := "Content-Length: " +:+ fmt_lu file_size +:+ CRLF in
            trigger (Write_n_bytes sock file_size_str (strlen file_size_str));;
            trigger (Write_n_bytes sock CRLF 2);;
            trigger (Pass_n_bytes fd sock file_size);;
            trigger (Sys_close fd);;
            mret (RESPONSE_SENT 200)
      end
  end.

(** [handle_put] from the test of [content_length == 0] on, with the
    descriptor [fd] and the status [res] decided. *)
Definition put_body (req : Request) (content_length : Z) (fd : Z) (res : Z)
  : prog Response :=
  if content_length =? 0 then
    trigger (Sys_close fd);; mret (RESPONSE_UNSENT res)
  else
    let body_size := req_get_body_size req in
    total_wb ← (if 0 <? body_size
                then wb ← trigger (Write_n_bytes fd (req_get_body req) body_size);
                     mret (s64 (0 + wb))
                else mret 0);
    if total_wb =? content_length then
      trigger (Sys_close fd);; mret (RESPONSE_UNSENT res)
    else
      let sock := req_get_sockfd req in
      trigger (Pass_n_bytes sock fd (s64 (content_length - total_wb)));;
      trigger (Sys_close fd);;
      mret (RESPONSE_UNSENT res).

Definition handle_put (req : Request) : prog Response :=
  let content_length := req_get_content_length req in
  if content_length <? 0 then mret (RESPONSE_UNSENT 400)
  else
    let URI := req_get_uri req in
    fd ← trigger (Sys_open URI O_WRONLY_O_TRUNC);
    match fd with
    | inl e =>
        match e with
        | EISDIR | EACCES | ENAMETOOLONG | EPERM | EROFS => mret (RESPONSE_UNSENT 403)
        | ENOENT =>
            fd ← trigger (Sys_creat URI 438);     (* 0666 *)
            put_body req content_length fd 201
        | _ => mret (RESPONSE_UNSENT 500)
        end
    | inr fd => put_body req content_length fd 200
    end.

(** [handle_connection]; [parse] is the request if [req_parse] returned 0. *)
Definition handle_connection (parse : option Request) : prog Response :=
  match parse with
  | None => mret (RESPONSE_UNSENT 400)
  | Some req =>
      match req_get_header_value req "Request-Id" with
      | None => mret (RESPONSE_UNSENT 400)
      | Some request_id =>
          let URI := req_get_uri req in
          match req_get_method req with
          | GET =>
              lock ← trigger (Find_file_lock URI);
              match lock with
              | None => Crash
              | Some lock =>
                  trigger (Reader_lock lock);;
                  response ← handle_get req;
                  write_audit_log "GET" URI (status response) request_id;;
                  trigger (Reader_unlock lock);;
                  trigger (Release_file_lock lock);;
                  mret response
              end
          | PUT =>
              lock ← trigger (Find_file_lock URI);
              match lock with
              | None => Crash
              | Some lock =>
                  trigger (Writer_lock lock);;
                  response ← handle_put req;
                  write_audit_log "PUT" URI (status response) request_id;;
                  trigger (Writer_unlock lock);;
                  trigger (Release_file_lock lock);;
                  mret response
              end
          | UNSUPPORTED => mret (RESPONSE_UNSENT 501)
          end
      end
  end.

(** The status line and the body [respond] picks for a status. *)
Definition canned (status : Z) : string * string :=
  if status =? 200 then ("200 OK", "OK" +:+ LF)
  else if status =? 201 then ("201 Created", "Created" +:+ LF)
  else if status =? 400 then ("400 Bad Request", "Bad Request" +:+ LF)
  else if status =? 403 then ("403 Forbidden", "Forbidden" +:+ LF)
  else if status =? 404 then ("404 Not Found", "Not Found" +:+ LF)
  else if status =? 501 then ("501 Not Implemented", "Not Implemented" +:+ LF)
  else if status =? 505 then ("505 Version Not Supported", "Version Not Supported" +:+ LF)
  else ("500 Internal Server Error", "Internal Server Error" +:+ LF).

Definition respond (conn : Z) (status : Z) : prog unit :=
  let '(status_line, body) := canned status in
  trigger (Write_n_bytes conn "HTTP/1.1 " 9);;
  trigger (Write_n_bytes conn status_line (strlen status_line));;
  trigger (Write_n_bytes conn CRLF 2);;
  trigger (Write_n_bytes conn "Content-Length: " 16);;
  let content_len := fmt_lu (strlen body) +:+ CRLF in
  trigger (Write_n_bytes conn content_len (strlen content_len));;
  trigger (Write_n_bytes conn CRLF 2);;
  trigger (Write_n_bytes conn body (strlen body));;
  mret tt.

(** One turn of the loop of [worker_thread], after [queue_pop] gave the
    request on socket [conn]. *)
Definition serve (conn : Z) (parse : option Request) : prog Response :=
  response ← handle_connection parse;
  (if negb (responded response) then respond conn (status response) else mret tt);;
  trigger (Req_close conn);;
  mret response.

(** ** The dispatcher of the single-threaded server ([asgn2/httpserver.c]) *)

Definition validate_request (req : Request) : Z :=
  let after_method :=
    match req_get_method req with
    | GET => if negb (req_get_body_size req =? 0) then Some 400 else None
    | PUT => None
    | UNSUPPORTED => Some 501
    end in
  match after_method with
  | Some code => code
  | None =>
      if negb (Ascii.eqb (req_get_http_ver_major req) "1")
         || negb (Ascii.eqb (req_get_http_ver_minor req) "1")
      then 505 else 0
  end.

(** ** Running a handler against answers of the system *)

Record Sys := mkSysAnswers {
  sys_open : string -> open_flags -> errno + Z;
  sys_creat : string -> Z -> Z;
  sys_fstat : Z -> errno + stat;
  sys_write_n_bytes : Z -> string -> Z -> Z;
  sys_pass_n_bytes : Z -> Z -> Z -> Z
}.

Inductive event := Called (X : Type) (c : call X).
Arguments Called {X} c.

(** The answer to one call and the registry after it; [None]: the call
    faults ([release_file_lock] of no entry). *)
Definition exec (sys : Sys) {X : Type} (c : call X) (fls : list Registry.file_lock)
  : option (X * list Registry.file_lock) :=
  match c in call X return option (X * list Registry.file_lock) with
  | Sys_open path flags => Some (sys_open sys path flags, fls)
  | Sys_creat path mode => Some (sys_creat sys path mode, fls)
  | Sys_fstat fd => Some (sys_fstat sys fd, fls)
  | Sys_close _ => Some (tt, fls)
  | Write_n_bytes fd buf n => Some (sys_write_n_bytes sys fd buf n, fls)
  | Pass_n_bytes src dst n => Some (sys_pass_n_bytes sys src dst n, fls)
  | Fprintf_stderr _ => Some (tt, fls)
  | Find_file_lock URI =>
      match Registry.find_file_lock URI fls with
      | Some (i, fls') => Some (Some i, fls')
      | None => Some (None, fls)
      end
  | Release_file_lock i =>
      match Registry.release_file_lock i fls with
      | Some fls' => Some (tt, fls')
      | None => None
      end
  | Reader_lock _ | Reader_unlock _ | Writer_lock _ | Writer_unlock _ => Some (tt, fls)
  | Req_close _ => Some (tt, fls)
  end.

Inductive outcome (R : Type) :=
| Done (r : R) (fls : list Registry.file_lock) (trace : list event)
| Fault (trace : list event).
Arguments Done {R} r fls trace.
Arguments Fault {R} trace.

(** Runs [p] alone (every lock is granted at once); the trace lists the
    calls in the order they were made. *)
Fixpoint run_from (sys : Sys) {R : Type} (p : prog R) (fls : list Registry.file_lock)
    (trace : list event) : outcome R :=
  match p with
  | Ret r => Done r fls trace
  | Crash => Fault trace
  | Vis c k =>
      match exec sys c fls with
      | Some (x, fls') => run_from sys (k x) fls' (trace ++ [Called c])
      | None => Fault (trace ++ [Called c])
      end
  end.

Definition run_prog (sys : Sys) {R : Type} (p : prog R) (fls : list Registry.file_lock)
  : outcome R :=
  run_from sys p fls [].

Definition is_audit (e : event) : bool :=
  match e with Called (Fprintf_stderr _) => true | _ => false end.

Definition is_socket_write (conn : Z) (e : event) : bool :=
  match e with
  | Called (Write_n_bytes fd _ _) => fd =? conn
  | Called (Pass_n_bytes _ dst _) => dst =? conn
  | _ => false
  end.

Definition is_file_call (e : event) : bool :=
  match e with
  | Called (Sys_open _ _) | Called (Sys_creat _ _) | Called (Sys_fstat _)
  | Called (Sys_close _) | Called (Write_n_bytes _ _ _) | Called (Pass_n_bytes _ _ _) => true
  | _ => false
  end.

End Http.

(** * The worker pool ([asgn4/httpserver.c], [worker_thread] and [main])

    The workers run [serve] on the requests they are given, one call at a
    time, interleaved.  The registry and the locks are those of the modules
    above; entry [i] owns lock [i], made by [rwlock_new(N_WAY, 1)].  Of the
    file system only the set of existing files is kept: [open] succeeds on a
    file that exists and fails with ENOENT otherwise, [creat] makes the
    file. *)

Module Server.
Import Http.

Record worker := mkWorker {
  task : option (prog Response);   (* None: waiting in queue_pop *)
  lpc : RWLock.pc                  (* where it stands in the lock it uses *)
}.

Record server := mkServer {
  file_locks : list Registry.file_lock;
  locks : list RWLock.rwlock;
  files : list string;
  workers : list worker;
  log : list (nat * event)         (* the calls made, with the worker *)
}.

Inductive act :=
| Begin (conn : Z) (parse : option Request)
| Go.

Definition pc_eqb (a b : RWLock.pc) : bool :=
  match a, b with
  | RWLock.Idle, RWLock.Idle | RWLock.RLockMutex, RWLock.RLockMutex
  | RWLock.RLockCond, RWLock.RLockCond | RWLock.RLockGate, RWLock.RLockGate
  | RWLock.Reading, RWLock.Reading | RWLock.RUnlockMutex, RWLock.RUnlockMutex
  | RWLock.WLockMutex, RWLock.WLockMutex | RWLock.WLockCond, RWLock.WLockCond
  | RWLock.WLockGate, RWLock.WLockGate | RWLock.Writing, RWLock.Writing
  | RWLock.WUnlockPost, RWLock.WUnlockPost | RWLock.WUnlockMutex, RWLock.WUnlockMutex
  | RWLock.WUnlockHeld, RWLock.WUnlockHeld => true
  | _, _ => false
  end.

Definition file_exists (path : string) (fs : list string) : bool :=
  existsb (String.eqb path) fs.

(** One step of worker [w] inside the lock operation [call] on lock [i],
    which it entered at [from] and which returns at [to].  The call is
    logged when it returns. *)
Definition lock_step (s : server) (w : nat) (wk : worker) (i : nat)
    (call : RWLock.act) (from to : RWLock.pc)
    (again : prog Response) (next : prog Response) (e : event) : option server :=
  match locks s !! i with
  | Some rw =>
      let a := if pc_eqb (lpc wk) from then call else RWLock.Run in
      match RWLock.thread_step rw (lpc wk) a with
      | Some (rw', pc') =>
          let returned := pc_eqb pc' to in
          Some (mkServer (file_locks s) (<[i := rw']> (locks s)) (files s)
                  (<[w := mkWorker (Some (if returned then next else again)) pc']> (workers s))
                  (if returned then log s ++ [(w, e)] else log s))
      | None => None
      end
  | None => None
  end.

Definition continue (s : server) (w : nat) (wk : worker) (fls : list Registry.file_lock)
    (fs : list string) (next : prog Response) (e : event) : option server :=
  Some (mkServer fls (locks s) fs
          (<[w := mkWorker (Some next) (lpc wk)]> (workers s))
          (log s ++ [(w, e)])).

Definition call_step (s : server) (w : nat) (wk : worker) {X : Type} (c : call X)
    (k : X -> prog Response) : option server :=
  match c in call X return (X -> prog Response) -> option server with
  | Sys_open path flags => fun k =>
      continue s w wk (file_locks s) (files s)
        (k (if file_exists path (files s) then inr 3 else inl ENOENT))
        (Called (Sys_open path flags))
  | Sys_creat path mode => fun k =>
      continue s w wk (file_locks s) (path :: files s) (k 3) (Called (Sys_creat path mode))
  | Sys_fstat fd => fun k =>
      continue s w wk (file_locks s) (files s) (k (inr (mkStat false 0)))
        (Called (Sys_fstat fd))
  | Sys_close fd => fun k =>
      continue s w wk (file_locks s) (files s) (k tt) (Called (Sys_close fd))
  | Write_n_bytes fd buf n => fun k =>
      continue s w wk (file_locks s) (files s) (k n) (Called (Write_n_bytes fd buf n))
  | Pass_n_bytes src dst n => fun k =>
      continue s w wk (file_locks s) (files s) (k n) (Called (Pass_n_bytes src dst n))
  | Fprintf_stderr line => fun k =>
      continue s w wk (file_locks s) (files s) (k tt) (Called (Fprintf_stderr line))
  | Req_close fd => fun k =>
      continue s w wk (file_locks s) (files s) (k tt) (Called (Req_close fd))
  | Find_file_lock URI => fun k =>
      match Registry.find_file_lock URI (file_locks s) with
      | Some (i, fls) =>
          continue s w wk fls (files s) (k (Some i)) (Called (Find_file_lock URI))
      | None =>
          continue s w wk (file_locks s) (files s) (k None) (Called (Find_file_lock URI))
      end
  | Release_file_lock i => fun k =>
      match Registry.release_file_lock i (file_locks s) with
      | Some fls => continue s w wk fls (files s) (k tt) (Called (Release_file_lock i))
      | None => None
      end
  | Reader_lock i => fun k =>
      lock_step s w wk i RWLock.Call_reader_lock RWLock.Idle RWLock.Reading
        (Vis (Reader_lock i) k) (k tt) (Called (Reader_lock i))
  | Reader_unlock i => fun k =>
      lock_step s w wk i RWLock.Call_reader_unlock RWLock.Reading RWLock.Idle
        (Vis (Reader_unlock i) k) (k tt) (Called (Reader_unlock i))
  | Writer_lock i => fun k =>
      lock_step s w wk i RWLock.Call_writer_lock RWLock.Idle RWLock.Writing
        (Vis (Writer_lock i) k) (k tt) (Called (Writer_lock i))
  | Writer_unlock i => fun k =>
      lock_step s w wk i RWLock.Call_writer_unlock RWLock.Writing RWLock.Idle
        (Vis (Writer_unlock i) k) (k tt) (Called (Writer_unlock i))
  end k.

Definition step (s : server) (wa : nat * act) : option server :=
  match workers s !! wa.1 with
  | Some wk =>
      match task wk, wa.2 with
      | None, Begin conn parse =>
          Some (mkServer (file_locks s) (locks s) (files s)
                  (<[wa.1 := mkWorker (Some (serve conn parse)) (lpc wk)]> (workers s))
                  (log s))
      | Some (Ret _), Go =>
          Some (mkServer (file_locks s) (locks s) (files s)
                  (<[wa.1 := mkWorker None (lpc wk)]> (workers s)) (log s))
      | Some (Vis c k), Go => call_step s wa.1 wk c k
      | _, _ => None
      end
  | None => None
  end.

Fixpoint run (sched : list (nat * act)) (s : server) : option server :=
  match sched with
  | [] => Some s
  | wa :: sched' =>
      match step s wa with
      | Some s' => run sched' s'
      | None => None
      end
  end.

(** The server as [main] starts it, with no file yet. *)
Definition start (threads : nat) : option server :=
  match RWLock.rwlock_new RWLock.N_WAY 1 with
  | Some rw =>
      Some (mkServer (Registry.init_file_locks threads) (replicate threads rw) []
              (replicate threads (mkWorker None RWLock.Idle)) [])
  | None => None
  end.

(** The lines on stderr, and the workers that opened [path], in order. *)
Fixpoint audit_lines (l : list (nat * event)) : list (nat * string) :=
  match l with
  | [] => []
  | (w, Called (Fprintf_stderr line)) :: l' => (w, line) :: audit_lines l'
  | _ :: l' => audit_lines l'
  end.

Fixpoint opened_by (path : string) (l : list (nat * event)) : list nat :=
  match l with
  | [] => []
  | (w, Called (Sys_open p _)) :: l' =>
      if String.eqb p path then w :: opened_by path l' else opened_by path l'
  | _ :: l' => opened_by path l'
  end.

Definition put_request (conn : Z) (URI id : string) : Request :=
  mkRequest conn PUT URI "1" "1"
    [mkHeader "Request-Id" id; mkHeader "Content-Length" "0"] "".

(** Two workers.  Worker 0 is given [PUT /a] (request 1) and worker 1
    [PUT /b] (request 2).  Worker 1 takes its lock and creates "b", then
    stalls.  Worker 0 completes request 1, is given [PUT /b] (request 3),
    takes a lock, opens "b" and logs.  Worker 1 then logs. *)
Definition split_requests : list (nat * act) :=
  [ (0%nat, Begin 4 (Some (put_request 4 "a" "1")));
    (1%nat, Begin 5 (Some (put_request 5 "b" "2")));
    (0%nat, Go); (1%nat, Go) ]
  ++ replicate 5 (1%nat, Go)     (* worker 1: writer_lock, open, creat *)
  ++ replicate 20 (0%nat, Go)    (* worker 0: request 1 to its end *)
  ++ [ (0%nat, Begin 6 (Some (put_request 6 "b" "3"))) ]
  ++ replicate 7 (0%nat, Go)     (* worker 0: find, writer_lock, open, close, log *)
  ++ replicate 2 (1%nat, Go).    (* worker 1: close, log *)

End Server.

(** * The reader/writer lock: what its counters count *)

Module RWLockMore.
Import RWLock.

Definition is_RLockCond (c : pc) : bool :=
  match c with RLockCond => true | _ => false end.

Definition is_WLockCond (c : pc) : bool :=
  match c with WLockCond => true | _ => false end.

(** N_WAY: the writers between [writers_waiting++] in [writer_lock] and
    [writers_waiting--] in [writer_unlock]. *)
Definition nway_registered (c : pc) : bool :=
  match c with
  | WLockCond | WLockGate | Writing | WUnlockPost | WUnlockMutex => true
  | _ => false
  end.

(** WRITERS: the same span; the unlock decrements in its only step. *)
Definition wr_registered (c : pc) : bool :=
  match c with WLockGate | Writing | WUnlockHeld => true | _ => false end.

(** WRITERS: the readers between [readers_waiting++] and
    [readers_waiting--], which comes after [sem_wait]. *)
Definition wr_waiting_reader (c : pc) : bool :=
  match c with RLockCond | RLockGate => true | _ => false end.

(** READERS: the writers between [writer_holding = true] and
    [writer_holding = false]. *)
Definition rd_holding (c : pc) : bool :=
  match c with WLockGate | Writing | WUnlockPost | WUnlockMutex => true | _ => false end.

(** The counters of the three priorities in terms of where the threads
    stand; [n] is the parameter the lock was made with, [nthreads] the
    number of threads. *)
Definition counters (n : Z) (nthreads : nat) (s : sys) : Prop :=
  length (pcs s) = nthreads /\
  match state (rw s) with
  | St_nway st =>
      nway_n st = n
      /\ nway_writers_waiting st = count nway_registered (pcs s) mod UINT32_MOD
      /\ nway_readers_waiting st = count is_RLockCond (pcs s) mod UINT32_MOD
      /\ 0 <= nway_readers_passed st <= n
  | St_rd st =>
      rd_writers_waiting st = count is_WLockCond (pcs s) mod UINT32_MOD
      /\ count rd_holding (pcs s) = b2z (rd_writer_holding st)
  | St_wr st =>
      wr_writers_waiting st = count wr_registered (pcs s) mod UINT32_MOD
      /\ wr_readers_waiting st = count wr_waiting_reader (pcs s) mod UINT32_MOD
  end.

(** ** The window of the N_WAY priority *)

Definition in_rd_loop (c : pc) : bool :=
  match c with RLockMutex | RLockCond => true | _ => false end.

Definition past_rd_loop (c : pc) : bool :=
  match c with RLockGate | Reading => true | _ => false end.

(** Did this step take thread [t] out of the loop of [reader_lock]? *)
Definition passes (s s' : sys) (t : nat) : bool :=
  in_rd_loop (pc_of s t) && past_rd_loop (pc_of s' t).

Definition is_WUnlockMutex (c : pc) : bool :=
  match c with WUnlockMutex => true | _ => false end.

Definition registered_waiting (c : pc) : bool :=
  match c with WLockCond | WLockGate => true | _ => false end.

(** Runs [sched] from [s] while writer [w] is registered and waits, and no
    [writer_unlock] reaches its reset of [readers_passed]; counts the readers
    that leave the loop of [reader_lock] on the way. *)
Fixpoint passed_in_window (w : nat) (sched : list (nat * act)) (s : sys)
  : option (Z * sys) :=
  if registered_waiting (pc_of s w) then
    match sched with
    | [] => Some (0, s)
    | ta :: sched' =>
        if is_WUnlockMutex (pc_of s ta.1) then None
        else
          match sys_step s ta with
          | Some s' =>
              match passed_in_window w sched' s' with
              | Some (k, s'') => Some (b2z (passes s s' ta.1) + k, s'')
              | None => None
              end
          | None => None
          end
    end
  else None.

Definition readers_passed_of (s : sys) : Z :=
  match state (rw s) with
  | St_nway st => nway_readers_passed st
  | _ => 0
  end.

(** Writer 0 waits behind reader 1 on an N_WAY lock with [n = 3], reader 1
    being the first of the three; readers 2 and 3 enter, reader 4 has to
    wait. *)
Definition window_prefix : list (nat * act) :=
  [ (1%nat, Call_reader_lock); (1%nat, Run); (1%nat, Run);
    (0%nat, Call_writer_lock); (0%nat, Run) ].

Definition window_sched : list (nat * act) :=
  [ (2%nat, Call_reader_lock); (2%nat, Run);
    (3%nat, Call_reader_lock); (3%nat, Run);
    (4%nat, Call_reader_lock); (4%nat, Run); (4%nat, Run) ].

(** The same up to reader 4's call of [reader_lock]. *)
Definition throttle_sched : list (nat * act) :=
  window_prefix ++
  [ (2%nat, Call_reader_lock); (2%nat, Run);
    (3%nat, Call_reader_lock); (3%nat, Run);
    (4%nat, Call_reader_lock) ].

(** Reader 0 holds a READERS lock, writer 2 waits for it to leave, and
    reader 1 calls [reader_lock]. *)
Definition readers_sched : list (nat * act) :=
  [ (0%nat, Call_reader_lock); (0%nat, Run); (0%nat, Run);
    (2%nat, Call_writer_lock); (2%nat, Run);
    (1%nat, Call_reader_lock) ].

(** Writer 0 registers on a WRITERS lock held by reader 1; reader 2 calls
    [reader_lock]. *)
Definition writers_sched : list (nat * act) :=
  [ (1%nat, Call_reader_lock); (1%nat, Run); (1%nat, Run);
    (0%nat, Call_writer_lock); (0%nat, Run);
    (2%nat, Call_reader_lock) ].

(** Writer 0 has passed the loop of [writer_lock] of a READERS lock and
    stands at [sem_wait]; nobody holds the lock. *)
Definition gate_sched : list (nat * act) :=
  [ (0%nat, Call_writer_lock); (0%nat, Run) ].

(** Two readers and a writer take and give back a lock in turn. *)
Definition quiet_sched : list (nat * act) :=
  [ (0%nat, Call_reader_lock); (0%nat, Run); (0%nat, Run);
    (1%nat, Call_reader_lock); (1%nat, Run);
    (2%nat, Call_writer_lock); (2%nat, Run);
    (0%nat, Call_reader_unlock); (0%nat, Run);
    (1%nat, Call_reader_unlock); (1%nat, Run);
    (2%nat, Run); (2%nat, Run);
    (2%nat, Call_writer_unlock); (2%nat, Run); (2%nat, Run) ].

End RWLockMore.

(** * The bounded queue: schedules of further executions *)

Module QueueMore.
Import Queue.

(** Capacity 1: thread 0 pushes 10, thread 1 calls [queue_push]. *)
Definition full_sched : list (nat * @act Z) :=
  push_sched 10 ++ [ (1%nat, Call_push 20) ].

(** Capacity 2: thread 0 pushes 10, thread 1 goes into [queue_pop] up to
    its read of the buffer. *)
Definition reading_sched : list (nat * @act Z) :=
  push_sched 10 ++ [ (1%nat, Call_pop); (1%nat, Run); (1%nat, Run) ].

(** Capacity 3: thread 0 pushes 10 and 20, thread 1 pops once. *)
Definition settled_sched : list (nat * @act Z) :=
  push_sched 10 ++ push_sched 20
  ++ [ (1%nat, Call_pop); (1%nat, Run); (1%nat, Run); (1%nat, Run); (1%nat, Run) ].

(** Thread [t]: a whole [queue_push] of [elem], a whole [queue_pop]. *)
Definition push_by {A : Type} (t : nat) (elem : A) : list (nat * @act A) :=
  [ (t, Call_push elem); (t, Run); (t, Run); (t, Run); (t, Run) ].

Definition pop_by {A : Type} (t : nat) : list (nat * @act A) :=
  [ (t, Call_pop); (t, Run); (t, Run); (t, Run); (t, Run) ].

(** The calls of [queue_push] that returned, in the order they returned.
    A thread is inside a call from its [Call_push] until it steps past
    [sem_post(&q->rd_sem)], the last statement before [return true];
    [in_push] holds, for each thread, the element of the call it is in. *)
Record calls (A : Type) := mkCalls {
  in_push : list (option A);
  returned : list A
}.
Arguments mkCalls {A} _ _.
Arguments in_push {A} _.
Arguments returned {A} _.

Definition no_calls {A : Type} (nthreads : nat) : calls A :=
  mkCalls (replicate nthreads None) [].

Definition note {A : Type} (s : @sys A) (ta : nat * act) (h : calls A) : calls A :=
  match pcs s !! ta.1, ta.2 with
  | Some Idle, Call_push elem =>
      mkCalls (<[ta.1 := Some elem]> (in_push h)) (returned h)
  | Some PushPost, Run =>
      match in_push h !! ta.1 with
      | Some (Some elem) => mkCalls (<[ta.1 := None]> (in_push h)) (returned h ++ [elem])
      | _ => h
      end
  | _, _ => h
  end.

(** [run], noting the calls that return. *)
Fixpoint run_calls {A : Type} (sched : list (nat * act)) (s : @sys A) (h : calls A)
    : option (@sys A * calls A) :=
  match sched with
  | [] => Some (s, h)
  | ta :: sched' =>
      match sys_step s ta with
      | Some s' => run_calls sched' s' (note s ta h)
      | None => None
      end
  end.

(** Capacity 2, two producers and one consumer.  Thread 0 stores 10 and
    stands at its [sem_post(&q->rd_sem)]; thread 1 pushes 20 and returns;
    thread 2, in [queue_pop], has read its slot. *)
Definition overtaken_sched : list (nat * @act Z) :=
  [ (0%nat, Call_push 10); (0%nat, Run); (0%nat, Run); (0%nat, Run) ]
  ++ push_by 1 20
  ++ [ (2%nat, Call_pop); (2%nat, Run); (2%nat, Run); (2%nat, Run) ].

(** Then the pop returns, thread 0 returns from its push, and thread 2 pops
    once more. *)
Definition overtaking_sched : list (nat * @act Z) :=
  overtaken_sched ++ [ (2%nat, Run); (0%nat, Run) ] ++ pop_by 2.

End QueueMore.

(** * The lock registry: well-formed arrays *)

Module RegistryMore.
Import Registry.

(** An array in which a free entry has no user, an entry in use has at
    least one, and no count is about to overflow. *)
Definition tidy (fls : list file_lock) : Prop :=
  forall i fl, fls !! i = Some fl ->
    0 <= users fl < INT_MAX /\ (filename fl = None <-> users fl = 0).

(** Entry [i] keeps the lock [main] gave it, and the workers hold entries
    of the array. *)
Record wf (s : pool) : Prop := mkWf {
  wf_lock : forall i fl, file_locks s !! i = Some fl -> lock fl = i;
  wf_held : forall w i, holds s !! w = Some (Some i) ->
    (i < length (file_locks s))%nat
}.

(** Workers 0 and 1 of a pool of three hold "a" together, worker 2 is
    idle. *)
Definition shared_sched : list (nat * act) :=
  [ (0%nat, Acquire "a"); (1%nat, Acquire "a") ].

End RegistryMore.

(** * The handlers of [asgn4/httpserver.c]: what they call *)

Module HttpMore.
Import Http.

(** The requests for which [handle_connection] goes to the registry: those
    that parsed, carry a Request-Id and ask for GET or PUT. *)
Definition takes_lock (parse : option Request) : bool :=
  match parse with
  | None => false
  | Some req =>
      match req_get_header_value req "Request-Id", req_get_method req with
      | Some _, (GET | PUT) => true
      | _, _ => false
      end
  end.

(** Every call in the tree [p] satisfies [P]. *)
Inductive all_calls (P : forall X, call X -> Prop) {R : Type} : prog R -> Prop :=
| all_calls_ret (r : R) : all_calls P (Ret r)
| all_calls_crash : all_calls P Crash
| all_calls_vis (X : Type) (c : call X) (k : X -> prog R) :
    P X c -> (forall x, all_calls P (k x)) -> all_calls P (Vis c k).

(** A call as the request for [URI] may make it: a write hands over
    exactly its buffer, and the only file named is [URI], created with mode
    0666. *)
Definition call_wf (URI : option string) {X : Type} (c : call X) : bool :=
  match c with
  | Write_n_bytes _ buf n => n =? strlen buf
  | Sys_open path _ => bool_decide (URI = Some path)
  | Sys_creat path mode => bool_decide (URI = Some path) && (mode =? 438)
  | Find_file_lock path => bool_decide (URI = Some path)
  | _ => true
  end.

Definition event_wf (URI : option string) (e : event) : bool :=
  match e with Called c => call_wf URI c end.

Definition trace_of {R : Type} (o : outcome R) : list event :=
  match o with
  | Done _ _ trace => trace
  | Fault trace => trace
  end.

End HttpMore.

(** * The single-threaded server ([asgn2/httpserver.c]) *)

Module Asgn2.
Import Http.

(** ** [pass_n_bytes_fr]

    The loop reads from [src] and writes to [dst] through the helpers of
    [asgn2_helper_funcs.h].  The environment gives, for the [i]-th turn of
    the loop, the value of [read_n_bytes(src, buf, to_read)] and of
    [write_n_bytes(dst, buf, rb)] as the [int]s they are stored in. *)

Definition _PNB_BUF_SIZE : Z := 4096.

Record Pipe := mkPipe {
  read_n_bytes : nat -> Z -> Z;
  write_n_bytes : nat -> Z -> Z
}.

(** The loop from its [i]-th turn on, with [total_wb] so far; [None]: the
    loop is still running after [fuel] turns. *)
Fixpoint pass_n_bytes_fr_from (fuel : nat) (io : Pipe) (i : nat) (n total_wb : Z)
  : option Z :=
  if total_wb <? n then
    match fuel with
    | O => None
    | S fuel' =>
        let to_read := u32 (n - total_wb) in
        let to_read := if _PNB_BUF_SIZE <? to_read then _PNB_BUF_SIZE else to_read in
        let rb := read_n_bytes io i to_read in
        if rb =? -1 then Some (-1)
        else
          let wb := write_n_bytes io i rb in
          if wb =? -1 then Some (-1)
          else pass_n_bytes_fr_from fuel' io (S i) n (s64 (total_wb + wb))
    end
  else Some total_wb.

Definition pass_n_bytes_fr (fuel : nat) (io : Pipe) (n : Z) : option Z :=
  pass_n_bytes_fr_from fuel io 0 n 0.

(** A source that gives at least one byte and at most what is asked for,
    and a destination that takes all it is given. *)
Definition flowing (io : Pipe) : Prop :=
  (forall i k, 1 <= k -> 1 <= read_n_bytes io i k <= k)
  /\ (forall i k, write_n_bytes io i k = k).

(** A source at its end. *)
Definition at_eof (io : Pipe) : Prop :=
  (forall i k, read_n_bytes io i k = 0) /\ (forall i, write_n_bytes io i 0 = 0).

(** ** The handlers

    The calls of the handlers, with the type of what they return.  A call
    of [pass_n_bytes_fr] is answered by the loop above: it has no answer
    while the loop runs. *)
Inductive call : Type -> Type :=
| Sys_open (path : string) (flags : open_flags) : call (errno + Z)
| Sys_creat (path : string) (mode : Z) : call Z
| Sys_fstat (fd : Z) : call (errno + stat)
| Sys_close (fd : Z) : call unit
| Sys_unlink (path : string) : call unit
| Sys_truncate (path : string) (length : Z) : call unit
| Write_n_bytes (fd : Z) (buf : string) (n : Z) : call Z
| Pass_n_bytes_fr (src dst : Z) (n : Z) : call Z
| Recv_peek (sock : Z) : call Z          (* recv(sock, NULL, 1, MSG_PEEK) *)
| Req_close (fd : Z) : call unit.

Inductive prog (R : Type) : Type :=
| Ret (r : R)
| Vis (X : Type) (c : call X) (k : X -> prog R).

Arguments Ret {R} r.
Arguments Vis {R X} c k.

Fixpoint bind {R S : Type} (p : prog R) (f : R -> prog S) : prog S :=
  match p with
  | Ret r => f r
  | Vis c k => Vis c (fun x => bind (k x) f)
  end.

Definition trigger {X : Type} (c : call X) : prog X := Vis c Ret.

#[global] Instance prog_ret : MRet prog := fun _ r => Ret r.
#[global] Instance prog_bind : MBind prog := fun _ _ f p => bind p f.

(** Returns the status, or -1 once the response was sent. *)
Definition handle_get (req : Request) : prog Z :=
  let URI := req_get_uri req in
  fd ← trigger (Sys_open URI O_RDONLY);
  match fd with
  | inl e =>
      match e with
      | EACCES | ENAMETOOLONG | EPERM | EROFS => mret 403
      | ENOENT => mret 404
      | _ => mret 500
      end
  | inr fd =>
      st_res ← trigger (Sys_fstat fd);
      match st_res with
      | inl e =>
          match e with
          | EACCES | EBADF | EFAULT => trigger (Sys_close fd);; mret 403
          | ENOENT => trigger (Sys_close fd);; mret 404
          | _ => trigger (Sys_close fd);; mret 500
          end
      | inr st =>
          if st_isdir st then
            trigger (Sys_close fd);; mret 403
          else
            let file_size := st_size st in
            let sock := req_get_sockfd req in
            trigger (Write_n_bytes sock ("HTTP/1.1 200 OK" +:+ CRLF) 17);;
            let file_size_str := "Content-Length: " +:+ fmt_lu file_size +:+ CRLF in
            trigger (Write_n_bytes sock file_size_str (strlen file_size_str));;
            trigger (Write_n_bytes sock CRLF 2);;
            trigger (Pass_n_bytes_fr fd sock file_size);;
            trigger (Sys_close fd);;
            mret (-1)
      end
  end.

(** The file is deleted if this request created it, and emptied if not. *)
Definition put_cleanup (URI : string) (res : Z) : prog unit :=
  if res =? 201 then trigger (Sys_unlink URI) else trigger (Sys_truncate URI 0).

(** [handle_put] from the test of [body_size > content_length] on, with
    the descriptor [fd] and the status [res] decided. *)
Definition put_body (req : Request) (content_length : Z) (fd : Z) (res : Z) : prog Z :=
  let URI := req_get_uri req in
  let body_size := req_get_body_size req in
  if content_length <? body_size then
    trigger (Sys_close fd);; put_cleanup URI res;; mret 400
  else if content_length =? 0 then
    trigger (Sys_close fd);; mret res
  else
    total_wb ← (if 0 <? body_size
                then wb ← trigger (Write_n_bytes fd (req_get_body req) body_size);
                     mret (s64 (0 + wb))
                else mret 0);
    if total_wb =? content_length then
      trigger (Sys_close fd);; mret res
    else
      let sock := req_get_sockfd req in
      wb ← trigger (Pass_n_bytes_fr sock fd (s64 (content_length - total_wb)));
      let total_wb := s64 (total_wb + wb) in
      trigger (Sys_close fd);;
      if total_wb <? content_length then
        put_cleanup URI res;; mret 400
      else
        left ← trigger (Recv_peek sock);
        if 0 <? left then put_cleanup URI res;; mret 400
        else mret res.

Definition handle_put (req : Request) : prog Z :=
  let content_length := req_get_content_length req in
  if content_length <? 0 then mret 400
  else
    let URI := req_get_uri req in
    fd ← trigger (Sys_open URI O_WRONLY_O_TRUNC);
    match fd with
    | inl e =>
        match e with
        | EISDIR | EACCES | ENAMETOOLONG | EPERM | EROFS => mret 403
        | ENOENT =>
            fd ← trigger (Sys_creat URI 438);     (* 0666 *)
            put_body req content_length fd 201
        | _ => mret 500
        end
    | inr fd => put_body req content_length fd 200
    end.

(** [handle_connection]; [parse] is the request if [req_parse] returned 0. *)
Definition handle_connection (parse : option Request) : prog Z :=
  match parse with
  | None => mret 400
  | Some req =>
      let validated := validate_request req in
      if negb (validated =? 0) then mret validated
      else
        match req_get_method req with
        | GET => handle_get req
        | PUT => handle_put req
        | UNSUPPORTED => mret 501
        end
  end.

Definition respond (conn : Z) (status : Z) : prog unit :=
  let '(status_line, body) := canned status in
  trigger (Write_n_bytes conn "HTTP/1.1 " 9);;
  trigger (Write_n_bytes conn status_line (strlen status_line));;
  trigger (Write_n_bytes conn CRLF 2);;
  trigger (Write_n_bytes conn "Content-Length: " 16);;
  let content_len := fmt_lu (strlen body) +:+ CRLF in
  trigger (Write_n_bytes conn content_len (strlen content_len));;
  trigger (Write_n_bytes conn CRLF 2);;
  trigger (Write_n_bytes conn body (strlen body));;
  mret tt.

(** One turn of the loop of [main], after [accept] gave [conn]. *)
Definition serve (conn : Z) (parse : option Request) : prog Z :=
  response ← handle_connection parse;
  (if negb (response =? -1) then respond conn response else mret tt);;
  trigger (Req_close conn);;
  mret response.

(** ** Running a handler against answers of the system

    The system answers [open], [creat], [fstat], [recv] and the helpers
    [read_n_bytes] and [write_n_bytes]; [sys_pipe sys src dst] holds the
    answers to the reads from [src] and the writes to [dst] that
    [pass_n_bytes_fr(src, dst, n)] makes, turn by turn. *)

Record Sys := mkSysAnswers {
  sys_open : string -> open_flags -> errno + Z;
  sys_creat : string -> Z -> Z;
  sys_fstat : Z -> errno + stat;
  sys_write_n_bytes : Z -> string -> Z -> Z;
  sys_pipe : Z -> Z -> Pipe;
  sys_recv_peek : Z -> Z
}.

Inductive event := Called (X : Type) (c : call X).
Arguments Called {X} c.

(** The answer to a call; [None]: the call is [pass_n_bytes_fr] and its loop
    is still running after [fuel] turns. *)
Definition exec (fuel : nat) (sys : Sys) {X : Type} (c : call X) : option X :=
  match c in call X return option X with
  | Sys_open path flags => Some (sys_open sys path flags)
  | Sys_creat path mode => Some (sys_creat sys path mode)
  | Sys_fstat fd => Some (sys_fstat sys fd)
  | Sys_close _ => Some tt
  | Sys_unlink _ => Some tt
  | Sys_truncate _ _ => Some tt
  | Write_n_bytes fd buf n => Some (sys_write_n_bytes sys fd buf n)
  | Pass_n_bytes_fr src dst n => pass_n_bytes_fr fuel (sys_pipe sys src dst) n
  | Recv_peek sock => Some (sys_recv_peek sys sock)
  | Req_close _ => Some tt
  end.

(** What became of a handler: it returned [r] after the calls of [trace],
    or it is still inside the last call of [trace]. *)
Inductive outcome (R : Type) : Type :=
| Returned (r : R) (trace : list event)
| Running (trace : list event).

Arguments Returned {R} r trace.
Arguments Running {R} trace.

(** [p] run with [fuel] turns for each loop: its result and the calls it
    made, in order. *)
Fixpoint run (fuel : nat) (sys : Sys) {R : Type} (p : prog R) : outcome R :=
  match p with
  | Ret r => Returned r []
  | Vis c k =>
      match exec fuel sys c with
      | Some x =>
          match run fuel sys (k x) with
          | Returned r trace => Returned r (Called c :: trace)
          | Running trace => Running (Called c :: trace)
          end
      | None => Running [Called c]
      end
  end.

Definition is_cleanup (e : event) : bool :=
  match e with
  | Called (Sys_unlink _) | Called (Sys_truncate _ _) => true
  | _ => false
  end.

Definition is_close (e : event) : bool :=
  match e with Called (Sys_close _) => true | _ => false end.

Definition is_data (e : event) : bool :=
  match e with
  | Called (Write_n_bytes _ _ _) | Called (Pass_n_bytes_fr _ _ _) => true
  | _ => false
  end.

(** Did this PUT create the file? *)
Definition created (sys : Sys) (req : Request) : bool :=
  match sys_open sys (req_get_uri req) O_WRONLY_O_TRUNC with
  | inl ENOENT => true
  | _ => false
  end.

(** Did this PUT get a descriptor? *)
Definition opened (sys : Sys) (req : Request) : bool :=
  match sys_open sys (req_get_uri req) O_WRONLY_O_TRUNC with
  | inr _ | inl ENOENT => true
  | _ => false
  end.

(** The call that undoes the PUT. *)
Definition cleanup_of (sys : Sys) (req : Request) : event :=
  if created sys req then Called (Sys_unlink (req_get_uri req))
  else Called (Sys_truncate (req_get_uri req) 0).

(** A pipe that gives three bytes a turn. *)
Definition three_a_turn : Pipe :=
  mkPipe (fun _ k => Z.min k 3) (fun _ k => k).

Definition eof_pipe : Pipe := mkPipe (fun _ _ => 0) (fun _ k => k).

(** A PUT of "abcd" under Content-Length 10 to a file that is not there;
    a system whose socket gives the six bytes that are missing, and one
    whose socket is at its end. *)
Definition short_put : Request :=
  mkRequest 4 PUT "a" "1" "1" [mkHeader "Content-Length" "10"] "abcd".

Definition sys_delivering : Sys :=
  mkSysAnswers (fun _ _ => inl ENOENT) (fun _ _ => 3) (fun _ => inl EIO)
    (fun _ _ n => n) (fun _ _ => three_a_turn) (fun _ => 0).

Definition sys_at_eof : Sys :=
  mkSysAnswers (fun _ _ => inl ENOENT) (fun _ _ => 3) (fun _ => inl EIO)
    (fun _ _ n => n) (fun _ _ => eof_pipe) (fun _ => 0).

End Asgn2.

(** * Reading a request ([asgn2/seb_http.c], [req_create] to [req_parse])

    The input buffer is an array of bytes; [req_create] leaves it as
    [malloc] made it.  [regexec], [read_n_bytes] and [recv] are calls to
    the outside: the environment gives, for a compiled pattern and a string,
    the offsets [regexec] reports, and for the [i]-th call that reads from
    the socket the bytes it delivers. *)

Module Parser.

Definition REQ_MAX_SIZE : Z := 2048.
Definition _BUF_EXTRA : Z := 256.
Definition _METHOD_CHUNK_LEN : Z := 9.
Definition _URI_CHUNK_LEN : Z := 65.
Definition _HTTP_VERSION_CHUNK_LEN : Z := 11.
Definition _HEADERS_CHUNK_LEN : Z := 0.

Definition NUL : ascii := "000"%char.

(** The C string at the start of [bytes]: what is before the first NUL. *)
Fixpoint c_str (bytes : list ascii) : list ascii :=
  match bytes with
  | [] => []
  | c :: rest => if Ascii.eqb c NUL then [] else c :: c_str rest
  end.

(** The [n] bytes at offset [off]. *)
Definition slice (off n : Z) (bytes : list ascii) : list ascii :=
  take (Z.to_nat n) (drop (Z.to_nat off) bytes).

(** [bytes] with [data] written at offset [off]. *)
Definition store (off : Z) (data bytes : list ascii) : list ascii :=
  take (Z.to_nat off) bytes ++ data ++ drop (Z.to_nat off + length data) bytes.

(** [strncpy] of [n] bytes at [off] into a fresh array, then the
    terminator: the C string the copy holds. *)
Definition copy_str (off n : Z) (bytes : list ascii) : string :=
  String.string_of_list_ascii (c_str (slice off n bytes)).

Record regmatch_t := mkMatch {
  rm_so : Z;
  rm_eo : Z
}.

(** The five compiled patterns of [seb_http_regex_init]. *)
Inductive regex := _METHOD_REG | _URI_REG | _HTTP_VERSION_REG | _HEADERS_REG | _HEADER_REG.

Record Env := mkEnv {
  regexec : regex -> list ascii -> option (list regmatch_t);   (* None: no match *)
  read_n_bytes : nat -> Z -> option (list ascii);              (* None: -1 *)
  recv : nat -> Z -> option (list ascii)                       (* None: -1 *)
}.

(** [matches[i]]; a group that took no part in the match is (-1, -1). *)
Definition group (matches : list regmatch_t) (i : nat) : regmatch_t :=
  default (mkMatch (-1) (-1)) (matches !! i).

Record InputBuffer := mkInput {
  buf : list ascii;
  pc : Z;
  wc : Z
}.

Record request := mkReq {
  input : InputBuffer;              (* the field [in] *)
  sockfd : Z;
  method : Http.Method;
  uri : option string;              (* None: NULL *)
  http_ver_major : ascii;
  http_ver_minor : ascii;
  headers : list Http.Header;       (* [num_headers] is its length *)
  body_size : Z;
  body : option Z                   (* the offset in [buf] it points to *)
}.

(** [req_create]; [memory] is the content of the fresh buffer. *)
Definition req_create (sockfd : Z) (memory : list ascii) : request :=
  mkReq (mkInput memory 0 0) sockfd Http.UNSUPPORTED None "0" "0" [] 0 None.

(** The request, the number of calls that read from the socket so far,
    and the place and size of each of them. *)
Record state := mkState {
  req : request;
  calls : nat;
  asked : list (Z * Z)
}.

Definition set_input (r : request) (i : InputBuffer) : request :=
  mkReq i (sockfd r) (method r) (uri r) (http_ver_major r) (http_ver_minor r)
    (headers r) (body_size r) (body r).

Definition advance (r : request) (n : Z) : request :=
  set_input r (mkInput (buf (input r)) (pc (input r) + n) (wc (input r))).

(** A call that reads up to [n] bytes into the buffer at [wc]; [rb] is
    the number of bytes it delivered, or -1. *)
Definition read_into (answer : option (list ascii)) (n : Z) (st : state) : Z * state :=
  let i := input (req st) in
  let st1 := mkState (req st) (S (calls st)) (asked st ++ [(wc i, n)]) in
  match answer with
  | None => (-1, st1)
  | Some data =>
      (Z.of_nat (length data),
       mkState (set_input (req st) (mkInput (store (wc i) data (buf i)) (pc i) (wc i)))
         (S (calls st)) (asked st ++ [(wc i, n)]))
  end.

Definition grow (st : state) (rb : Z) : state :=
  let i := input (req st) in
  mkState (set_input (req st) (mkInput (buf i) (pc i) (wc i + rb))) (calls st) (asked st).

Definition parse_chunk (env : Env) (st : state) (chunk_size : Z) (reg : regex)
  : Z * state * list regmatch_t :=
  let i := input (req st) in
  let cur_size := wc i - pc i in
  let '(ok, st) :=
    if (cur_size <? chunk_size) && (wc i <? REQ_MAX_SIZE) then
      let need := chunk_size - cur_size in
      let need := if REQ_MAX_SIZE <? wc i + need then REQ_MAX_SIZE - wc i else need in
      let '(rb, st1) := read_into (read_n_bytes env (calls st) need) need st in
      if (rb =? 0) || (rb =? -1) then (false, st1) else (true, grow st1 rb)
    else (true, st) in
  if ok then
    let i := input (req st) in
    let str := c_str (slice (pc i) (wc i - pc i) (buf i)) in
    match regexec env reg str with
    | Some matches => (0, st, matches)
    | None => (-1, st, [])
    end
  else (-1, st, []).

Definition set_method (r : request) (m : Http.Method) : request :=
  mkReq (input r) (sockfd r) m (uri r) (http_ver_major r) (http_ver_minor r)
    (headers r) (body_size r) (body r).

Definition set_uri (r : request) (u : string) : request :=
  mkReq (input r) (sockfd r) (method r) (Some u) (http_ver_major r) (http_ver_minor r)
    (headers r) (body_size r) (body r).

Definition set_version (r : request) (major minor : ascii) : request :=
  mkReq (input r) (sockfd r) (method r) (uri r) major minor
    (headers r) (body_size r) (body r).

Definition set_headers (r : request) (hs : list Http.Header) : request :=
  mkReq (input r) (sockfd r) (method r) (uri r) (http_ver_major r) (http_ver_minor r)
    hs (body_size r) (body r).

Definition set_body (r : request) (size : Z) (off : Z) : request :=
  mkReq (input r) (sockfd r) (method r) (uri r) (http_ver_major r) (http_ver_minor r)
    (headers r) size (Some off).

Definition with_req (st : state) (r : request) : state :=
  mkState r (calls st) (asked st).

Definition parse_method (env : Env) (st : state) : Z * state :=
  let '(res, st, matches) := parse_chunk env st _METHOD_CHUNK_LEN _METHOD_REG in
  if negb (res =? 0) then (res, st)
  else
    let r := req st in
    let method_len := rm_eo (group matches 1) - rm_so (group matches 1) in
    let method_str :=
      copy_str (pc (input r) + rm_so (group matches 1)) method_len (buf (input r)) in
    let m := if Http.strcasecmp_eq method_str "GET" then Http.GET
             else if Http.strcasecmp_eq method_str "PUT" then Http.PUT
             else Http.UNSUPPORTED in
    (0, with_req st (advance (set_method r m) (rm_eo (group matches 0)))).

Definition parse_uri (env : Env) (st : state) : Z * state :=
  let '(res, st, matches) := parse_chunk env st _URI_CHUNK_LEN _URI_REG in
  if negb (res =? 0) then (res, st)
  else
    let r := req st in
    let uri_len := rm_eo (group matches 1) - rm_so (group matches 1) in
    let u := copy_str (pc (input r) + rm_so (group matches 1)) uri_len (buf (input r)) in
    (0, with_req st (advance (set_uri r u) (rm_eo (group matches 0)))).

(** [bytes[off]]. *)
Definition byte_at (off : Z) (bytes : list ascii) : ascii :=
  default NUL (bytes !! Z.to_nat off).

Definition parse_http_version (env : Env) (st : state) : Z * state :=
  let '(res, st, matches) :=
    parse_chunk env st _HTTP_VERSION_CHUNK_LEN _HTTP_VERSION_REG in
  if negb (res =? 0) then (res, st)
  else
    let r := req st in
    let major := byte_at (pc (input r) + rm_so (group matches 1)) (buf (input r)) in
    let minor := byte_at (pc (input r) + rm_so (group matches 2)) (buf (input r)) in
    (0, with_req st (advance (set_version r major minor) (rm_eo (group matches 0)))).

(** The loop of [parse_headers] with the headers found so far; the
    request is [r], whose parse cursor the loop moves.  [None]: the loop is
    still running after [fuel] turns. *)
Fixpoint parse_headers_loop (fuel : nat) (env : Env) (r : request) (headers_end : Z)
    (found : list Http.Header) : option (Z * request) :=
  let i := input r in
  if pc i <? headers_end then
    match fuel with
    | O => None
    | S fuel' =>
        (* regexec reads the buffer itself, from the parse cursor on *)
        match regexec env _HEADER_REG (c_str (drop (Z.to_nat (pc i)) (buf i))) with
        | None => Some (-1, r)
        | Some header_match =>
            let key_len := rm_eo (group header_match 1) - rm_so (group header_match 1) in
            let value_len := rm_eo (group header_match 2) - rm_so (group header_match 2) in
            let k := copy_str (pc i + rm_so (group header_match 1)) key_len (buf i) in
            let v := copy_str (pc i + rm_so (group header_match 2)) value_len (buf i) in
            parse_headers_loop fuel' env (advance r (rm_eo (group header_match 0)))
              headers_end (found ++ [Http.mkHeader k v])
        end
    end
  else Some (0, advance (set_headers r found) 2).      (* 2 for the \r\n *)

Definition parse_headers (fuel : nat) (env : Env) (st : state) : option (Z * state) :=
  let '(res, st, matches) := parse_chunk env st _HEADERS_CHUNK_LEN _HEADERS_REG in
  if negb (res =? 0) then Some (res, st)
  else
    let r := req st in
    if rm_so (group matches 1) =? rm_eo (group matches 1) then
      Some (0, with_req st (advance r (rm_eo (group matches 0))))
    else
      let headers_end := pc (input r) + rm_eo (group matches 1) in
      match parse_headers_loop fuel env r headers_end [] with
      | Some (res, r') => Some (res, with_req st r')
      | None => None
      end.

Definition parse_body (st : state) : Z * state :=
  let r := req st in
  let i := input r in
  let cur_size := wc i - pc i in
  let r := if 0 <? cur_size then set_body r cur_size (pc i) else r in
  (0, with_req st (set_input r (mkInput (buf i) (wc i) (wc i)))).

(** [req_parse]; [None]: still running after [fuel] turns of the loop of
    [parse_headers]. *)
Definition req_parse (fuel : nat) (env : Env) (st : state) : option (Z * state) :=
  let '(res, st) := parse_method env st in
  if negb (res =? 0) then Some (-1, st)
  else
    let '(res, st) := parse_uri env st in
    if negb (res =? 0) then Some (-1, st)
    else
      let '(res, st) := parse_http_version env st in
      if negb (res =? 0) then Some (-1, st)
      else
        (* read as much as possible from the socket *)
        let n := REQ_MAX_SIZE - wc (input (req st)) in
        let '(rb, st) := read_into (recv env (calls st) n) n st in
        let st := if 0 <? rb then grow st rb else st in
        match parse_headers fuel env st with
        | None => None
        | Some (res, st) =>
            if negb (res =? 0) then Some (-1, st)
            else
              let '(res, st) := parse_body st in
              if negb (res =? 0) then Some (-1, st) else Some (0, st)
        end.


(** The request the handlers see through the getters. *)
Definition request_of (r : request) : Http.Request :=
  Http.mkRequest (sockfd r) (method r) (default EmptyString (uri r))
    (http_ver_major r) (http_ver_minor r) (headers r)
    (match body r with
     | Some off => String.string_of_list_ascii (slice off (body_size r) (buf (input r)))
     | None => EmptyString
     end).

(** ** What the environment is trusted with *)

(** A call that reads delivers at most what it was asked for. *)
Definition bounded_input (env : Env) : Prop :=
  (forall i n data,
     0 <= n -> read_n_bytes env i n = Some data -> Z.of_nat (length data) <= n)
  /\ (forall i n data,
        0 <= n -> recv env i n = Some data -> Z.of_nat (length data) <= n).

Definition in_class (f : ascii -> bool) (lo hi : Z) (m : regmatch_t) (str : list ascii)
  : Prop :=
  0 <= rm_so m /\ rm_eo m <= Z.of_nat (length str)
  /\ lo <= rm_eo m - rm_so m <= hi
  /\ forallb f (slice (rm_so m) (rm_eo m - rm_so m) str) = true.

Definition is_alpha (c : ascii) : bool :=
  let n := nat_of_ascii c in
  ((97 <=? n) && (n <=? 122) || (65 <=? n) && (n <=? 90))%nat.

(** The bracket expression [[a-zA-Z0-9\.-]] of the patterns for the URI and
    for a header key: in a POSIX bracket expression the backslash stands
    for itself, so the class is the letters, the digits, the backslash,
    the dot and the hyphen. *)
Definition name_char (c : ascii) : bool :=
  Http.key_char c.

(** What a match of each pattern says of the string: the whole match lies
    in the string and is not empty, and each group lies in the match and
    consists of the characters its bracket expression lists, as many as its
    bounds allow. *)
Definition regex_sound (env : Env) : Prop :=
  forall reg str matches,
    regexec env reg str = Some matches ->
    0 <= rm_so (group matches 0) /\ rm_so (group matches 0) < rm_eo (group matches 0)
    /\ rm_eo (group matches 0) <= Z.of_nat (length str)
    /\ match reg with
       | _METHOD_REG =>
           in_class is_alpha 1 8 (group matches 1) str
           /\ rm_eo (group matches 1) < rm_eo (group matches 0)
       | _URI_REG =>
           in_class name_char 1 63 (group matches 1) str
           /\ rm_eo (group matches 1) < rm_eo (group matches 0)
       | _HTTP_VERSION_REG =>
           in_class Http.is_digit 1 1 (group matches 1) str
           /\ in_class Http.is_digit 1 1 (group matches 2) str
           /\ rm_eo (group matches 2) < rm_eo (group matches 0)
       | _HEADERS_REG =>
           group matches 1 = mkMatch (-1) (-1)
           \/ (0 <= rm_so (group matches 1) < rm_eo (group matches 1)
               /\ rm_eo (group matches 1) + 2 <= rm_eo (group matches 0))
       | _HEADER_REG =>
           in_class name_char 1 128 (group matches 1) str
           /\ in_class Http.printable 1 128 (group matches 2) str
           /\ rm_eo (group matches 2) < rm_eo (group matches 0)
       end.

(** A call that reads into the first [REQ_MAX_SIZE] bytes of the buffer. *)
Definition in_bounds (a : Z * Z) : Prop :=
  0 <= a.1 /\ 0 <= a.2 /\ a.1 + a.2 <= REQ_MAX_SIZE.

Record inv (st : state) : Prop := mkInv {
  inv_asked : Forall in_bounds (asked st);
  inv_wc : 0 <= wc (input (req st)) <= REQ_MAX_SIZE;
  inv_buf : Z.of_nat (length (buf (input (req st)))) = REQ_MAX_SIZE + _BUF_EXTRA
}.

(** The shape of the URI and of the headers of a request that matched. *)
Definition uri_ok (u : string) : bool :=
  ((1 <=? String.length u) && (String.length u <=? 63))%nat
  && Http.all_chars name_char u.

Definition header_shape (h : Http.Header) : bool :=
  ((1 <=? String.length (Http.key h)) && (String.length (Http.key h) <=? 128))%nat
  && Http.all_chars name_char (Http.key h)
  && ((1 <=? String.length (Http.value h)) && (String.length (Http.value h) <=? 128))%nat
  && Http.all_chars Http.printable (Http.value h).

(** An environment for one request: the socket delivers the 9 bytes the
    first read asks for and the rest of the request at the second, and
    [regexec] knows this request's lines. *)
Definition sample_request : list ascii :=
  String.list_ascii_of_string
    ("GET /a.txt HTTP/1.1" +:+ Http.CRLF +:+ "Request-Id: 7" +:+ Http.CRLF +:+ Http.CRLF).

Definition sample_env : Env :=
  mkEnv
    (fun reg str =>
       match reg with
       | _METHOD_REG =>
           if bool_decide (take 4 str = String.list_ascii_of_string "GET ")
           then Some [mkMatch 0 4; mkMatch 0 3] else None
       | _URI_REG =>
           if bool_decide (take 7 str = String.list_ascii_of_string "/a.txt ")
           then Some [mkMatch 0 7; mkMatch 1 6] else None
       | _HTTP_VERSION_REG =>
           if bool_decide (take 10 str = String.list_ascii_of_string ("HTTP/1.1" +:+ Http.CRLF))
           then Some [mkMatch 0 10; mkMatch 5 6; mkMatch 7 8] else None
       | _HEADERS_REG =>
           if bool_decide
                (take 17 str
                 = String.list_ascii_of_string ("Request-Id: 7" +:+ Http.CRLF +:+ Http.CRLF))
           then Some [mkMatch 0 17; mkMatch 0 15] else None
       | _HEADER_REG =>
           if bool_decide
                (take 15 str = String.list_ascii_of_string ("Request-Id: 7" +:+ Http.CRLF))
           then Some [mkMatch 0 15; mkMatch 0 10; mkMatch 12 13] else None
       end)
    (fun i n =>
       if (i =? 0)%nat then Some (take (Z.to_nat n) sample_request)
       else Some (take (Z.to_nat n) (drop 9 sample_request)))
    (fun _ _ => Some []).

Definition fresh_memory : list ascii := replicate 2304 NUL.

End Parser.

(** * Properties

    ** Machine integers and thread pools *)

Lemma s32_id x : -2147483648 <= x <= INT_MAX -> s32 x = x.
Proof. unfold s32, INT_MAX, UINT32_MOD. intros. rewrite Z.mod_small; lia. Qed.

Lemma s64_id x : -9223372036854775808 <= x <= SSIZE_MAX -> s64 x = x.
Proof. unfold s64, SSIZE_MAX, SSIZE_MOD. intros. rewrite Z.mod_small; lia. Qed.

Lemma u32_id x : 0 <= x < UINT32_MOD -> u32 x = x.
Proof. unfold u32. intros. apply Z.mod_small; lia. Qed.

Lemma u32_range x : 0 <= u32 x < UINT32_MOD.
Proof. unfold u32, UINT32_MOD. apply Z.mod_pos_bound. lia. Qed.

Section Pool.
Context {P : Type}.
Implicit Types (f : P -> bool) (l : list P) (c : P) (t : nat).

Lemma count_nonneg f l : 0 <= count f l.
Proof. induction l as [|c l IH]; simpl; [lia|]. destruct (f c); simpl; lia. Qed.

Lemma count_le_length f l : count f l <= Z.of_nat (length l).
Proof. induction l as [|c l IH]; simpl; [lia|]. destruct (f c); simpl; lia. Qed.

Lemma count_insert f l t c c' :
  l !! t = Some c ->
  count f (<[t:=c']> l) = count f l - b2z (f c) + b2z (f c').
Proof.
  revert t. induction l as [|d l IH]; intros [|t] H; simpl in *; try discriminate.
  - injection H as ->. lia.
  - rewrite (IH _ H). lia.
Qed.

Lemma count_lookup f l t c : l !! t = Some c -> f c = true -> 1 <= count f l.
Proof.
  revert t. induction l as [|d l IH]; intros [|t] H Hf; simpl in *; try discriminate.
  - injection H as ->. rewrite Hf. pose proof (count_nonneg f l). simpl. lia.
  - specialize (IH _ H Hf). destruct (f d); simpl; lia.
Qed.

Lemma count_replicate f c n : count f (replicate n c) = Z.of_nat n * b2z (f c).
Proof. induction n as [|n IH]; simpl replicate; simpl count; [lia|]. rewrite IH. lia. Qed.

Lemma count_zero_lookup f l t c : count f l = 0 -> l !! t = Some c -> f c = false.
Proof.
  intros H0 Hl. destruct (f c) eqn:E; [|done].
  pose proof (count_lookup f l t c Hl E). lia.
Qed.
Lemma count_unique f l t t' c c' :
  count f l <= 1 -> l !! t = Some c -> l !! t' = Some c' ->
  f c = true -> f c' = true -> t = t'.
Proof.
  revert t t'. induction l as [|d l IH]; intros [|t] [|t'] Hle Hl Hl' Hf Hf';
    simpl in *; try discriminate.
  - done.
  - injection Hl as ->. rewrite Hf in Hle.
    pose proof (count_lookup f l t' c' Hl' Hf'). simpl in Hle. lia.
  - injection Hl' as ->. rewrite Hf' in Hle.
    pose proof (count_lookup f l t c Hl Hf). simpl in Hle. lia.
  - f_equal. apply (IH t t'); try done. destruct (f d); simpl in Hle; lia.
Qed.
End Pool.


(** ** The bounded queue *)

Module QueueFacts.
Import Queue.

Lemma mod_window_ne C k n :
  0 < C -> 0 <= k < n -> n - k < C -> k mod C <> n mod C.
Proof.
  intros HC Hk Hn E.
  assert (H : (n - k) mod C = 0).
  { rewrite Zminus_mod, E, Z.sub_diag. apply Z.mod_0_l. lia. }
  rewrite Z.mod_small in H; lia.
Qed.

Lemma advance_mod C n :
  0 < C <= INT_MAX -> 0 <= n ->
  Z.rem (s32 (n mod C + 1)) C = (n + 1) mod C.
Proof.
  intros HC Hn. pose proof (Z.mod_pos_bound n C ltac:(lia)) as Hb.
  rewrite s32_id by (unfold INT_MAX in *; lia).
  rewrite Z.rem_mod_nonneg by lia.
  apply Z.add_mod_idemp_l. lia.
Qed.

Section QueueFacts.
Context {A : Type}.
Implicit Types (s : @sys A) (C : Z).

Lemma queue_inv_start C (q0 : @queue A) n : queue_new C = Some q0 -> inv C (start q0 n).
Proof.
  unfold queue_new. destruct (C <=? 0) eqn:E; [discriminate|].
  apply Z.leb_gt in E. intros [= <-].
  split; simpl; rewrite ?count_replicate; simpl; rewrite ?length_replicate; try lia.
  - rewrite Z.mod_0_l; lia.
  - rewrite Z.mod_0_l; lia.
  - intros k x Hk. discriminate.
  - reflexivity.
Qed.

Ltac counts Hl := rewrite ?(count_insert _ _ _ _ _ Hl); simpl b2z.

Lemma queue_inv_step C s ta s' :
  0 < C <= INT_MAX -> inv C s -> sys_step s ta = Some s' -> inv C s'.
Proof.
  intros HC I. destruct ta as [t a]. unfold sys_step. simpl.
  destruct (pcs s !! t) as [c|] eqn:Hl; [|discriminate].
  destruct I as [Isz Ibuf Ihd Itl Ifree Ifull Iws Irs Iwl Irl Iwin Ipop].
  pose proof (count_nonneg is_PushLock (pcs s)).
  pose proof (count_nonneg is_PushCrit (pcs s)).
  pose proof (count_nonneg is_PushPost (pcs s)).
  pose proof (count_nonneg is_PopLock (pcs s)).
  pose proof (count_nonneg is_PopCrit (pcs s)).
  pose proof (count_nonneg is_PopPost (pcs s)).
  destruct c, a; simpl; try discriminate.
  - (* call queue_push *)
    intros [= <-]. split; simpl; counts Hl; try done; lia.
  - (* call queue_pop *)
    intros [= <-]. split; simpl; counts Hl; try done; lia.
  - (* sem_wait(&q->wr_sem) *)
    destruct (0 <? wr_sem (q s)) eqn:E; [|discriminate]. apply Z.ltb_lt in E.
    intros [= <-]. split; simpl; counts Hl; try done; lia.
  - (* pthread_mutex_lock(&q->wr_lock) *)
    destruct (wr_lock (q s)) eqn:E; [discriminate|].
    intros [= <-]. split; simpl; counts Hl; try done; simpl in *; lia.
  - (* the producer's critical region *)
    destruct ((0 <=? head (q s)) && (head (q s) <? Z.of_nat (length (buf (q s))))) eqn:E;
      [|discriminate].
    apply andb_true_iff in E as [E1 E2]. apply Z.leb_le in E1. apply Z.ltb_lt in E2.
    pose proof (count_lookup is_PushCrit _ _ _ Hl eq_refl) as Hc.
    intros [= <-]. split; simpl; counts Hl; rewrite ?length_insert, ?length_app; simpl;
      try done; try lia.
    + rewrite Isz, Ihd, advance_mod by lia. f_equal. lia.
    + destruct (wr_lock (q s)); simpl in *; lia.
    + intros k x Hk Hle.
      assert (Hkn : (k < length (pushed s) + 1)%nat).
      { apply lookup_lt_Some in Hk. rewrite length_app in Hk. simpl in Hk. lia. }
      destruct (decide (k = length (pushed s))) as [->|Hne].
      * rewrite lookup_app_r in Hk by lia. rewrite Nat.sub_diag in Hk.
        injection Hk as ->. rewrite <- Ihd.
        apply list_lookup_insert_eq. lia.
      * rewrite lookup_app_l in Hk by lia.
        rewrite list_lookup_insert_ne; [by apply Iwin|].
        rewrite Ihd. intros E.
        apply (mod_window_ne C (Z.of_nat k) (Z.of_nat (length (pushed s)))); try lia.
        pose proof (Z.mod_pos_bound (Z.of_nat k) C ltac:(lia)).
        pose proof (Z.mod_pos_bound (Z.of_nat (length (pushed s))) C ltac:(lia)).
        lia.
    + rewrite take_app_le; [done|].
      lia.
  - (* sem_post(&q->rd_sem) *)
    intros [= <-]. split; simpl; counts Hl; try done; lia.
  - (* sem_wait(&q->rd_sem) *)
    destruct (0 <? rd_sem (q s)) eqn:E; [|discriminate]. apply Z.ltb_lt in E.
    intros [= <-]. split; simpl; counts Hl; try done; lia.
  - (* pthread_mutex_lock(&q->rd_lock) *)
    destruct (rd_lock (q s)) eqn:E; [discriminate|].
    intros [= <-]. split; simpl; counts Hl; try done; simpl in *; lia.
  - (* the consumer's critical region *)
    destruct (0 <=? tail (q s)) eqn:E1; [|discriminate].
    destruct (buf (q s) !! Z.to_nat (tail (q s))) as [slot|] eqn:E2; [|discriminate].
    pose proof (count_lookup is_PopCrit _ _ _ Hl eq_refl) as Hc.
    assert (Hlt : (length (popped s) < length (pushed s))%nat) by lia.
    destruct (lookup_lt_is_Some_2 (pushed s) _ Hlt) as [x Hx].
    pose proof (Iwin _ _ Hx ltac:(lia)) as Hw.
    rewrite <- Itl, E2 in Hw. injection Hw as ->.
    intros [= <-]. split; simpl; counts Hl; rewrite ?length_app; simpl;
      try done; try lia.
    + rewrite Isz, Itl, advance_mod by lia. f_equal. lia.
    + destruct (rd_lock (q s)); simpl in *; lia.
    + intros k y Hk Hle. apply Iwin; [done|lia].
    + replace (length (popped s) + 1)%nat with (S (length (popped s))) by lia.
      rewrite (take_S_r _ _ _ Hx), fmap_app, <- Ipop. done.
  - (* sem_post(&q->wr_sem) *)
    intros [= <-]. split; simpl; counts Hl; try done; lia.
Qed.

Lemma queue_inv_run C sched : forall s s',
  0 < C <= INT_MAX -> inv C s -> run sched s = Some s' -> inv C s'.
Proof.
  induction sched as [|ta sched IH]; intros s s' HC I; simpl.
  - by intros [= <-].
  - destruct (sys_step s ta) as [s1|] eqn:E; [|discriminate].
    apply IH; [done|]. by apply (queue_inv_step C s ta).
Qed.

(** Inside their critical regions the threads never index outside the
    buffer: the two steps that touch [buf] are always enabled. *)
Lemma crit_enabled C s t c :
  0 < C <= INT_MAX -> inv C s -> pcs s !! t = Some c ->
  is_PushCrit c || is_PopCrit c = true ->
  is_Some (sys_step s (t, Run)).
Proof.
  intros HC I Hl Hc. unfold sys_step. simpl. rewrite Hl.
  destruct I as [Isz Ibuf Ihd Itl Ifree Ifull Iws Irs Iwl Irl Iwin Ipop].
  pose proof (Z.mod_pos_bound (Z.of_nat (length (pushed s))) C ltac:(lia)).
  pose proof (Z.mod_pos_bound (Z.of_nat (length (popped s))) C ltac:(lia)).
  destruct c; try discriminate; simpl.
  - replace (0 <=? head (q s)) with true by (symmetry; apply Z.leb_le; lia).
    replace (head (q s) <? Z.of_nat (length (buf (q s)))) with true
      by (symmetry; apply Z.ltb_lt; lia).
    simpl. eauto.
  - replace (0 <=? tail (q s)) with true by (symmetry; apply Z.leb_le; lia).
    destruct (lookup_lt_is_Some_2 (buf (q s)) (Z.to_nat (tail (q s))) ltac:(lia)) as [x ->].
    eauto.
Qed.

(** C8. In every interleaved execution of [queue_push] and [queue_pop] on
    a queue of capacity [C]: the number of stored and not yet read elements
    stays in [0, C]; the slots read by the pops are, in the order they were
    read, the elements stored by the pushes in the order they were stored
    (FIFO in the order of the stores: a push stores under [wr_lock] and
    only then posts [rd_sem] and returns); [head] and [tail] are the
    numbers of stores and reads modulo [C]; and once every stored element
    was read the popped elements are a permutation of the pushed ones. *)
Theorem queue_fifo (C : Z) (q0 : @queue A) (nthreads : nat)
    (sched : list (nat * act)) (s : sys) :
  C <= INT_MAX ->
  queue_new C = Some q0 ->
  run sched (start q0 nthreads) = Some s ->
  0 <= Z.of_nat (length (pushed s)) - Z.of_nat (length (popped s)) <= C
  /\ popped s = Some <$> take (length (popped s)) (pushed s)
  /\ head (q s) = Z.of_nat (length (pushed s)) mod C
  /\ tail (q s) = Z.of_nat (length (popped s)) mod C
  /\ (length (popped s) = length (pushed s) -> popped s ≡ₚ Some <$> pushed s).
Proof.
  intros HC Hnew Hrun.
  assert (0 < C) as HC0.
  { unfold queue_new in Hnew. destruct (C <=? 0) eqn:E; [discriminate|].
    by apply Z.leb_gt in E. }
  pose proof (queue_inv_run C sched _ _ (conj HC0 HC) (queue_inv_start C q0 nthreads Hnew) Hrun) as I.
  destruct I as [Isz Ibuf Ihd Itl Ifree Ifull Iws Irs Iwl Irl Iwin Ipop].
  pose proof (count_nonneg is_PushLock (pcs s)).
  pose proof (count_nonneg is_PushCrit (pcs s)).
  pose proof (count_nonneg is_PushPost (pcs s)).
  pose proof (count_nonneg is_PopLock (pcs s)).
  pose proof (count_nonneg is_PopCrit (pcs s)).
  pose proof (count_nonneg is_PopPost (pcs s)).
  repeat split; try done; try lia.
  intros E. rewrite Ipop at 1. rewrite E, firstn_all. done.
Qed.

(** *** One thread: pushes followed by pops *)

Lemma run_app (sched1 sched2 : list (nat * @act A)) : forall s,
  run (sched1 ++ sched2) s
  = match run sched1 s with
    | Some s' => run sched2 s'
    | None => None
    end.
Proof.
  induction sched1 as [|ta sched1 IH]; intros s; simpl; [done|].
  destruct (sys_step s ta); [apply IH|done].
Qed.

(** A lone thread completes [queue_push] when the queue is not full. *)
Lemma push_runs C s (x : A) :
  0 < C <= INT_MAX -> inv C s -> pcs s = [Idle] ->
  Z.of_nat (length (pushed s)) - Z.of_nat (length (popped s)) < C ->
  exists s', run (push_sched x) s = Some s'
    /\ pcs s' = [Idle] /\ pushed s' = pushed s ++ [x] /\ popped s' = popped s.
Proof.
  intros HC I Hp Hroom.
  destruct I as [Isz Ibuf Ihd Itl Ifree Ifull Iws Irs Iwl Irl Iwin Ipop].
  destruct s as [[sz bf hd tl wl rl rs ws] ps pu po]. simpl in *. subst ps. simpl in *.
  pose proof (Z.mod_pos_bound (Z.of_nat (length pu)) C ltac:(lia)) as Hb.
  destruct wl; [simpl in Iwl; lia|].
  unfold push_sched, run, sys_step. simpl.
  destruct (Z.ltb_spec 0 ws); [|lia]. simpl.
  destruct (Z.leb_spec 0 hd); [|lia].
  destruct (Z.ltb_spec hd (Z.of_nat (length bf))); [|lia]. simpl.
  eexists. split; [reflexivity|]. done.
Qed.

(** A lone thread completes [queue_pop] when the queue is not empty. *)
Lemma pop_runs C s :
  0 < C <= INT_MAX -> inv C s -> pcs s = [Idle] ->
  (length (popped s) < length (pushed s))%nat ->
  exists s' slot, run pop_sched s = Some s'
    /\ pcs s' = [Idle] /\ pushed s' = pushed s /\ popped s' = popped s ++ [slot].
Proof.
  intros HC I Hp Hroom.
  destruct I as [Isz Ibuf Ihd Itl Ifree Ifull Iws Irs Iwl Irl Iwin Ipop].
  destruct s as [[sz bf hd tl wl rl rs ws] ps pu po]. simpl in *. subst ps. simpl in *.
  pose proof (Z.mod_pos_bound (Z.of_nat (length po)) C ltac:(lia)) as Hb.
  destruct rl; [simpl in Irl; lia|].
  unfold pop_sched, run, sys_step. simpl.
  destruct (Z.ltb_spec 0 rs); [|lia]. simpl.
  destruct (Z.leb_spec 0 tl); [|lia].
  destruct (lookup_lt_is_Some_2 bf (Z.to_nat tl) ltac:(lia)) as [slot ->]. simpl.
  eexists _, slot. split; [reflexivity|]. done.
Qed.

Lemma pushes_run C (xs : list A) : forall s,
  0 < C <= INT_MAX -> inv C s -> pcs s = [Idle] ->
  Z.of_nat (length (pushed s)) - Z.of_nat (length (popped s)) + Z.of_nat (length xs) <= C ->
  exists s', run (pushes xs) s = Some s'
    /\ inv C s' /\ pcs s' = [Idle] /\ pushed s' = pushed s ++ xs /\ popped s' = popped s.
Proof.
  induction xs as [|x xs IH]; intros s HC I Hp Hroom.
  - exists s. by rewrite app_nil_r.
  - change (pushes (x :: xs)) with (push_sched x ++ pushes xs).
    rewrite length_cons in Hroom.
    destruct (push_runs C s x HC I Hp ltac:(lia)) as (s1 & Hrun & Hp1 & Hpu1 & Hpo1).
    pose proof (queue_inv_run C _ _ _ HC I Hrun) as I1.
    destruct (IH s1 HC I1 Hp1) as (s2 & Hrun2 & I2 & Hp2 & Hpu2 & Hpo2).
    { rewrite Hpu1, Hpo1, length_app. simpl. lia. }
    exists s2. rewrite run_app, Hrun. split; [done|]. split; [done|]. split; [done|].
    split; [|congruence]. by rewrite Hpu2, Hpu1, <- app_assoc.
Qed.

Lemma pops_run C (n : nat) : forall s,
  0 < C <= INT_MAX -> inv C s -> pcs s = [Idle] ->
  (length (popped s) + n <= length (pushed s))%nat ->
  exists s', run (pops n) s = Some s'
    /\ inv C s' /\ pcs s' = [Idle] /\ pushed s' = pushed s
    /\ length (popped s') = (length (popped s) + n)%nat.
Proof.
  induction n as [|n IH]; intros s HC I Hp Hroom.
  - exists s. split; [done|]. split; [done|]. split; [done|]. split; [done|]. lia.
  - change (pops (S n)) with (pop_sched ++ @pops A n).
    destruct (pop_runs C s HC I Hp ltac:(lia)) as (s1 & slot & Hrun & Hp1 & Hpu1 & Hpo1).
    pose proof (queue_inv_run C _ _ _ HC I Hrun) as I1.
    destruct (IH s1 HC I1 Hp1) as (s2 & Hrun2 & I2 & Hp2 & Hpu2 & Hpo2).
    { rewrite Hpu1, Hpo1, length_app. simpl. lia. }
    exists s2. rewrite run_app, Hrun. split; [done|]. split; [done|]. split; [done|].
    split; [congruence|]. rewrite Hpo2, Hpo1, length_app. simpl. lia.
Qed.

(** A lone thread that pushes up to [C] elements and then pops as many gets
    them back in the order it pushed them; no operation blocks. *)
Lemma push_then_pop (C : Z) (q0 : @queue A) (xs : list A) :
  C <= INT_MAX -> queue_new C = Some q0 -> Z.of_nat (length xs) <= C ->
  exists s, run (pushes xs ++ pops (length xs)) (start q0 1) = Some s
    /\ pushed s = xs /\ popped s = Some <$> xs /\ pcs s = [Idle].
Proof.
  intros HC Hnew Hlen.
  assert (0 < C) as HC0.
  { unfold queue_new in Hnew. destruct (C <=? 0) eqn:E; [discriminate|].
    by apply Z.leb_gt in E. }
  pose proof (queue_inv_start C q0 1 Hnew) as I0.
  destruct (pushes_run C xs (start q0 1) (conj HC0 HC) I0 eq_refl)
    as (s1 & Hrun1 & I1 & Hp1 & Hpu1 & Hpo1); [simpl; lia|].
  simpl in Hpu1, Hpo1.
  destruct (pops_run C (length xs) s1 (conj HC0 HC) I1 Hp1)
    as (s2 & Hrun2 & I2 & Hp2 & Hpu2 & Hpo2); [rewrite Hpu1, Hpo1; simpl; lia|].
  exists s2. rewrite run_app, Hrun1. split; [done|]. split; [congruence|].
  split; [|done].
  destruct I2 as [_ _ _ _ _ _ _ _ _ _ _ Ipop]. rewrite Ipop, Hpo2, Hpo1, Hpu2, Hpu1.
  simpl. by rewrite firstn_all.
Qed.

End QueueFacts.

(** Two producers race on a queue of capacity 2, one consumer pops twice. *)
Lemma queue_fifo_witness :
  exists q0 s,
    queue_new 2 = Some q0 /\ run fifo_sched (start q0 3) = Some s
    /\ pushed s = [20; 10] /\ popped s = [Some 20; Some 10]
    /\ popped s ≡ₚ Some <$> pushed s.
Proof.
  eexists _, _. split; [reflexivity|]. split; [vm_compute; reflexivity|].
  split; [reflexivity|]. split; [reflexivity|].
  eapply (queue_fifo 2 _ 3 fifo_sched _);
    [ unfold INT_MAX; lia | reflexivity | vm_compute; reflexivity | reflexivity ].
Defined.

(** [run_calls] is [run] with the returns of [queue_push] noted. *)
Lemma run_calls_run {A : Type} (sched : list (nat * act)) : forall (s : @sys A) h,
  fst <$> QueueMore.run_calls sched s h = run sched s.
Proof.
  induction sched as [|ta sched IH]; intros s h; simpl; [done|].
  destruct (sys_step s ta); [apply IH|done].
Qed.

(** C8 with the order in which the pushes completed fails.  On a queue of
    capacity 2, thread 0 stores 10 and has not yet returned from
    [queue_push] when thread 1 pushes 20 and returns; thread 2 then pops 10:
    the only push that completed is the push of 20, and 20 is still in the
    queue.  Once every call has returned, the pushes completed in the order
    20, 10 and the pops returned 10, 20. *)
Lemma completion_order_broken :
  exists q0 s h s' h',
    queue_new 2 = Some q0
    /\ QueueMore.run_calls QueueMore.overtaken_sched (start q0 3) (QueueMore.no_calls 3)
        = Some (s, h)
    /\ pcs s = [PushPost; Idle; PopPost]
    /\ QueueMore.returned h = [20] /\ pushed s = [10; 20] /\ popped s = [Some 10]
    /\ QueueMore.run_calls QueueMore.overtaking_sched (start q0 3) (QueueMore.no_calls 3)
        = Some (s', h')
    /\ run QueueMore.overtaking_sched (start q0 3) = Some s'
    /\ pcs s' = [Idle; Idle; Idle]
    /\ QueueMore.returned h' = [20; 10] /\ popped s' = [Some 10; Some 20]
    /\ popped s' <> Some <$> QueueMore.returned h'.
Proof.
  eexists _, _, _, _, _. split; [reflexivity|].
  split; [vm_compute; reflexivity|]. do 4 (split; [reflexivity|]).
  split; [vm_compute; reflexivity|]. split; [vm_compute; reflexivity|].
  do 3 (split; [reflexivity|]). discriminate.
Qed.

End QueueFacts.

(** ** The reader/writer lock *)

Module RWLockFacts.
Import RWLock.

Lemma u32_succ_mod r k : r = k mod UINT32_MOD -> u32 (r + 1) = (k + 1) mod UINT32_MOD.
Proof. intros ->. unfold u32. apply Z.add_mod_idemp_l. unfold UINT32_MOD. lia. Qed.

Lemma u32_pred_mod r k : r = k mod UINT32_MOD -> u32 (r - 1) = (k - 1) mod UINT32_MOD.
Proof. intros ->. unfold u32. apply Zminus_mod_idemp_l. Qed.

Lemma mod_zero_small k : 0 <= k < UINT32_MOD -> k mod UINT32_MOD = 0 -> k = 0.
Proof. intros H E. rewrite Z.mod_small in E; lia. Qed.

Lemma mod_nonzero_lt k : 0 <= k <= UINT32_MOD -> k mod UINT32_MOD <> 0 -> 0 < k < UINT32_MOD.
Proof.
  intros H E. destruct (Z.eq_dec k UINT32_MOD) as [->|].
  - rewrite Z.mod_same in E; [done|unfold UINT32_MOD; lia].
  - destruct (Z.eq_dec k 0) as [->|]; [|lia]. rewrite Z.mod_0_l in E; [done|].
    unfold UINT32_MOD; lia.
Qed.

(** The invariant is kept by the five kinds of update the steps make. *)
Section Updates.
Context (s : sys) (t : nat) (c : pc) (Hl : pcs s !! t = Some c) (I : inv s).

(** A step that changes neither the semaphore, nor [readers_holding], nor
    the class of the thread. *)
Lemma inv_neutral st m c' :
  counted_reader c' = counted_reader c ->
  holds_gate_as_writer c' = holds_gate_as_writer c ->
  b2z (is_RLockGate c') - b2z (is_RLockGate c) = b2z m - b2z (mutex (rw s)) ->
  inv (mkSys (mkRW st (readers_holding (rw s)) m (write_lock (rw s))) (<[t:=c']> (pcs s))).
Proof.
  intros E1 E2 E3. destruct I as [It Is Ir Ib Im].
  split; simpl; rewrite ?(count_insert _ _ _ _ _ Hl), ?E1, ?E2, ?Z.sub_add; simpl;
    try done; lia.
Qed.

(** A reader that is not counted yet joins a cohort that holds the gate. *)
Lemma inv_join st m c' :
  readers_holding (rw s) <> 0 ->
  counted_reader c = false -> counted_reader c' = true ->
  holds_gate_as_writer c' = holds_gate_as_writer c ->
  b2z (is_RLockGate c') - b2z (is_RLockGate c) = b2z m - b2z (mutex (rw s)) ->
  inv (mkSys (mkRW st (u32 (readers_holding (rw s) + 1)) m (write_lock (rw s)))
         (<[t:=c']> (pcs s))).
Proof.
  intros Hr E0 E1 E2 E3. destruct I as [It Is Ir Ib Im].
  pose proof (count_nonneg counted_reader (pcs s)) as Hn.
  rewrite Ir in Hr. pose proof (mod_nonzero_lt _ (conj Hn Ib) Hr) as Hlt.
  split; simpl; rewrite ?(count_insert _ _ _ _ _ Hl), ?E0, ?E1, ?E2, ?Z.sub_add; simpl;
    rewrite ?Z.sub_0_r.
  - destruct (Z.ltb_spec 0 (count counted_reader (pcs s) + 1));
      destruct (Z.ltb_spec 0 (count counted_reader (pcs s))); lia.
  - done.
  - apply (u32_succ_mod _ _ Ir).
  - lia.
  - lia.
Qed.

(** The first reader takes the semaphore. *)
Lemma inv_first st m c' :
  0 < write_lock (rw s) ->
  counted_reader c = false -> counted_reader c' = true ->
  holds_gate_as_writer c' = holds_gate_as_writer c ->
  b2z (is_RLockGate c') - b2z (is_RLockGate c) = b2z m - b2z (mutex (rw s)) ->
  inv (mkSys (mkRW st (u32 (readers_holding (rw s) + 1)) m (write_lock (rw s) - 1))
         (<[t:=c']> (pcs s))).
Proof.
  intros Hs E0 E1 E2 E3. destruct I as [It Is Ir Ib Im].
  pose proof (count_nonneg counted_reader (pcs s)) as Hn.
  pose proof (count_nonneg holds_gate_as_writer (pcs s)) as Hw.
  assert (count counted_reader (pcs s) = 0) as Hz.
  { destruct (Z.ltb_spec 0 (count counted_reader (pcs s))); lia. }
  split; simpl; rewrite ?(count_insert _ _ _ _ _ Hl), ?E0, ?E1, ?E2, ?Z.sub_add; simpl;
    rewrite ?Z.sub_0_r.
  - rewrite Hz in *. simpl in *. lia.
  - lia.
  - apply (u32_succ_mod _ _ Ir).
  - rewrite Hz. unfold UINT32_MOD. lia.
  - lia.
Qed.

(** A counted reader leaves; the last one posts the semaphore. *)
Lemma inv_leave st c' :
  counted_reader c = true -> counted_reader c' = false ->
  holds_gate_as_writer c' = holds_gate_as_writer c ->
  is_RLockGate c' = is_RLockGate c ->
  inv (mkSys (mkRW st (u32 (readers_holding (rw s) - 1)) (mutex (rw s))
                (write_lock (rw s)
                 + (if u32 (readers_holding (rw s) - 1) =? 0 then 1 else 0)))
         (<[t:=c']> (pcs s))).
Proof.
  intros E0 E1 E2 E3. destruct I as [It Is Ir Ib Im].
  pose proof (count_lookup counted_reader _ _ _ Hl E0) as Hn.
  pose proof (count_nonneg holds_gate_as_writer (pcs s)) as Hw.
  rewrite (u32_pred_mod _ _ Ir).
  split; simpl; rewrite ?(count_insert _ _ _ _ _ Hl), ?E0, ?E1, ?E2, ?E3, ?Z.sub_add; simpl;
    rewrite ?Z.add_0_r.
  - destruct (Z.ltb_spec 0 (count counted_reader (pcs s))); [|lia].
    destruct (Z.eqb_spec ((count counted_reader (pcs s) - 1) mod UINT32_MOD) 0) as [E|E].
    + apply mod_zero_small in E; [|lia].
      destruct (Z.ltb_spec 0 (count counted_reader (pcs s) - 1)); lia.
    + destruct (Z.ltb_spec 0 (count counted_reader (pcs s) - 1)); [lia|].
      exfalso. apply E. replace (count counted_reader (pcs s) - 1) with 0 by lia.
      reflexivity.
  - destruct (_ =? 0); lia.
  - done.
  - lia.
  - lia.
Qed.

(** A writer takes the semaphore. *)
Lemma inv_take st c' :
  0 < write_lock (rw s) ->
  holds_gate_as_writer c = false -> holds_gate_as_writer c' = true ->
  counted_reader c' = counted_reader c ->
  is_RLockGate c' = is_RLockGate c ->
  inv (mkSys (mkRW st (readers_holding (rw s)) (mutex (rw s)) (write_lock (rw s) - 1))
         (<[t:=c']> (pcs s))).
Proof.
  intros Hs E0 E1 E2 E3. destruct I as [It Is Ir Ib Im].
  split; simpl; rewrite ?(count_insert _ _ _ _ _ Hl), ?E0, ?E1, ?E2, ?E3, ?Z.sub_add; simpl;
    try done; lia.
Qed.

(** A writer posts the semaphore. *)
Lemma inv_give st c' :
  holds_gate_as_writer c = true -> holds_gate_as_writer c' = false ->
  counted_reader c' = counted_reader c ->
  is_RLockGate c' = is_RLockGate c ->
  inv (mkSys (mkRW st (readers_holding (rw s)) (mutex (rw s)) (write_lock (rw s) + 1))
         (<[t:=c']> (pcs s))).
Proof.
  intros E0 E1 E2 E3. destruct I as [It Is Ir Ib Im].
  split; simpl; rewrite ?(count_insert _ _ _ _ _ Hl), ?E0, ?E1, ?E2, ?E3, ?Z.sub_add; simpl;
    try done; lia.
Qed.

Lemma inv_leave_last st c' :
  u32 (readers_holding (rw s) - 1) = 0 ->
  counted_reader c = true -> counted_reader c' = false ->
  holds_gate_as_writer c' = holds_gate_as_writer c ->
  is_RLockGate c' = is_RLockGate c ->
  inv (mkSys (mkRW st (u32 (readers_holding (rw s) - 1)) (mutex (rw s))
                (write_lock (rw s) + 1))
         (<[t:=c']> (pcs s))).
Proof.
  intros E. intros. pose proof (inv_leave st c') as H'.
  rewrite E in H' at 2. by apply H'.
Qed.

Lemma inv_leave_some st c' :
  u32 (readers_holding (rw s) - 1) <> 0 ->
  counted_reader c = true -> counted_reader c' = false ->
  holds_gate_as_writer c' = holds_gate_as_writer c ->
  is_RLockGate c' = is_RLockGate c ->
  inv (mkSys (mkRW st (u32 (readers_holding (rw s) - 1)) (mutex (rw s))
                (write_lock (rw s)))
         (<[t:=c']> (pcs s))).
Proof.
  intros E. intros. pose proof (inv_leave st c') as H'.
  apply Z.eqb_neq in E. rewrite E, Z.add_0_r in H'. by apply H'.
Qed.

End Updates.

Lemma rwlock_inv_start p n rw0 nthreads : rwlock_new p n = Some rw0 -> inv (start rw0 nthreads).
Proof.
  intros H. assert (readers_holding rw0 = 0 /\ mutex rw0 = false /\ write_lock rw0 = 1)
    as (E1 & E2 & E3).
  { destruct p; simpl in H; try destruct (n =? 0); by inversion H. }
  split; simpl; rewrite ?count_replicate, ?E1, ?E2, ?E3; simpl; rewrite ?Z.mul_0_r; done.
Qed.

Lemma rwlock_inv_step s ta s' : inv s -> sys_step s ta = Some s' -> inv s'.
Proof.
  intros I. destruct ta as [t a]. unfold sys_step. simpl.
  destruct (pcs s !! t) as [c|] eqn:Hl; [|discriminate].
  destruct s as [[st rh m sem] pcs0]. simpl in *.
  destruct (thread_step (mkRW st rh m sem) c a) as [[rw' c']|] eqn:Hs; [|discriminate].
  intros [= <-].
  unfold thread_step in Hs.
  destruct a, c; try discriminate; simpl in Hs.
  1-4: injection Hs as <- <-.
  1-3: apply (inv_neutral (mkSys (mkRW st rh m sem) pcs0) t _ Hl I); simpl; lia || done.
  1: destruct st; apply (inv_neutral (mkSys (mkRW _ rh m sem) pcs0) t _ Hl I); simpl;
       lia || done.
  all: unfold reader_lock, reader_unlock, writer_lock, writer_unlock in Hs; simpl in Hs.
  all: destruct st as [st|st|st]; simpl in Hs.
  all: try discriminate.
  all: try (destruct m; [discriminate|]).
  all: unfold nway_priority_rd_wait, wr_priority_rd_wait, rd_priority_wr_wait,
         nway_priority_wr_wait, first_reader_or_enter, sem_wait, sem_post, hold, unhold,
         set_mutex, set_state, wr_leave_waiting in Hs; simpl in Hs.
  all: repeat match type of Hs with
         | context [if ?b then _ else _] => destruct b eqn:?; simpl in Hs
         end.
  all: try discriminate.
  all: injection Hs as <- <-.
  all: repeat match goal with
         | H : (_ =? _) = true |- _ => apply Z.eqb_eq in H
         | H : (_ =? _) = false |- _ => apply Z.eqb_neq in H
         | H : (_ <? _) = true |- _ => apply Z.ltb_lt in H
         | H : (_ <? _) = false |- _ => apply Z.ltb_ge in H
         end.
  all: try match type of Hl with
         | _ = Some RLockGate =>
             assert (m = true) as ->
               by (destruct I as [_ _ _ _ Im]; simpl in Im;
                   pose proof (count_lookup is_RLockGate _ _ _ Hl eq_refl);
                   destruct m; [done|simpl in Im; lia])
         end.
  all: first
    [ apply (inv_neutral (mkSys (mkRW _ rh _ sem) pcs0) t _ Hl I); simpl; lia || done
    | apply (inv_join (mkSys (mkRW _ rh _ sem) pcs0) t _ Hl I); simpl; lia || done
    | apply (inv_first (mkSys (mkRW _ rh _ sem) pcs0) t _ Hl I); simpl; lia || done
    | apply (inv_leave_last (mkSys (mkRW _ rh _ sem) pcs0) t _ Hl I); simpl; lia || done
    | apply (inv_leave_some (mkSys (mkRW _ rh _ sem) pcs0) t _ Hl I); simpl; lia || done
    | apply (inv_take (mkSys (mkRW _ rh _ sem) pcs0) t _ Hl I); simpl; lia || done
    | apply (inv_give (mkSys (mkRW _ rh _ sem) pcs0) t _ Hl I); simpl; lia || done ].
Qed.

Lemma rwlock_inv_run sched : forall s s', inv s -> run sched s = Some s' -> inv s'.
Proof.
  induction sched as [|ta sched IH]; intros s s' I; simpl.
  - by intros [= <-].
  - destruct (sys_step s ta) as [s1|] eqn:E; [|discriminate].
    apply IH. by apply (rwlock_inv_step s ta).
Qed.

(** C1. For a lock made by [rwlock_new] under any priority, after any
    interleaving of steps of [reader_lock], [reader_unlock], [writer_lock]
    and [writer_unlock] by any number of threads: while a thread is in the
    critical section as a writer, [readers_holding] is 0, no thread is in
    the critical section as a reader, and no other thread holds the write
    gate as a writer. *)
Theorem mutual_exclusion (p : PRIORITY) (n : Z) (rw0 : rwlock) (nthreads : nat)
    (sched : list (nat * act)) (s : sys) (t : nat) :
  rwlock_new p n = Some rw0 ->
  run sched (start rw0 nthreads) = Some s ->
  pcs s !! t = Some Writing ->
  readers_holding (rw s) = 0
  /\ (forall t', pcs s !! t' <> Some Reading)
  /\ (forall t' c, pcs s !! t' = Some c -> holds_gate_as_writer c = true -> t' = t).
Proof.
  intros Hnew Hrun Ht.
  pose proof (rwlock_inv_run sched _ _ (rwlock_inv_start p n rw0 nthreads Hnew) Hrun)
    as [It Is Ir Ib Im].
  pose proof (count_nonneg counted_reader (pcs s)) as HR.
  pose proof (count_lookup holds_gate_as_writer _ _ _ Ht eq_refl) as HW.
  assert (count counted_reader (pcs s) = 0 /\ count holds_gate_as_writer (pcs s) = 1)
    as [Hz Hone].
  { destruct (Z.ltb_spec 0 (count counted_reader (pcs s))); lia. }
  split; [|split].
  - rewrite Ir, Hz. apply Z.mod_0_l. unfold UINT32_MOD. lia.
  - intros t' Ht'. pose proof (count_lookup counted_reader _ _ _ Ht' eq_refl). lia.
  - intros t' c Ht' Hc. apply (count_unique holds_gate_as_writer (pcs s) t' t c Writing);
      try done. lia.
Qed.

(** Three threads on a READERS lock: 0 and 1 read together, 2 waits to
    write, and enters once both have left. *)
Lemma mutual_exclusion_witness :
  exists rw0 s,
    rwlock_new READERS 0 = Some rw0
    /\ run mutex_sched (start rw0 3) = Some s
    /\ pcs s = [Idle; Idle; Writing]
    /\ readers_holding (rw s) = 0.
Proof.
  eexists _, _. split; [reflexivity|]. split; [vm_compute; reflexivity|].
  split; [reflexivity|].
  eapply (mutual_exclusion READERS 0 _ 3 mutex_sched _ 2); [reflexivity| |reflexivity].
  vm_compute; reflexivity.
Defined.

(** C2, at the failing schedule.  On an N_WAY lock with [n = 1], writer 1
    has called [writer_lock], has released the mutex and stands at
    [sem_wait] during the whole of [quota_suffix]; in that time readers 2
    and 3 both enter the critical section.  Writer 0's [writer_unlock]
    posts the semaphore before it takes the mutex and resets
    [readers_passed], so reader 2 is admitted on the old window and reader 3
    on the new one. *)
Theorem nway_quota_exceeded :
  exists rw0 s1 s2,
    rwlock_new N_WAY 1 = Some rw0
    /\ run quota_prefix (start rw0 4) = Some s1
    /\ pcs s1 = [Writing; WLockGate; Idle; Idle]
    /\ admitted_while_waiting 1 quota_suffix s1 = Some (2, s2)
    /\ pcs s2 = [Idle; WLockGate; Reading; Reading]
    /\ state (rw s2) = St_nway (mkNWay 1 0 1 1).
Proof.
  eexists _, _, _. split; [reflexivity|]. split; [vm_compute; reflexivity|].
  split; [reflexivity|]. split; [vm_compute; reflexivity|].
  split; reflexivity.
Qed.

(** Hence no bound [k <= n] on the readers admitted while a writer waits
    holds of all executions. *)
Lemma nway_quota_not_universal :
  ~ (forall n rw0 nthreads pre post w s1 k s2,
       rwlock_new N_WAY n = Some rw0 ->
       run pre (start rw0 nthreads) = Some s1 ->
       admitted_while_waiting w post s1 = Some (k, s2) ->
       k <= n).
Proof.
  intros H.
  specialize (H 1 (mkRW (St_nway (mkNWay 1 0 0 0)) 0 false 1) 4%nat
                quota_prefix quota_suffix 1%nat _ 2 _
                eq_refl ltac:(vm_compute; reflexivity) ltac:(vm_compute; reflexivity)).
  lia.
Qed.

(** With no writer registered in [writers_waiting], a reader that gets the
    mutex never waits on [rd_cond], whatever [readers_passed] is. *)
Lemma nway_no_writer_no_throttle (rw0 : rwlock) (st : N_WAY_STATE) (c : pc) :
  state rw0 = St_nway st ->
  nway_writers_waiting st = 0 ->
  mutex rw0 = false ->
  c = RLockMutex \/ c = RLockCond ->
  exists rw1 c', reader_lock rw0 c = Some (rw1, c') /\ (c' = RLockGate \/ c' = Reading).
Proof.
  intros Hst Hww Hm Hc. unfold reader_lock. rewrite Hst.
  destruct Hc as [-> | ->]; simpl; rewrite Hm;
    unfold nway_priority_rd_wait, nway_reader_blocked; simpl; rewrite Hww; simpl;
    rewrite andb_false_r; unfold first_reader_or_enter; simpl;
    destruct (readers_holding rw0 =? 0); eauto.
Qed.

(** While a writer is registered, a reader leaves the loop of
    [nway_priority_rd_lock] only if [readers_passed < n], and is counted;
    [readers_passed] goes back to 0 only in [nway_priority_wr_unlock]. *)
Lemma nway_admission_counted (rw0 rw1 : rwlock) (st : N_WAY_STATE) (c c' : pc) :
  state rw0 = St_nway st ->
  nway_writers_waiting st <> 0 ->
  c = RLockMutex \/ c = RLockCond ->
  reader_lock rw0 c = Some (rw1, c') ->
  c' = RLockGate \/ c' = Reading ->
  exists st', state rw1 = St_nway st'
    /\ nway_readers_passed st < nway_n st
    /\ nway_readers_passed st' = u32 (nway_readers_passed st + 1)
    /\ nway_writers_waiting st' = nway_writers_waiting st
    /\ nway_n st' = nway_n st.
Proof.
  intros Hst Hww Hc Hstep Hc'. unfold reader_lock in Hstep. rewrite Hst in Hstep.
  apply Z.eqb_neq in Hww.
  destruct Hc as [-> | ->]; simpl in Hstep;
    (destruct (mutex rw0); [discriminate|]);
    unfold nway_priority_rd_wait, nway_reader_blocked in Hstep; simpl in Hstep;
    rewrite Hww in Hstep; simpl in Hstep; rewrite andb_true_r in Hstep;
    (destruct (Z.leb_spec (nway_n st) (nway_readers_passed st)) as [Hge|Hlt];
     [injection Hstep as <- <-; destruct Hc'; discriminate|]);
    unfold first_reader_or_enter, nway_leave_waiting in Hstep; simpl in Hstep;
    (destruct (Z.ltb_spec (nway_readers_passed st) (nway_n st)); [|lia]);
    destruct (readers_holding rw0 =? 0); injection Hstep as <- <-;
    eexists; (split; [reflexivity|]); simpl; done.
Qed.

End RWLockFacts.

(** ** The per-URI lock registry *)

Module RegistryFacts.
Import Registry.

(** *** What the scan returns *)

Lemma find_from_free k URI (fls : list file_lock) j fl :
  fls !! j = Some fl -> passed_over URI fls j -> filename fl = None ->
  find_file_lock_from k URI fls
  = Some ((k + j)%nat, <[j := mkFileLock (lock fl) (Some URI) 1]> fls).
Proof.
  revert k j. induction fls as [|fl0 fls IH]; intros k [|j] Hl Hp Hn; simpl in *;
    try discriminate.
  - injection Hl as ->. rewrite Hn. do 2 f_equal. lia.
  - destruct (Hp 0%nat fl0 ltac:(lia) eq_refl) as (name & -> & Hne).
    apply String.eqb_neq in Hne. rewrite Hne.
    rewrite (IH (S k) j Hl); [do 2 f_equal; lia | | done].
    intros j' fl' Hj' Hl'. apply (Hp (S j') fl'); [lia|done].
Qed.

Lemma find_from_match k URI (fls : list file_lock) j fl :
  fls !! j = Some fl -> passed_over URI fls j -> filename fl = Some URI ->
  find_file_lock_from k URI fls
  = Some ((k + j)%nat, <[j := mkFileLock (lock fl) (Some URI) (s32 (users fl + 1))]> fls).
Proof.
  revert k j. induction fls as [|fl0 fls IH]; intros k [|j] Hl Hp Hn; simpl in *;
    try discriminate.
  - injection Hl as ->. rewrite Hn, String.eqb_refl. do 2 f_equal. lia.
  - destruct (Hp 0%nat fl0 ltac:(lia) eq_refl) as (name & -> & Hne).
    apply String.eqb_neq in Hne. rewrite Hne.
    rewrite (IH (S k) j Hl); [do 2 f_equal; lia | | done].
    intros j' fl' Hj' Hl'. apply (Hp (S j') fl'); [lia|done].
Qed.

(** The scan stops at the first entry that is free or holds the path. *)
Lemma first_hit URI (fls : list file_lock) j0 fl0 :
  fls !! j0 = Some fl0 -> filename fl0 = None \/ filename fl0 = Some URI ->
  exists j fl, (j <= j0)%nat /\ fls !! j = Some fl
    /\ (filename fl = None \/ filename fl = Some URI)
    /\ passed_over URI fls j.
Proof.
  revert j0. induction fls as [|fl1 fls IH]; intros j0 Hl Hf; [discriminate|].
  destruct (filename fl1) as [name|] eqn:En.
  - destruct (String.eqb_spec name URI) as [->|Hne].
    + exists 0%nat, fl1. split; [lia|]. split; [done|]. split; [by right|].
      intros j' fl' Hj'. lia.
    + destruct j0 as [|j0]; simpl in Hl.
      { injection Hl as <-. destruct Hf as [Hf|Hf]; congruence. }
      destruct (IH j0 Hl Hf) as (j & fl & Hle & Hl' & Hf' & Hp).
      exists (S j), fl. split; [lia|]. split; [done|]. split; [done|].
      intros [|j'] fl' Hj' Hl''; simpl in Hl''.
      * injection Hl'' as <-. eauto.
      * apply (Hp j' fl'); [lia|done].
  - exists 0%nat, fl1. split; [lia|]. split; [done|]. split; [by left|].
    intros j' fl' Hj'. lia.
Qed.

(** A scan that returns an entry has met one that is free or holds the
    path. *)
Lemma find_from_hit k URI (fls : list file_lock) r :
  find_file_lock_from k URI fls = Some r ->
  exists j fl, fls !! j = Some fl /\ (filename fl = None \/ filename fl = Some URI).
Proof.
  revert k r. induction fls as [|fl1 l IH]; intros k r H; simpl in H; [discriminate|].
  destruct (filename fl1) as [name|] eqn:En.
  - destruct (String.eqb_spec name URI) as [->|Hne].
    + exists 0%nat, fl1. split; [done|by right].
    + destruct (find_file_lock_from (S k) URI l) as [r'|] eqn:E; [|discriminate].
      destruct (IH _ _ E) as (j0 & fl0 & H0 & H1). exists (S j0), fl0. by split.
  - exists 0%nat, fl1. split; [done|by left].
Qed.

(** The scan returns an entry exactly when one is free or holds the path;
    it is then the first such entry, claimed or with one more user. *)
Lemma find_from_some k URI (fls : list file_lock) j0 fl0 :
  fls !! j0 = Some fl0 -> filename fl0 = None \/ filename fl0 = Some URI ->
  exists j fl, fls !! j = Some fl /\ passed_over URI fls j
    /\ ((filename fl = None
         /\ find_file_lock_from k URI fls
            = Some ((k + j)%nat, <[j := mkFileLock (lock fl) (Some URI) 1]> fls))
        \/ (filename fl = Some URI
            /\ find_file_lock_from k URI fls
               = Some ((k + j)%nat,
                       <[j := mkFileLock (lock fl) (Some URI) (s32 (users fl + 1))]> fls))).
Proof.
  intros Hl Hc. destruct (first_hit URI _ _ _ Hl Hc) as (j & fl & _ & Hj & Hf & Hp).
  exists j, fl. split; [done|]. split; [done|].
  destruct Hf as [Hf|Hf]; [left|right]; (split; [done|]).
  - by apply find_from_free.
  - by apply find_from_match.
Qed.

(** The entry [find_file_lock] returns is an entry of the array, holds the
    path, and can be released. *)
Lemma find_entry_valid URI (fls : list file_lock) i fls1 :
  find_file_lock URI fls = Some (i, fls1) ->
  exists fl, fls1 !! i = Some fl /\ filename fl = Some URI
    /\ is_Some (release_file_lock i fls1).
Proof.
  intros H. unfold find_file_lock in H.
  destruct (find_from_hit _ _ _ _ H) as (j0 & fl0 & Hl0 & Hc0).
  destruct (find_from_some 0 URI _ _ _ Hl0 Hc0) as (j & fl & Hl & _ & Hres).
  pose proof (lookup_lt_Some _ _ _ Hl) as Hlt.
  destruct Hres as [[_ E]|[_ E]]; rewrite E in H; injection H as <- <-;
    eexists; (split; [by apply list_lookup_insert_eq|]); (split; [done|]);
    unfold release_file_lock; rewrite list_lookup_insert_eq by done; eauto.
Qed.

(** From any registry, a second acquire of the path returns the entry the
    first one returned. *)
Lemma acquire_twice_same_entry URI (fls : list file_lock) i fls1 :
  find_file_lock URI fls = Some (i, fls1) ->
  exists fls2, find_file_lock URI fls1 = Some (i, fls2).
Proof.
  intros H. unfold find_file_lock in *.
  destruct (find_from_hit _ _ _ _ H) as (j0 & fl0 & Hl0 & Hc0).
  destruct (find_from_some 0 URI _ _ _ Hl0 Hc0) as (j & fl & Hl & Hp & Hres).
  pose proof (lookup_lt_Some _ _ _ Hl) as Hlt.
  assert (exists fl1, fls1 = <[j := fl1]> fls /\ i = j /\ filename fl1 = Some URI)
    as (fl1 & -> & -> & Hn).
  { destruct Hres as [[_ E]|[_ E]]; rewrite E in H; injection H as <- <-; eauto. }
  eexists. apply (find_from_match 0 URI _ j fl1).
  - by apply list_lookup_insert_eq.
  - intros j' fl' Hj' Hl'. rewrite list_lookup_insert_ne in Hl' by lia. by apply (Hp j').
  - done.
Qed.

(** *** The invariant of the worker pool *)

Lemma count_below_length {P} (f : P -> bool) (l : list P) t c :
  l !! t = Some c -> f c = false -> count f l <= Z.of_nat (length l) - 1.
Proof.
  revert t. induction l as [|d l IH]; intros [|t] Hl Hf; simpl in *; try discriminate.
  - injection Hl as ->. rewrite Hf. pose proof (count_le_length f l). simpl. lia.
  - specialize (IH _ Hl Hf). destruct (f d); simpl; lia.
Qed.

Lemma count_holds_entry_le i l : count (holds_entry i) l <= count holds_some l.
Proof.
  induction l as [|h l IH]; simpl; [lia|].
  destruct h as [j|]; simpl; [destruct (Nat.eqb i j); simpl; lia | lia].
Qed.

Lemma sum_upto_add f g n :
  sum_upto (fun i => f i + g i) n = sum_upto f n + sum_upto g n.
Proof. induction n as [|n IH]; simpl; lia. Qed.

Lemma sum_upto_lower f n :
  (forall i, (i < n)%nat -> 1 <= f i) -> Z.of_nat n <= sum_upto f n.
Proof.
  induction n as [|n IH]; intros H; simpl; [lia|].
  pose proof (H n ltac:(lia)). pose proof (IH ltac:(intros; apply H; lia)). lia.
Qed.

Lemma sum_upto_holds_entry h n :
  sum_upto (fun i => b2z (holds_entry i h)) n <= b2z (holds_some h).
Proof.
  destruct h as [j|]; simpl.
  - assert (sum_upto (fun i => b2z (Nat.eqb i j)) n = b2z (Nat.ltb j n)) as ->.
    { induction n as [|n IH]; simpl; [done|]. rewrite IH.
      destruct (Nat.ltb_spec j n), (Nat.eqb_spec n j), (Nat.ltb_spec j (S n));
        simpl; lia. }
    destruct (Nat.ltb j n); simpl; lia.
  - induction n as [|n IH]; simpl; lia.
Qed.

(** Every held entry is counted once: the users of all entries together
    are at most the workers that hold an entry. *)
Lemma sum_users_le l n :
  sum_upto (fun i => count (holds_entry i) l) n <= count holds_some l.
Proof.
  induction l as [|h l IH]; simpl.
  - induction n as [|n IHn]; simpl; lia.
  - rewrite sum_upto_add. pose proof (sum_upto_holds_entry h n). lia.
Qed.

Lemma init_lookup T i fl :
  init_file_locks T !! i = Some fl -> fl = mkFileLock i None 0.
Proof.
  unfold init_file_locks. rewrite list_lookup_fmap.
  destruct (seq 0 T !! i) as [j|] eqn:E; [|discriminate].
  apply lookup_seq in E as [-> _]. by intros [= <-].
Qed.

Lemma registry_inv_start T : inv T (start T).
Proof.
  split; simpl.
  - unfold init_file_locks. by rewrite length_fmap, length_seq.
  - by rewrite length_replicate.
  - intros i fl Hl. apply init_lookup in Hl as ->. simpl.
    rewrite count_replicate. simpl. lia.
  - intros i fl Hl. apply init_lookup in Hl as ->. done.
Qed.

Lemma count_holds_entry_insert i l w h h' :
  l !! w = Some h ->
  count (holds_entry i) (<[w := h']> l)
  = count (holds_entry i) l - b2z (holds_entry i h) + b2z (holds_entry i h').
Proof. apply count_insert. Qed.

Lemma registry_inv_step T s wa s' :
  Z.of_nat T <= INT_MAX -> inv T s -> pool_step s wa = Some s' -> inv T s'.
Proof.
  intros HT [Ilen Iw Iu Inm]. destruct wa as [w a]. unfold pool_step. simpl.
  destruct (holds s !! w) as [[i|]|] eqn:Hw; destruct a as [URI|]; try discriminate.
  - (* release_file_lock *)
    unfold release_file_lock.
    destruct (file_locks s !! i) as [fl|] eqn:Hi; [|discriminate]. intros [= <-].
    pose proof (Iu _ _ Hi) as Hu.
    pose proof (count_lookup (holds_entry i) _ _ _ Hw ltac:(simpl; apply Nat.eqb_refl)) as H1.
    pose proof (count_le_length (holds_entry i) (holds s)) as H2.
    assert (s32 (users fl - 1) = users fl - 1) as Es by (apply s32_id; unfold INT_MAX in *; lia).
    split; simpl; rewrite ?length_insert; try done.
    + intros j fl' Hj. rewrite (count_holds_entry_insert _ _ _ _ _ Hw). simpl.
      destruct (decide (i = j)) as [<-|Hne].
      * rewrite list_lookup_insert_eq in Hj by (by eapply lookup_lt_Some).
        injection Hj as <-. simpl. rewrite Es, Nat.eqb_refl. simpl. lia.
      * rewrite list_lookup_insert_ne in Hj by done.
        rewrite (Iu _ _ Hj). apply Nat.eqb_neq in Hne.
        rewrite (Nat.eqb_sym j i), Hne. simpl. lia.
    + intros j fl' Hj.
      destruct (decide (i = j)) as [<-|Hne].
      * rewrite list_lookup_insert_eq in Hj by (by eapply lookup_lt_Some).
        injection Hj as <-. simpl. rewrite Es.
        destruct (Z.eqb_spec (users fl - 1) 0) as [E|E]; [done|].
        split; [|lia]. intros Hnone. apply (Inm _ _ Hi) in Hnone. lia.
      * rewrite list_lookup_insert_ne in Hj by done. apply (Inm _ _ Hj).
  - (* find_file_lock *)
    destruct (find_file_lock URI (file_locks s)) as [[i fls]|] eqn:Hf; [|discriminate].
    intros [= <-]. unfold find_file_lock in Hf.
    assert (exists fl fl', file_locks s !! i = Some fl
              /\ fls = <[i := fl']> (file_locks s)
              /\ users fl' = users fl + 1 /\ filename fl' = Some URI) as (fl & fl' & Hi & -> & Hu' & Hn').
    { destruct (find_file_lock_from 0 URI (file_locks s)) as [[i0 fls0]|] eqn:Hf0;
        [|discriminate]. injection Hf as -> ->.
      destruct (find_from_hit _ _ _ _ Hf0) as (j0 & fl0 & Hl0 & Hc0).
      destruct (first_hit URI _ _ _ Hl0 Hc0) as (j & fl & _ & Hl & Hc & Hp).
      destruct Hc as [Hc|Hc].
      - rewrite (find_from_free 0 URI _ j fl Hl Hp Hc) in Hf0. injection Hf0 as <- <-.
        exists fl, (mkFileLock (lock fl) (Some URI) 1). simpl.
        repeat split; try done. apply (Inm _ _ Hl) in Hc. lia.
      - rewrite (find_from_match 0 URI _ j fl Hl Hp Hc) in Hf0. injection Hf0 as <- <-.
        exists fl, (mkFileLock (lock fl) (Some URI) (s32 (users fl + 1))). simpl.
        repeat split; try done. apply s32_id.
        pose proof (Iu _ _ Hl) as Hu.
        pose proof (count_nonneg (holds_entry j) (holds s)).
        pose proof (count_below_length (holds_entry j) _ _ _ Hw eq_refl).
        unfold INT_MAX in *. lia. }
    pose proof (Iu _ _ Hi) as Hu.
    pose proof (count_nonneg (holds_entry i) (holds s)) as Hc.
    split; simpl; rewrite ?length_insert; try done.
    + intros j fl'' Hj. rewrite (count_holds_entry_insert _ _ _ _ _ Hw). simpl.
      destruct (decide (i = j)) as [<-|Hne].
      * rewrite list_lookup_insert_eq in Hj by (by eapply lookup_lt_Some).
        injection Hj as <-. rewrite Nat.eqb_refl. simpl. lia.
      * rewrite list_lookup_insert_ne in Hj by done.
        rewrite (Iu _ _ Hj). apply Nat.eqb_neq in Hne.
        rewrite (Nat.eqb_sym j i), Hne. simpl. lia.
    + intros j fl'' Hj.
      destruct (decide (i = j)) as [<-|Hne].
      * rewrite list_lookup_insert_eq in Hj by (by eapply lookup_lt_Some).
        injection Hj as <-. rewrite Hn'. split; [done|lia].
      * rewrite list_lookup_insert_ne in Hj by done. apply (Inm _ _ Hj).
Qed.

Lemma registry_inv_run T sched : forall s s',
  Z.of_nat T <= INT_MAX -> inv T s -> run sched s = Some s' -> inv T s'.
Proof.
  induction sched as [|wa sched IH]; intros s s' HT I; simpl.
  - by intros [= <-].
  - destruct (pool_step s wa) as [s1|] eqn:E; [|discriminate].
    apply IH; [done|]. by apply (registry_inv_step T s wa).
Qed.

Lemma free_or_full (fls : list file_lock) :
  (exists j fl, fls !! j = Some fl /\ filename fl = None)
  \/ (forall j fl, fls !! j = Some fl -> filename fl <> None).
Proof.
  induction fls as [|fl0 fls [(j & fl & Hl & Hn)|IH]].
  - right. intros j fl H. discriminate.
  - left. exists (S j), fl. by split.
  - destruct (filename fl0) as [name|] eqn:E.
    + right. intros [|j] fl H; simpl in H; [injection H as <-; congruence|by eapply IH].
    + left. exists 0%nat, fl0. by split.
Qed.

(** While a worker holds no entry, an entry is free. *)
Lemma idle_worker_free_entry T s w :
  inv T s -> holds s !! w = Some None ->
  exists j fl, file_locks s !! j = Some fl /\ filename fl = None.
Proof.
  intros [Ilen Iw Iu Inm] Hw.
  destruct (free_or_full (file_locks s)) as [H|Hfull]; [done|]. exfalso.
  pose proof (sum_users_le (holds s) T) as Hsum.
  pose proof (count_below_length holds_some _ _ _ Hw eq_refl) as Hcnt.
  assert (Z.of_nat T <= sum_upto (fun i => count (holds_entry i) (holds s)) T) as Hlow.
  { apply sum_upto_lower. intros i Hi.
    destruct (lookup_lt_is_Some_2 (file_locks s) i ltac:(lia)) as [fl Hl].
    pose proof (Hfull _ _ Hl) as Hne. pose proof (Iu _ _ Hl) as Hu.
    pose proof (count_nonneg (holds_entry i) (holds s)).
    destruct (Z.eq_dec (users fl) 0) as [E|E]; [|lia].
    apply (Inm _ _ Hl) in E. done. }
  lia.
Qed.

(** C4. In a pool of [T] workers over a registry of [T] entries, where a
    worker holds at most one entry at a time, [find_file_lock] called by a
    worker that holds none never returns NULL: it returns an entry of the
    array that was free or held this very path, and that now holds it. *)
Theorem find_file_lock_never_null (T : nat) (sched : list (nat * act)) (s : pool)
    (w : nat) (URI : string) :
  Z.of_nat T <= INT_MAX ->
  run sched (start T) = Some s ->
  holds s !! w = Some None ->
  exists i fls old new,
    find_file_lock URI (file_locks s) = Some (i, fls)
    /\ (i < T)%nat
    /\ file_locks s !! i = Some old
    /\ (filename old = None \/ filename old = Some URI)
    /\ fls !! i = Some new
    /\ filename new = Some URI /\ lock new = lock old /\ 0 < users new.
Proof.
  intros HT Hrun Hw.
  pose proof (registry_inv_run T sched _ _ HT (registry_inv_start T) Hrun) as I.
  destruct (idle_worker_free_entry T s w I Hw) as (j0 & fl0 & Hl0 & Hn0).
  destruct (find_from_some 0 URI _ _ _ Hl0 (or_introl Hn0)) as (j & fl & Hl & _ & Hres).
  destruct I as [Ilen Iw Iu Inm].
  pose proof (lookup_lt_Some _ _ _ Hl) as Hlt.
  unfold find_file_lock.
  destruct Hres as [[Hf ->]|[Hf ->]]; eexists j, _, fl, _;
    (split; [reflexivity|]); (split; [lia|]); (split; [done|]).
  - split; [by left|]. split; [by apply list_lookup_insert_eq|]. simpl. by repeat split.
  - split; [by right|]. split; [by apply list_lookup_insert_eq|]. simpl.
    repeat split; try done.
    pose proof (Iu _ _ Hl) as Hu.
    pose proof (count_nonneg (holds_entry j) (holds s)).
    pose proof (count_below_length (holds_entry j) _ _ _ Hw eq_refl).
    rewrite s32_id; unfold INT_MAX in *; lia.
Qed.

(** C9. From a registry with a free entry in which [URI] is not interned
    (the registry as [main] leaves it is one), the sequence
    acquire; acquire; release; release on [URI] returns the same entry [i]
    twice, the second acquire takes its user count to 2, the first release
    to 1, and after the second release the count is 0, the path is NULL, the
    rest of the array is as before, and the entry is the one the next new
    path is given. *)
Theorem registry_interning (URI : string) (fls : list file_lock) :
  (exists fl, fl ∈ fls /\ filename fl = None) ->
  (forall fl, fl ∈ fls -> filename fl <> Some URI) ->
  exists i fl fls1 fls2 fls3 fls4,
    fls !! i = Some fl /\ filename fl = None
    /\ find_file_lock URI fls = Some (i, fls1)
    /\ fls1 !! i = Some (mkFileLock (lock fl) (Some URI) 1)
    /\ find_file_lock URI fls1 = Some (i, fls2)
    /\ fls2 !! i = Some (mkFileLock (lock fl) (Some URI) 2)
    /\ release_file_lock i fls2 = Some fls3
    /\ fls3 !! i = Some (mkFileLock (lock fl) (Some URI) 1)
    /\ release_file_lock i fls3 = Some fls4
    /\ fls4 = <[i := mkFileLock (lock fl) None 0]> fls
    /\ forall URI', (forall fl', fl' ∈ fls -> filename fl' <> Some URI') ->
         find_file_lock URI' fls4
         = Some (i, <[i := mkFileLock (lock fl) (Some URI') 1]> fls).
Proof.
  intros (fl0 & Hin0 & Hn0) Hnew.
  apply list_elem_of_lookup in Hin0 as [j0 Hl0].
  destruct (find_from_some 0 URI _ _ _ Hl0 (or_introl Hn0)) as (i & fl & Hl & Hp & Hres).
  destruct Hres as [[Hf Hfind]|[Hf _]];
    [|exfalso; apply (Hnew fl); [by eapply list_elem_of_lookup_2|done]].
  pose proof (lookup_lt_Some _ _ _ Hl) as Hlt.
  set (fl1 := mkFileLock (lock fl) (Some URI) 1).
  set (fl2 := mkFileLock (lock fl) (Some URI) 2).
  assert (passed_over URI (<[i := fl1]> fls) i) as Hp1.
  { intros j' fl' Hj' Hl'. rewrite list_lookup_insert_ne in Hl' by lia. by apply (Hp j'). }
  assert (<[i := fl1]> fls !! i = Some fl1) as Hl1 by (by apply list_lookup_insert_eq).
  pose proof (find_from_match 0 URI _ i fl1 Hl1 Hp1 eq_refl) as Hfind2.
  rewrite list_insert_insert_eq in Hfind2.
  change (mkFileLock (lock fl1) (Some URI) (s32 (users fl1 + 1))) with fl2 in Hfind2.
  assert (<[i := fl2]> fls !! i = Some fl2) as Hl2 by (by apply list_lookup_insert_eq).
  exists i, fl, (<[i := fl1]> fls), (<[i := fl2]> fls), (<[i := fl1]> fls),
    (<[i := mkFileLock (lock fl) None 0]> fls).
  split; [done|]. split; [done|]. split; [exact Hfind|]. split; [done|].
  split; [exact Hfind2|]. split; [done|].
  split; [unfold release_file_lock; rewrite Hl2; simpl;
          by rewrite list_insert_insert_eq|].
  split; [done|].
  split; [unfold release_file_lock; rewrite Hl1; simpl;
          by rewrite list_insert_insert_eq|].
  split; [done|].
  intros URI' Hnew'. unfold find_file_lock.
  rewrite (find_from_free 0 URI' _ i (mkFileLock (lock fl) None 0)).
  - simpl. by rewrite list_insert_insert_eq.
  - by apply list_lookup_insert_eq.
  - intros j' fl' Hj' Hl'. rewrite list_lookup_insert_ne in Hl' by lia.
    destruct (Hp j' fl' Hj' Hl') as (name & Hname & _). exists name. split; [done|].
    intros ->. apply (Hnew' fl'); [by eapply list_elem_of_lookup_2|done].
  - done.
Qed.

(** The sequence on "foo" in the registry of a server with two workers. *)
Lemma registry_interning_witness :
  exists i fls1 fls2 fls3 fls4,
    find_file_lock "foo" (init_file_locks 2) = Some (i, fls1)
    /\ find_file_lock "foo" fls1 = Some (i, fls2)
    /\ (users <$> fls2 !! i) = Some 2
    /\ release_file_lock i fls2 = Some fls3
    /\ release_file_lock i fls3 = Some fls4
    /\ fls4 = init_file_locks 2.
Proof.
  destruct (registry_interning "foo" (init_file_locks 2))
    as (i & fl & fls1 & fls2 & fls3 & fls4 & Hl & Hn & H1 & _ & H2 & Hu & H3 & _ & H4 & H5 & _).
  - exists (mkFileLock 0 None 0). split; [|done]. vm_compute. left.
  - intros fl Hin. vm_compute in Hin.
    apply elem_of_cons in Hin as [->|Hin]; [done|].
    apply elem_of_cons in Hin as [->|Hin]; [done|].
    by apply elem_of_nil in Hin.
  - exists i, fls1, fls2, fls3, fls4.
    split; [done|]. split; [done|]. split; [by rewrite Hu|]. split; [done|].
    split; [done|]. rewrite H5.
    vm_compute in H1. injection H1 as <- _. vm_compute in Hl. injection Hl as <-.
    reflexivity.
Defined.

(** Worker 1 asks for "b" while worker 0 holds "a" in a pool of two. *)
Lemma find_file_lock_never_null_witness :
  exists s i fls,
    run [(0%nat, Acquire "a")] (start 2) = Some s
    /\ find_file_lock "b" (file_locks s) = Some (i, fls) /\ i = 1%nat.
Proof.
  destruct (find_file_lock_never_null 2 [(0%nat, Acquire "a")] _ 1%nat "b"
              ltac:(unfold INT_MAX; lia) eq_refl eq_refl)
    as (i & fls & old & new & H & _).
  eexists _, i, fls. split; [reflexivity|]. split; [exact H|].
  vm_compute in H. by injection H as <- _.
Defined.

(** The scan takes the first free entry even when a later entry holds the
    path: after [split_sched] workers 0 and 1 hold different entries, and
    so different locks, for "b". *)
Lemma same_path_two_entries :
  exists s,
    run split_sched (start 2) = Some s
    /\ holds s = [Some 0%nat; Some 1%nat]
    /\ file_locks s = [mkFileLock 0 (Some "b") 1; mkFileLock 1 (Some "b") 1].
Proof. eexists. repeat split; reflexivity. Qed.

End RegistryFacts.

(** ** Requests and handlers *)

Module HttpFacts.
Import Http.

(** *** [Content-Length] *)

Lemma str_to_long_not_digits (s : string) : forall res,
  all_chars is_digit s = false -> str_to_long_from res s = -1.
Proof.
  induction s as [|c s IH]; intros res H; simpl in *; [discriminate|].
  unfold is_digit in H at 1. destruct (digit_of c) as [d|]; [|reflexivity].
  simpl in H. by apply IH.
Qed.

Lemma header_value_ok (hs : list Header) (k v : string) :
  forallb header_ok hs = true -> header_value hs k = Some v ->
  (1 <= String.length v)%nat.
Proof.
  induction hs as [|h hs IH]; intros Hok Hv; simpl in *; [discriminate|].
  apply andb_true_iff in Hok as [Hh Hok].
  destruct (strcasecmp_eq (key h) k).
  - injection Hv as <-. unfold header_ok in Hh.
    apply andb_true_iff in Hh as [Hh _]. apply andb_true_iff in Hh as [_ Hh].
    apply andb_true_iff in Hh as [Hh _]. by apply Nat.leb_le.
  - by apply IH.
Qed.

(** A header that is missing, or present and not a decimal number, makes
    [req_get_content_length] negative. *)
Lemma content_length_negative (req : Request) :
  parsed req ->
  req_get_header_value req "Content-Length" = None
  \/ (exists v, req_get_header_value req "Content-Length" = Some v /\ decimal v = false) ->
  req_get_content_length req < 0.
Proof.
  intros Hp [Hnone|(v & Hv & Hd)]; unfold req_get_content_length.
  - rewrite Hnone. lia.
  - rewrite Hv. unfold decimal in Hd.
    pose proof (header_value_ok _ _ _ Hp Hv) as Hlen.
    apply Nat.leb_le in Hlen. rewrite Hlen in Hd. simpl in Hd.
    unfold _str_to_long. rewrite (str_to_long_not_digits v 0 Hd). simpl. lia.
Qed.

(** C10. A PUT whose [Content-Length] header is missing or is not a decimal
    number is answered 400 by [handle_put] without a single call: nothing
    is opened, created, truncated or written, so the target file is as it
    was. *)
Theorem put_bad_length_no_io (req : Request) (sys : Sys) (fls : list Registry.file_lock) :
  parsed req ->
  req_get_header_value req "Content-Length" = None
  \/ (exists v, req_get_header_value req "Content-Length" = Some v /\ decimal v = false) ->
  handle_put req = Ret (RESPONSE_UNSENT 400)
  /\ run_prog sys (handle_put req) fls = Done (RESPONSE_UNSENT 400) fls [].
Proof.
  intros Hp Hbad. pose proof (content_length_negative req Hp Hbad) as Hneg.
  assert (handle_put req = Ret (RESPONSE_UNSENT 400)) as ->.
  { unfold handle_put. apply Z.ltb_lt in Hneg. by rewrite Hneg. }
  done.
Qed.

(** A PUT with the header [Content-Length: 12a], after a header whose key
    holds a backslash. *)
Lemma put_bad_length_no_io_witness :
  run_prog (mkSysAnswers (fun _ _ => inr 3) (fun _ _ => 3) (fun _ => inl EIO)
              (fun _ _ n => n) (fun _ _ n => n))
    (handle_put (mkRequest 4 PUT "a" "1" "1"
                   [mkHeader "Request-Id" "1"; mkHeader "Re\q" "x";
                    mkHeader "content-length" "12a"] ""))
    (Registry.init_file_locks 2)
  = Done (RESPONSE_UNSENT 400) (Registry.init_file_locks 2) [].
Proof.
  apply put_bad_length_no_io.
  - reflexivity.
  - right. exists "12a". split; reflexivity.
Defined.

(** *** Running handlers *)

Lemma run_from_bind sys {R S} (p : prog R) (f : R -> prog S) : forall fls tr,
  run_from sys (bind p f) fls tr
  = match run_from sys p fls tr with
    | Done r fls' tr' => run_from sys (f r) fls' tr'
    | Fault tr' => Fault tr'
    end.
Proof.
  induction p as [r| |X c k IH]; intros fls tr; simpl; try reflexivity.
  destruct (exec sys c fls) as [[x fls']|]; [apply IH|reflexivity].
Qed.

Lemma run_from_trace sys {R} (p : prog R) : forall fls tr,
  run_from sys p fls tr
  = match run_from sys p fls [] with
    | Done r fls' tr' => Done r fls' (tr ++ tr')
    | Fault tr' => Fault (tr ++ tr')
    end.
Proof.
  induction p as [r| |X c k IH]; intros fls tr; simpl.
  - by rewrite app_nil_r.
  - by rewrite app_nil_r.
  - destruct (exec sys c fls) as [[x fls']|]; [|reflexivity].
    rewrite (IH x fls' (tr ++ [Called c])), (IH x fls' [Called c]).
    destruct (run_from sys (k x) fls' []); by rewrite <- app_assoc.
Qed.

(** *** GET *)

(** The status [handle_get] gives to a failed [open] and to a failed
    [fstat]. *)
Lemma handle_get_outcome (req : Request) (sys : Sys) (fls : list Registry.file_lock) :
  let URI := req_get_uri req in
  let sock := req_get_sockfd req in
  run_prog sys (handle_get req) fls
  = match sys_open sys URI O_RDONLY with
    | inl e =>
        Done (RESPONSE_UNSENT
                match e with
                | EACCES | ENAMETOOLONG | EPERM | EROFS => 403
                | ENOENT => 404
                | _ => 500
                end) fls [Called (Sys_open URI O_RDONLY)]
    | inr fd =>
        match sys_fstat sys fd with
        | inl e =>
            Done (RESPONSE_UNSENT
                    match e with
                    | EACCES | EBADF | EFAULT => 403
                    | ENOENT => 404
                    | _ => 500
                    end) fls
              [Called (Sys_open URI O_RDONLY); Called (Sys_fstat fd); Called (Sys_close fd)]
        | inr st =>
            if st_isdir st then
              Done (RESPONSE_UNSENT 403) fls
                [Called (Sys_open URI O_RDONLY); Called (Sys_fstat fd); Called (Sys_close fd)]
            else
              Done (RESPONSE_SENT 200) fls
                [Called (Sys_open URI O_RDONLY); Called (Sys_fstat fd);
                 Called (Write_n_bytes sock ("HTTP/1.1 200 OK" +:+ CRLF) 17);
                 Called (Write_n_bytes sock
                           ("Content-Length: " +:+ fmt_lu (st_size st) +:+ CRLF)
                           (strlen ("Content-Length: " +:+ fmt_lu (st_size st) +:+ CRLF)));
                 Called (Write_n_bytes sock CRLF 2);
                 Called (Pass_n_bytes fd sock (st_size st));
                 Called (Sys_close fd)]
        end
    end.
Proof.
  unfold run_prog, handle_get. simpl.
  destruct (sys_open sys (req_get_uri req) O_RDONLY) as [e|fd]; simpl.
  - by destruct e.
  - destruct (sys_fstat sys fd) as [e|st]; simpl.
    + by destruct e.
    + by destruct (st_isdir st).
Qed.

Lemma handle_get_runs (req : Request) (sys : Sys) :
  exists r tr,
    (forall fls tr0, run_from sys (handle_get req) fls tr0 = Done r fls (tr0 ++ tr))
    /\ forallb is_file_call tr = true
    /\ (status r = 200 \/ status r = 403 \/ status r = 404 \/ status r = 500).
Proof.
  assert (exists r tr, (forall fls, run_prog sys (handle_get req) fls = Done r fls tr)
            /\ forallb is_file_call tr = true
            /\ (status r = 200 \/ status r = 403 \/ status r = 404 \/ status r = 500))
    as (r & tr & Hrun & Hfc & Hst).
  { pose proof (handle_get_outcome req sys) as H. simpl in H.
    destruct (sys_open sys (req_get_uri req) O_RDONLY) as [e|fd].
    - eexists _, _. split; [exact H|]. split; [done|]. destruct e; simpl; auto.
    - destruct (sys_fstat sys fd) as [e|st].
      + eexists _, _. split; [exact H|]. split; [done|]. destruct e; simpl; auto.
      + destruct (st_isdir st); eexists _, _; (split; [exact H|]); (split; [done|]);
          simpl; auto. }
  exists r, tr. split; [|done]. intros fls tr0.
  rewrite run_from_trace. unfold run_prog in Hrun. by rewrite Hrun.
Qed.

(** *** PUT *)

Lemma digit_of_range c d : digit_of c = Some d -> 0 <= d <= 9.
Proof.
  unfold digit_of.
  destruct (Nat.leb_spec 48 (nat_of_ascii c)), (Nat.leb_spec (nat_of_ascii c) 57);
    simpl; intros [= <-]; lia.
Qed.

Lemma decimal_value_from_ge (s : string) : forall acc,
  0 <= acc -> acc <= decimal_value_from acc s.
Proof.
  induction s as [|c s IH]; intros acc Hacc; simpl; [lia|].
  assert (0 <= default 0 (digit_of c)) as Hd.
  { destruct (digit_of c) as [d|] eqn:E; simpl; [|lia]. apply digit_of_range in E. lia. }
  specialize (IH (acc * 10 + default 0 (digit_of c)) ltac:(lia)). lia.
Qed.

(** On digits, and as long as the value fits [ssize_t], [_str_to_long]
    reads the decimal value. *)
Lemma str_to_long_from_decimal (s : string) : forall acc,
  0 <= acc -> all_chars is_digit s = true ->
  decimal_value_from acc s <= SSIZE_MAX ->
  str_to_long_from acc s = decimal_value_from acc s.
Proof.
  induction s as [|c s IH]; intros acc Hacc Hd Hmax; simpl in *; [done|].
  apply andb_true_iff in Hd as [Hc Hd]. unfold is_digit in Hc.
  destruct (digit_of c) as [d|] eqn:E; [|discriminate]. simpl in *.
  pose proof (digit_of_range _ _ E) as Hr.
  pose proof (decimal_value_from_ge s (acc * 10 + d) ltac:(lia)) as Hge.
  rewrite (s64_id (acc * 10)) by (unfold SSIZE_MAX in *; lia).
  rewrite (s64_id (acc * 10 + d)) by (unfold SSIZE_MAX in *; lia).
  apply IH; [lia|done|done].
Qed.

Lemma content_length_decimal (req : Request) (v : string) :
  req_get_header_value req "Content-Length" = Some v ->
  decimal v = true -> decimal_value v <= SSIZE_MAX ->
  req_get_content_length req = decimal_value v /\ 0 <= decimal_value v.
Proof.
  intros Hv Hd Hmax. unfold req_get_content_length. rewrite Hv.
  unfold decimal in Hd. apply andb_true_iff in Hd as [_ Hd].
  unfold _str_to_long, decimal_value in *.
  rewrite (str_to_long_from_decimal v 0 ltac:(lia) Hd Hmax).
  pose proof (decimal_value_from_ge v 0 ltac:(lia)) as Hge.
  split; [|lia]. destruct (Z.ltb_spec (decimal_value_from 0 v) 0); [lia|done].
Qed.

Lemma put_body_runs (req : Request) (sys : Sys) (cl fd res : Z) :
  exists tr,
    (forall fls tr0,
       run_from sys (put_body req cl fd res) fls tr0
       = Done (RESPONSE_UNSENT res) fls (tr0 ++ tr))
    /\ forallb is_file_call tr = true.
Proof.
  unfold put_body.
  destruct (cl =? 0) eqn:E0.
  { exists [Called (Sys_close fd)]. split; [|done]. intros; reflexivity. }
  destruct (0 <? req_get_body_size req).
  - destruct (s64 (0 + sys_write_n_bytes sys fd (req_get_body req) (req_get_body_size req))
              =? cl) eqn:E.
    + eexists [_; _]. split; [intros; simpl; rewrite E; simpl; by rewrite <- app_assoc|].
      reflexivity.
    + eexists [_; _; _].
      split; [intros; simpl; rewrite E; simpl; by rewrite <- !app_assoc|]. reflexivity.
  - eexists [_; _].
    split; [intros; cbn -[Z.eqb]; rewrite (Z.eqb_sym 0 cl), E0; simpl;
            by rewrite <- !app_assoc|].
    reflexivity.
Qed.

(** The status of a PUT whose [Content-Length] was read as [cl >= 0]:
    200 if the file could be opened, 201 after [creat(URI, 0666)] if it did
    not exist, 403 and 500 for the other failures. *)
Lemma handle_put_outcome (req : Request) (sys : Sys) :
  0 <= req_get_content_length req ->
  let URI := req_get_uri req in
  exists tr,
    (forall fls,
       run_prog sys (handle_put req) fls
       = Done (RESPONSE_UNSENT
                 match sys_open sys URI O_WRONLY_O_TRUNC with
                 | inr _ => 200
                 | inl ENOENT => 201
                 | inl (EISDIR | EACCES | ENAMETOOLONG | EPERM | EROFS) => 403
                 | inl _ => 500
                 end) fls (Called (Sys_open URI O_WRONLY_O_TRUNC) :: tr))
    /\ forallb is_file_call tr = true
    /\ (sys_open sys URI O_WRONLY_O_TRUNC = inl ENOENT ->
        exists tr', tr = Called (Sys_creat URI 438) :: tr')
    /\ (forall e, sys_open sys URI O_WRONLY_O_TRUNC = inl e -> e <> ENOENT -> tr = []).
Proof.
  intros Hcl URI. unfold run_prog, handle_put.
  apply Z.ltb_ge in Hcl. rewrite Hcl. simpl. fold URI.
  destruct (sys_open sys URI O_WRONLY_O_TRUNC) as [e|fd] eqn:Ho.
  - destruct e;
      try (exists []; split; [intros fls; reflexivity|];
           split; [reflexivity|]; split; [discriminate|done]).
    simpl. destruct (put_body_runs req sys (req_get_content_length req)
                       (sys_creat sys URI 438) 201) as (tr & Hrun & Hfc).
    exists (Called (Sys_creat URI 438) :: tr). split; [|split; [done|split]].
    + intros fls. by rewrite Hrun.
    + intros _. by exists tr.
    + intros e [= <-]. done.
  - destruct (put_body_runs req sys (req_get_content_length req) fd 200)
      as (tr & Hrun & Hfc).
    exists tr. split; [|split; [done|split]].
    + intros fls. simpl. by rewrite Hrun.
    + discriminate.
    + discriminate.
Qed.

Lemma handle_put_runs (req : Request) (sys : Sys) :
  exists r tr,
    (forall fls tr0, run_from sys (handle_put req) fls tr0 = Done r fls (tr0 ++ tr))
    /\ forallb is_file_call tr = true
    /\ (status r = 200 \/ status r = 201 \/ status r = 400 \/ status r = 403
        \/ status r = 500).
Proof.
  destruct (Z.ltb_spec (req_get_content_length req) 0) as [Hneg|Hpos].
  - exists (RESPONSE_UNSENT 400), []. split; [|split; [done|simpl; auto]].
    intros fls tr0. unfold handle_put. apply Z.ltb_lt in Hneg. rewrite Hneg.
    simpl. by rewrite app_nil_r.
  - destruct (handle_put_outcome req sys Hpos) as (tr & Hrun & Hfc & _).
    eexists _, _. split; [|split].
    + intros fls tr0. rewrite run_from_trace. unfold run_prog in Hrun. by rewrite Hrun.
    + simpl. exact Hfc.
    + simpl. destruct (sys_open sys (req_get_uri req) O_WRONLY_O_TRUNC) as [[]|]; auto 6.
Qed.

(** *** The dispatcher *)

Lemma run_from_call sys {X R} (c : call X) (f : X -> prog R) fls tr :
  run_from sys (trigger c ≫= f) fls tr
  = match exec sys c fls with
    | Some (x, fls') => run_from sys (f x) fls' (tr ++ [Called c])
    | None => Fault (tr ++ [Called c])
    end.
Proof. reflexivity. Qed.

Lemma run_from_mbind sys {R S} (p : prog R) (f : R -> prog S) fls tr :
  run_from sys (p ≫= f) fls tr
  = match run_from sys p fls tr with
    | Done r fls' tr' => run_from sys (f r) fls' tr'
    | Fault tr' => Fault tr'
    end.
Proof. apply run_from_bind. Qed.

Lemma connection_get_trace (sys : Sys) (req : Request) (id : string)
    (fls fls1 : list Registry.file_lock) (i : nat) :
  req_get_header_value req "Request-Id" = Some id ->
  req_get_method req = GET ->
  Registry.find_file_lock (req_get_uri req) fls = Some (i, fls1) ->
  exists r tr fls2,
    Registry.release_file_lock i fls1 = Some fls2
    /\ (forall tr0, run_from sys (handle_get req) fls1 tr0 = Done r fls1 (tr0 ++ tr))
    /\ forallb is_file_call tr = true
    /\ run_prog sys (handle_connection (Some req)) fls
       = Done r fls2
           ([Called (Find_file_lock (req_get_uri req)); Called (Reader_lock i)] ++ tr
            ++ [Called (Fprintf_stderr (audit_line "GET" (req_get_uri req) (status r) id));
                Called (Reader_unlock i); Called (Release_file_lock i)]).
Proof.
  intros Hid Hm Hfind.
  destruct (RegistryFacts.find_entry_valid _ _ _ _ Hfind) as (fl & _ & _ & [fls2 Hrel]).
  destruct (handle_get_runs req sys) as (r & tr & Hrun & Hfc & _).
  exists r, tr, fls2. split; [done|]. split; [intros; apply Hrun|]. split; [done|].
  unfold run_prog, handle_connection. rewrite Hid, Hm.
  rewrite run_from_call. simpl exec. rewrite Hfind. cbv beta iota.
  rewrite run_from_call. simpl exec. cbv beta iota.
  rewrite run_from_mbind, Hrun.
  unfold write_audit_log. rewrite run_from_call. simpl exec. cbv beta iota.
  rewrite run_from_call. simpl exec. cbv beta iota.
  rewrite run_from_call. simpl exec. rewrite Hrel. cbv beta iota.
  simpl. by rewrite <- !app_assoc.
Qed.

Lemma connection_put_trace (sys : Sys) (req : Request) (id : string)
    (fls fls1 : list Registry.file_lock) (i : nat) :
  req_get_header_value req "Request-Id" = Some id ->
  req_get_method req = PUT ->
  Registry.find_file_lock (req_get_uri req) fls = Some (i, fls1) ->
  exists r tr fls2,
    Registry.release_file_lock i fls1 = Some fls2
    /\ (forall tr0, run_from sys (handle_put req) fls1 tr0 = Done r fls1 (tr0 ++ tr))
    /\ forallb is_file_call tr = true
    /\ run_prog sys (handle_connection (Some req)) fls
       = Done r fls2
           ([Called (Find_file_lock (req_get_uri req)); Called (Writer_lock i)] ++ tr
            ++ [Called (Fprintf_stderr (audit_line "PUT" (req_get_uri req) (status r) id));
                Called (Writer_unlock i); Called (Release_file_lock i)]).
Proof.
  intros Hid Hm Hfind.
  destruct (RegistryFacts.find_entry_valid _ _ _ _ Hfind) as (fl & _ & _ & [fls2 Hrel]).
  destruct (handle_put_runs req sys) as (r & tr & Hrun & Hfc & _).
  exists r, tr, fls2. split; [done|]. split; [intros; apply Hrun|]. split; [done|].
  unfold run_prog, handle_connection. rewrite Hid, Hm.
  rewrite run_from_call. simpl exec. rewrite Hfind. cbv beta iota.
  rewrite run_from_call. simpl exec. cbv beta iota.
  rewrite run_from_mbind, Hrun.
  unfold write_audit_log. rewrite run_from_call. simpl exec. cbv beta iota.
  rewrite run_from_call. simpl exec. cbv beta iota.
  rewrite run_from_call. simpl exec. rewrite Hrel. cbv beta iota.
  simpl. by rewrite <- !app_assoc.
Qed.

Lemma file_call_not_audit tr : forallb is_file_call tr = true -> count is_audit tr = 0.
Proof.
  induction tr as [|e tr IH]; simpl; [done|]. intros H.
  apply andb_true_iff in H as [He H]. rewrite (IH H).
  destruct e as [X c]. by destruct c.
Qed.

(** For a GET or PUT that [handle_connection] runs to the end, the trace
    is: [find_file_lock], the lock, the calls of the handler, one line
    [METHOD,/URI,STATUS,REQUEST_ID] on stderr with the status the handler
    returned and the value of the [Request-Id] header, the unlock, and
    [release_file_lock].  No other line is written. *)
Lemma audit_inside_lock (sys : Sys) (req : Request) (id : string)
    (fls fls1 : list Registry.file_lock) (i : nat) :
  req_get_header_value req "Request-Id" = Some id ->
  req_get_method req = GET \/ req_get_method req = PUT ->
  Registry.find_file_lock (req_get_uri req) fls = Some (i, fls1) ->
  exists r fls2 handler_calls,
    let op := match req_get_method req with GET => "GET" | _ => "PUT" end in
    let lock := match req_get_method req with GET => Called (Reader_lock i)
                                         | _ => Called (Writer_lock i) end in
    let unlock := match req_get_method req with GET => Called (Reader_unlock i)
                                           | _ => Called (Writer_unlock i) end in
    run_prog sys (handle_connection (Some req)) fls
    = Done r fls2
        ([Called (Find_file_lock (req_get_uri req)); lock] ++ handler_calls
         ++ [Called (Fprintf_stderr (audit_line op (req_get_uri req) (status r) id));
             unlock; Called (Release_file_lock i)])
    /\ forallb is_file_call handler_calls = true
    /\ count is_audit
         ([Called (Find_file_lock (req_get_uri req)); lock] ++ handler_calls
          ++ [Called (Fprintf_stderr (audit_line op (req_get_uri req) (status r) id));
              unlock; Called (Release_file_lock i)]) = 1.
Proof.
  intros Hid [Hm|Hm] Hfind.
  - destruct (connection_get_trace sys req id fls fls1 i Hid Hm Hfind)
      as (r & tr & fls2 & _ & _ & Hfc & Hrun).
    exists r, fls2, tr. rewrite Hm. simpl. split; [exact Hrun|]. split; [done|].
    clear Hrun. rewrite <- (file_call_not_audit tr Hfc) at 2.
    induction tr as [|e tr IH]; simpl in *; [done|].
    apply andb_true_iff in Hfc as [He Hfc].
    specialize (IH Hfc). destruct e as [X c]. destruct c; simpl in *; try done; lia.
  - destruct (connection_put_trace sys req id fls fls1 i Hid Hm Hfind)
      as (r & tr & fls2 & _ & _ & Hfc & Hrun).
    exists r, fls2, tr. rewrite Hm. simpl. split; [exact Hrun|]. split; [done|].
    clear Hrun. rewrite <- (file_call_not_audit tr Hfc) at 2.
    induction tr as [|e tr IH]; simpl in *; [done|].
    apply andb_true_iff in Hfc as [He Hfc].
    specialize (IH Hfc). destruct e as [X c]. destruct c; simpl in *; try done; lia.
Qed.

(** What [serve] adds to [handle_connection]: the canned response if the
    handler has not answered, and nothing but [req_close] if it has. *)
Lemma serve_sent (sys : Sys) (conn : Z) (parse : option Request)
    (fls fls' : list Registry.file_lock) (r : Response) (tr : list event) :
  run_prog sys (handle_connection parse) fls = Done r fls' tr ->
  responded r = true ->
  run_prog sys (serve conn parse) fls = Done r fls' (tr ++ [Called (Req_close conn)]).
Proof.
  intros Hrun Hsent. unfold run_prog, serve in *.
  rewrite run_from_mbind, Hrun, Hsent. reflexivity.
Qed.

Lemma serve_unsent (sys : Sys) (conn : Z) (parse : option Request)
    (fls fls' : list Registry.file_lock) (r : Response) (tr : list event) :
  run_prog sys (handle_connection parse) fls = Done r fls' tr ->
  responded r = false ->
  exists line body,
    canned (status r) = (line, body)
    /\ run_prog sys (serve conn parse) fls
       = Done r fls'
           (tr ++ [Called (Write_n_bytes conn "HTTP/1.1 " 9);
                   Called (Write_n_bytes conn line (strlen line));
                   Called (Write_n_bytes conn CRLF 2);
                   Called (Write_n_bytes conn "Content-Length: " 16);
                   Called (Write_n_bytes conn (fmt_lu (strlen body) +:+ CRLF)
                             (strlen (fmt_lu (strlen body) +:+ CRLF)));
                   Called (Write_n_bytes conn CRLF 2);
                   Called (Write_n_bytes conn body (strlen body));
                   Called (Req_close conn)]).
Proof.
  intros Hrun Hsent. unfold run_prog, serve in *.
  destruct (canned (status r)) as [line body] eqn:Ec. exists line, body. split; [done|].
  rewrite run_from_mbind, Hrun, Hsent. unfold respond. rewrite Ec.
  simpl. by rewrite <- !app_assoc.
Qed.

(** C6, as amended.  [handle_get] answers a failed [open] with 403 for
    EACCES, ENAMETOOLONG, EPERM and EROFS, 404 for ENOENT and 500 otherwise;
    a failed [fstat] with 403 for EACCES, EBADF and EFAULT, 404 for ENOENT and
    500 otherwise; a directory with 403; and in every other case writes
    [HTTP/1.1 200 OK], a [Content-Length] equal to [st_size] and the file
    itself to the socket and returns 200 as sent.  In that last case the
    dispatcher writes nothing to the socket after the handler: the calls of
    [serve] are those of [handle_connection] and [req_close]. *)
Theorem get_status_and_streaming (req : Request) (sys : Sys) (id : string)
    (fls fls1 : list Registry.file_lock) (i : nat) :
  let URI := req_get_uri req in
  let sock := req_get_sockfd req in
  req_get_method req = GET ->
  req_get_header_value req "Request-Id" = Some id ->
  Registry.find_file_lock URI fls = Some (i, fls1) ->
  run_prog sys (handle_get req) fls1
  = match sys_open sys URI O_RDONLY with
    | inl e =>
        Done (RESPONSE_UNSENT
                match e with
                | EACCES | ENAMETOOLONG | EPERM | EROFS => 403
                | ENOENT => 404
                | _ => 500
                end) fls1 [Called (Sys_open URI O_RDONLY)]
    | inr fd =>
        match sys_fstat sys fd with
        | inl e =>
            Done (RESPONSE_UNSENT
                    match e with
                    | EACCES | EBADF | EFAULT => 403
                    | ENOENT => 404
                    | _ => 500
                    end) fls1
              [Called (Sys_open URI O_RDONLY); Called (Sys_fstat fd); Called (Sys_close fd)]
        | inr st =>
            if st_isdir st then
              Done (RESPONSE_UNSENT 403) fls1
                [Called (Sys_open URI O_RDONLY); Called (Sys_fstat fd); Called (Sys_close fd)]
            else
              Done (RESPONSE_SENT 200) fls1
                [Called (Sys_open URI O_RDONLY); Called (Sys_fstat fd);
                 Called (Write_n_bytes sock ("HTTP/1.1 200 OK" +:+ CRLF) 17);
                 Called (Write_n_bytes sock
                           ("Content-Length: " +:+ fmt_lu (st_size st) +:+ CRLF)
                           (strlen ("Content-Length: " +:+ fmt_lu (st_size st) +:+ CRLF)));
                 Called (Write_n_bytes sock CRLF 2);
                 Called (Pass_n_bytes fd sock (st_size st));
                 Called (Sys_close fd)]
        end
    end
  /\ forall fd st,
       sys_open sys URI O_RDONLY = inr fd -> sys_fstat sys fd = inr st ->
       st_isdir st = false ->
       exists fls2,
         run_prog sys (serve sock (Some req)) fls
         = Done (RESPONSE_SENT 200) fls2
             [Called (Find_file_lock URI); Called (Reader_lock i);
              Called (Sys_open URI O_RDONLY); Called (Sys_fstat fd);
              Called (Write_n_bytes sock ("HTTP/1.1 200 OK" +:+ CRLF) 17);
              Called (Write_n_bytes sock
                        ("Content-Length: " +:+ fmt_lu (st_size st) +:+ CRLF)
                        (strlen ("Content-Length: " +:+ fmt_lu (st_size st) +:+ CRLF)));
              Called (Write_n_bytes sock CRLF 2);
              Called (Pass_n_bytes fd sock (st_size st));
              Called (Sys_close fd);
              Called (Fprintf_stderr (audit_line "GET" URI 200 id));
              Called (Reader_unlock i); Called (Release_file_lock i);
              Called (Req_close sock)].
Proof.
  intros URI sock Hm Hid Hfind. split; [apply handle_get_outcome|].
  intros fd st Hopen Hstat Hdir.
  destruct (connection_get_trace sys req id fls fls1 i Hid Hm Hfind)
    as (r & tr & fls2 & _ & Hget & _ & Hrun).
  pose proof (handle_get_outcome req sys fls1) as Hout. simpl in Hout.
  fold URI sock in Hout. rewrite Hopen, Hstat, Hdir in Hout.
  unfold run_prog in Hout. rewrite (Hget []) in Hout. injection Hout as -> ->.
  exists fls2. by rewrite (serve_sent sys sock _ _ _ _ _ Hrun eq_refl).
Qed.

(** A GET of the five-byte file "a" from a server with two workers. *)
Lemma get_status_and_streaming_witness :
  exists fls2 tr,
    run_prog (mkSysAnswers (fun _ _ => inr 3) (fun _ _ => 3)
                (fun _ => inr (mkStat false 5)) (fun _ _ n => n) (fun _ _ n => n))
      (serve 4 (Some (mkRequest 4 GET "a" "1" "1" [mkHeader "Request-Id" "3"] "")))
      (Registry.init_file_locks 2)
    = Done (RESPONSE_SENT 200) fls2 tr
    /\ count (is_socket_write 4) tr = 4
    /\ count is_audit tr = 1.
Proof.
  destruct (get_status_and_streaming
              (mkRequest 4 GET "a" "1" "1" [mkHeader "Request-Id" "3"] "")
              (mkSysAnswers (fun _ _ => inr 3) (fun _ _ => 3)
                 (fun _ => inr (mkStat false 5)) (fun _ _ n => n) (fun _ _ n => n))
              "3" (Registry.init_file_locks 2) _ 0%nat eq_refl eq_refl eq_refl)
    as [_ H].
  destruct (H 3 (mkStat false 5) eq_refl eq_refl eq_refl) as [fls2 Hrun].
  eexists fls2, _. split; [exact Hrun|]. split; reflexivity.
Defined.

(** C6 as stated fails where [fstat] does: the file "a" opens, nothing says
    it is a directory, and the answer is 500, left to the dispatcher. *)
Lemma get_fstat_failure :
  let sys := mkSysAnswers (fun _ _ => inr 3) (fun _ _ => 3) (fun _ => inl EIO)
               (fun _ _ n => n) (fun _ _ n => n) in
  let req := mkRequest 4 GET "a" "1" "1" [mkHeader "Request-Id" "3"] "" in
  sys_open sys (req_get_uri req) O_RDONLY = inr 3
  /\ (forall st, sys_fstat sys 3 = inr st -> st_isdir st = false)
  /\ run_prog sys (handle_get req) []
     = Done (RESPONSE_UNSENT 500) []
         [Called (Sys_open "a" O_RDONLY); Called (Sys_fstat 3); Called (Sys_close 3)]
  /\ ~ (exists fls tr, run_prog sys (handle_get req) [] = Done (RESPONSE_SENT 200) fls tr).
Proof.
  split; [reflexivity|]. split; [discriminate|]. split; [reflexivity|].
  intros (fls & tr & H). discriminate.
Qed.

(** The part of C5 that holds: with a [Content-Length] that is a decimal
    number within [ssize_t], the status of a PUT is that of the [open]. *)
Lemma put_status_in_range (req : Request) (sys : Sys) (v : string) :
  req_get_header_value req "Content-Length" = Some v ->
  decimal v = true -> decimal_value v <= SSIZE_MAX ->
  let URI := req_get_uri req in
  exists tr,
    (forall fls,
       run_prog sys (handle_put req) fls
       = Done (RESPONSE_UNSENT
                 match sys_open sys URI O_WRONLY_O_TRUNC with
                 | inr _ => 200
                 | inl ENOENT => 201
                 | inl (EISDIR | EACCES | ENAMETOOLONG | EPERM | EROFS) => 403
                 | inl _ => 500
                 end) fls (Called (Sys_open URI O_WRONLY_O_TRUNC) :: tr))
    /\ forallb is_file_call tr = true
    /\ (sys_open sys URI O_WRONLY_O_TRUNC = inl ENOENT ->
        exists tr', tr = Called (Sys_creat URI 438) :: tr')
    /\ (forall e, sys_open sys URI O_WRONLY_O_TRUNC = inl e -> e <> ENOENT -> tr = []).
Proof.
  intros Hv Hd Hmax. destruct (content_length_decimal req v Hv Hd Hmax) as [E Hpos].
  apply handle_put_outcome. by rewrite E.
Qed.

(** C5, at the failing request.  [Content-Length: 9223372036854775808] is a
    non-negative decimal integer; [_str_to_long] overflows [ssize_t] on its
    last digit and returns a negative number, [req_get_content_length]
    turns it into -2, and [handle_put] answers 400 without opening the
    file, whatever the [open] would have returned. *)
Theorem put_content_length_overflow (sys : Sys) (fls : list Registry.file_lock) :
  let v := "9223372036854775808" in
  let req := mkRequest 4 PUT "a" "1" "1"
               [mkHeader "Request-Id" "2"; mkHeader "Content-Length" v] "" in
  forallb header_ok (headers req) = true
  /\ decimal v = true
  /\ decimal_value v = 9223372036854775808
  /\ _str_to_long v = -9223372036854775808
  /\ req_get_content_length req = -2
  /\ run_prog sys (handle_put req) fls = Done (RESPONSE_UNSENT 400) fls [].
Proof. repeat split; reflexivity. Qed.

(** *** The HTTP version *)

(** The dispatcher of [asgn2] answers 505 to every GET without body and
    every PUT whose version is not 1.1. *)
Lemma validate_request_505 (req : Request) :
  req_get_method req = PUT
  \/ (req_get_method req = GET /\ req_get_body_size req = 0) ->
  req_get_http_ver_major req <> "1"%char \/ req_get_http_ver_minor req <> "1"%char ->
  validate_request req = 505.
Proof.
  intros Hm Hv. unfold validate_request.
  assert (negb (Ascii.eqb (req_get_http_ver_major req) "1")
          || negb (Ascii.eqb (req_get_http_ver_minor req) "1") = true) as ->.
  { destruct Hv as [Hv|Hv]; apply Ascii.eqb_neq in Hv; rewrite Hv; simpl; [done|].
    apply orb_true_r. }
  destruct Hm as [->|[-> ->]]; reflexivity.
Qed.

(** [handle_connection] of the threaded server never reads the version. *)
Lemma version_ignored (fd : Z) (m : Method) (URI : string) (major minor : ascii)
    (hs : list Header) (b : string) :
  handle_connection (Some (mkRequest fd m URI major minor hs b))
  = handle_connection (Some (mkRequest fd m URI "1" "1" hs b)).
Proof. reflexivity. Qed.

(** It never answers 505. *)
Lemma never_505 (sys : Sys) (parse : option Request) (fls fls' : list Registry.file_lock)
    (r : Response) (tr : list event) :
  run_prog sys (handle_connection parse) fls = Done r fls' tr -> status r <> 505.
Proof.
  destruct parse as [req|]; [|by intros [= <- _ _]].
  unfold run_prog, handle_connection.
  destruct (req_get_header_value req "Request-Id") as [id|] eqn:Hid;
    [|by intros [= <- _ _]].
  destruct (req_get_method req) eqn:Hm; [| |by intros [= <- _ _]].
  - rewrite run_from_call. simpl exec.
    destruct (Registry.find_file_lock (req_get_uri req) fls) as [[i fls1]|] eqn:Hfind;
      cbv beta iota; [|discriminate].
    destruct (connection_get_trace sys req id fls fls1 i Hid Hm Hfind)
      as (r' & tr' & fls2 & _ & Hget & _ & Hrun).
    destruct (handle_get_runs req sys) as (r0 & tr0 & Hget0 & _ & Hst).
    pose proof (Hget []) as H1. rewrite (Hget0 fls1 []) in H1. injection H1 as -> _.
    unfold run_prog, handle_connection in Hrun. rewrite Hid, Hm in Hrun.
    rewrite run_from_call in Hrun. simpl exec in Hrun. rewrite Hfind in Hrun.
    cbv beta iota in Hrun. rewrite Hrun. intros [= <- _ _]. lia.
  - rewrite run_from_call. simpl exec.
    destruct (Registry.find_file_lock (req_get_uri req) fls) as [[i fls1]|] eqn:Hfind;
      cbv beta iota; [|discriminate].
    destruct (connection_put_trace sys req id fls fls1 i Hid Hm Hfind)
      as (r' & tr' & fls2 & _ & Hput & _ & Hrun).
    destruct (handle_put_runs req sys) as (r0 & tr0 & Hput0 & _ & Hst).
    pose proof (Hput []) as H1. rewrite (Hput0 fls1 []) in H1. injection H1 as -> _.
    unfold run_prog, handle_connection in Hrun. rewrite Hid, Hm in Hrun.
    rewrite run_from_call in Hrun. simpl exec in Hrun. rewrite Hfind in Hrun.
    cbv beta iota in Hrun. rewrite Hrun. intros [= <- _ _]. lia.
Qed.

(** C3, at the failing request [GET /a HTTP/0.9] with [Request-Id: 5],
    served by a server of four workers with no file "a".  The dispatcher of
    [asgn2] rejects the request with 505.  The threaded server runs the GET:
    it takes the lock, opens "a", logs and answers 404, exactly as it does
    for HTTP/1.1. *)
Theorem version_not_checked :
  let req := mkRequest 4 GET "a" "0" "9" [mkHeader "Request-Id" "5"] "" in
  let sys := mkSysAnswers (fun _ _ => inl ENOENT) (fun _ _ => 3) (fun _ => inl EBADF)
               (fun _ _ n => n) (fun _ _ n => n) in
  validate_request req = 505
  /\ run_prog sys (serve 4 (Some req)) (Registry.init_file_locks 4)
     = Done (RESPONSE_UNSENT 404) (Registry.init_file_locks 4)
         [Called (Find_file_lock "a"); Called (Reader_lock 0);
          Called (Sys_open "a" O_RDONLY);
          Called (Fprintf_stderr ("GET,/a,404,5" +:+ LF));
          Called (Reader_unlock 0); Called (Release_file_lock 0);
          Called (Write_n_bytes 4 "HTTP/1.1 " 9);
          Called (Write_n_bytes 4 "404 Not Found" 13);
          Called (Write_n_bytes 4 CRLF 2);
          Called (Write_n_bytes 4 "Content-Length: " 16);
          Called (Write_n_bytes 4 ("10" +:+ CRLF) 4);
          Called (Write_n_bytes 4 CRLF 2);
          Called (Write_n_bytes 4 ("Not Found" +:+ LF) 10);
          Called (Req_close 4)]
  /\ handle_connection (Some req)
     = handle_connection (Some (mkRequest 4 GET "a" "1" "1" [mkHeader "Request-Id" "5"] "")).
Proof. repeat split; reflexivity. Qed.

End HttpFacts.

(** ** The worker pool *)

Module ServerFacts.
Import Http Server.

(** C7, at the failing schedule.  Requests 2 and 3 are both [PUT /b].
    Request 3 arrives when entry 0 of the registry has just been freed, and
    [find_file_lock] hands it entry 0 although "b" is interned in entry 1:
    the two requests hold different locks and are both in their critical
    sections.  Request 2 opened (and created) "b" before request 3 opened
    it, yet the line of request 3 is on stderr before the line of
    request 2. *)
Theorem audit_order_broken :
  exists s0 s,
    start 2 = Some s0
    /\ run split_requests s0 = Some s
    /\ file_locks s = [Registry.mkFileLock 0 (Some "b") 1; Registry.mkFileLock 1 (Some "b") 1]
    /\ lpc <$> workers s = [RWLock.Writing; RWLock.Writing]
    /\ opened_by "b" (log s) = [1%nat; 0%nat]
    /\ audit_lines (log s)
       = [(0%nat, "PUT,/a,201,1" +:+ LF); (0%nat, "PUT,/b,200,3" +:+ LF);
          (1%nat, "PUT,/b,201,2" +:+ LF)].
Proof.
  eexists _, _. split; [reflexivity|]. split; [vm_compute; reflexivity|].
  repeat split; reflexivity.
Qed.

End ServerFacts.

(** ** The reader/writer lock: counters, priorities and the N_WAY window *)

Module RWLockMoreFacts.
Import RWLock RWLockMore RWLockFacts.

Lemma counters_start p n rw0 nthreads :
  0 <= n -> rwlock_new p n = Some rw0 -> counters n nthreads (start rw0 nthreads).
Proof.
  intros Hn H. unfold counters, start. simpl. rewrite length_replicate. split; [done|].
  destruct p; simpl in H; try destruct (n =? 0); inversion H; subst; simpl;
    rewrite ?count_replicate; simpl; rewrite ?Z.mul_0_r; repeat split; try done; lia.
Qed.

Ltac counter_eq :=
  match goal with
  | H : ?r = ?k mod UINT32_MOD |- u32 (u32 (?r + 1) - 1) = _ =>
      rewrite (u32_pred_mod _ _ (u32_succ_mod _ _ H)); f_equal; lia
  | H : ?r = ?k mod UINT32_MOD |- u32 (?r + 1) = _ =>
      rewrite (u32_succ_mod _ _ H); f_equal; lia
  | H : ?r = ?k mod UINT32_MOD |- u32 (?r - 1) = _ =>
      rewrite (u32_pred_mod _ _ H); f_equal; lia
  | H : ?r = ?k mod UINT32_MOD |- ?r = _ =>
      rewrite H; f_equal; lia
  end.

Lemma counters_step n nthreads s ta s' :
  0 <= n < UINT32_MOD ->
  counters n nthreads s -> sys_step s ta = Some s' -> counters n nthreads s'.
Proof.
  intros Hn [Hlen C]. destruct ta as [t a]. unfold sys_step. simpl.
  destruct (pcs s !! t) as [c|] eqn:Hl; [|discriminate].
  destruct s as [[st rh m sem] pcs0]. simpl in *.
  destruct (thread_step (mkRW st rh m sem) c a) as [[rw' c']|] eqn:Hs; [|discriminate].
  intros [= <-]. unfold counters. simpl. rewrite length_insert. split; [done|].
  unfold thread_step in Hs.
  destruct a, c; try discriminate; simpl in Hs.
  all: unfold reader_lock, reader_unlock, writer_lock, writer_unlock,
         writer_unlock_entry in Hs; simpl in Hs.
  all: destruct st as [st|st|st]; simpl in Hs.
  all: try discriminate.
  all: try (destruct m; [discriminate|]).
  all: unfold nway_priority_rd_wait, wr_priority_rd_wait, rd_priority_wr_wait,
         nway_priority_wr_wait, first_reader_or_enter, sem_wait, sem_post, hold, unhold,
         set_mutex, set_state, wr_leave_waiting, nway_leave_waiting in Hs; simpl in Hs.
  all: repeat match type of Hs with
         | context [if ?b then _ else _] => destruct b eqn:?; simpl in Hs
         end.
  all: try discriminate.
  all: injection Hs as <- <-.
  all: repeat match goal with
         | H : (_ =? _) = true |- _ => apply Z.eqb_eq in H
         | H : (_ =? _) = false |- _ => apply Z.eqb_neq in H
         | H : (_ <? _) = true |- _ => apply Z.ltb_lt in H
         | H : (_ <? _) = false |- _ => apply Z.ltb_ge in H
         end.
  all: simpl; rewrite ?(count_insert _ _ _ _ _ Hl); simpl.
  all: destruct st; simpl in *.
  all: repeat match goal with H : _ /\ _ |- _ => destruct H end.
  all: repeat match goal with |- _ /\ _ => split end.
  all: try done.
  all: try counter_eq.
  all: try lia.
  all: try (rewrite u32_id; lia).
  all: repeat match goal with
         | H : (_ || _) = false |- _ => apply orb_false_iff in H as [? ?]
         end.
  all: subst; simpl in *; try lia.
  all: pose proof (count_lookup rd_holding _ _ _ Hl eq_refl);
       match goal with b : bool |- _ => destruct b end; simpl in *; lia.
Qed.

Lemma priority_step s ta s' : sys_step s ta = Some s' -> priority (rw s') = priority (rw s).
Proof.
  destruct ta as [t a]. unfold sys_step. simpl.
  destruct (pcs s !! t) as [c|] eqn:Hl; [|discriminate].
  destruct s as [[st rh m sem] pcs0]. simpl in *.
  destruct (thread_step (mkRW st rh m sem) c a) as [[rw' c']|] eqn:Hs; [|discriminate].
  intros [= <-]. simpl. unfold thread_step in Hs.
  destruct a, c; try discriminate; simpl in Hs.
  all: unfold reader_lock, reader_unlock, writer_lock, writer_unlock in Hs; simpl in Hs.
  all: destruct st as [st|st|st]; simpl in Hs.
  all: try discriminate.
  all: try (destruct m; [discriminate|]).
  all: unfold nway_priority_rd_wait, wr_priority_rd_wait, rd_priority_wr_wait,
         nway_priority_wr_wait, first_reader_or_enter, sem_wait, sem_post, hold, unhold,
         set_mutex, set_state, wr_leave_waiting in Hs; simpl in Hs.
  all: repeat match type of Hs with
         | context [if ?b then _ else _] => destruct b eqn:?; simpl in Hs
         end.
  all: try discriminate.
  all: by injection Hs as <- <-.
Qed.

(** What holds of every state a lock made by [rwlock_new] can reach. *)
Lemma reachable p n rw0 nthreads sched :
  0 <= n < UINT32_MOD -> rwlock_new p n = Some rw0 ->
  forall s, run sched (start rw0 nthreads) = Some s ->
  inv s /\ counters n nthreads s /\ priority (rw s) = p.
Proof.
  intros Hn Hnew.
  assert (forall s0 s, inv s0 /\ counters n nthreads s0 /\ priority (rw s0) = p ->
            run sched s0 = Some s ->
            inv s /\ counters n nthreads s /\ priority (rw s) = p) as Hrun.
  { induction sched as [|ta sched IH]; intros s0 s H0; simpl.
    - by intros [= <-].
    - destruct (sys_step s0 ta) as [s1|] eqn:E; [|discriminate].
      apply IH. destruct H0 as (I & C & P). split; [|split].
      + by apply (rwlock_inv_step s0 ta).
      + by apply (counters_step n nthreads s0 ta).
      + by rewrite (priority_step _ _ _ E). }
  intros s. apply Hrun. split; [|split].
  - by apply (rwlock_inv_start p n).
  - apply (counters_start p n); [lia|done].
  - destruct p; simpl in Hnew; try destruct (n =? 0); by inversion Hnew.
Qed.

Lemma count_all_idle (f : pc -> bool) (l : list pc) :
  f Idle = false -> (forall t c, l !! t = Some c -> c = Idle) -> count f l = 0.
Proof.
  intros Hf. induction l as [|c l IH]; intros H; simpl; [done|].
  rewrite (H 0%nat c eq_refl), Hf. simpl. apply IH. intros t c'. apply (H (S t)).
Qed.

Lemma small_count (f : pc -> bool) (l : list pc) :
  Z.of_nat (length l) < UINT32_MOD -> count f l mod UINT32_MOD = count f l.
Proof.
  intros H. pose proof (count_nonneg f l). pose proof (count_le_length f l).
  apply Z.mod_small. lia.
Qed.

Lemma pc_of_lookup s t c : pcs s !! t = Some c -> pc_of s t = c.
Proof. unfold pc_of. by intros ->. Qed.

Lemma pc_of_not_idle s t : pc_of s t <> Idle -> pcs s !! t = Some (pc_of s t).
Proof. unfold pc_of. destruct (pcs s !! t); simpl; done. Qed.

Lemma sys_step_inv s t a s' :
  sys_step s (t, a) = Some s' ->
  exists c rw' c',
    pcs s !! t = Some c /\ thread_step (rw s) c a = Some (rw', c')
    /\ s' = mkSys rw' (<[t:=c']> (pcs s)) /\ pc_of s t = c /\ pc_of s' t = c'.
Proof.
  unfold sys_step. simpl. destruct (pcs s !! t) as [c|] eqn:Hl; [|discriminate].
  destruct (thread_step (rw s) c a) as [[rw' c']|] eqn:Hs; [|discriminate].
  intros [= <-]. exists c, rw', c'. repeat split; try done.
  - by apply pc_of_lookup.
  - apply pc_of_lookup. simpl. apply list_lookup_insert_eq. by eapply lookup_lt_Some.
Qed.

(** X1. READERS priority.  In any state a READERS lock can reach with fewer
    than 2^32 threads: if the mutex is free and no writer holds the write
    gate, a thread at the start of [reader_lock] is in the critical section
    after at most two of its own steps, whether or not writers are
    waiting. *)
Theorem readers_priority_reader_enters (n : Z) (rw0 : rwlock) (nthreads : nat)
    (sched : list (nat * act)) (s : sys) (t : nat) :
  0 <= n < UINT32_MOD ->
  Z.of_nat nthreads < UINT32_MOD ->
  rwlock_new READERS n = Some rw0 ->
  run sched (start rw0 nthreads) = Some s ->
  pcs s !! t = Some RLockMutex ->
  mutex (rw s) = false ->
  (forall t' c, pcs s !! t' = Some c -> holds_gate_as_writer c = false) ->
  exists k s',
    (k <= 2)%nat
    /\ run (replicate k (t, Run)) s = Some s'
    /\ pcs s' !! t = Some Reading
    /\ readers_holding (rw s') = readers_holding (rw s) + 1.
Proof.
  intros Hn HN Hnew Hrun Ht Hm Hw.
  destruct (reachable READERS n rw0 nthreads sched Hn Hnew s Hrun) as (I & [Hlen C] & P).
  destruct I as [It Is Ir Ib Im].
  assert (count holds_gate_as_writer (pcs s) = 0) as Hw0.
  { clear -Hw. induction (pcs s) as [|c l IH]; simpl; [done|].
    rewrite (Hw 0%nat c eq_refl). simpl. apply IH. intros t' c'. apply (Hw (S t')). }
  rewrite small_count in Ir by lia.
  pose proof (count_nonneg counted_reader (pcs s)) as H0.
  pose proof (count_le_length counted_reader (pcs s)) as H1.
  assert (u32 (readers_holding (rw s) + 1) = readers_holding (rw s) + 1) as Hu.
  { apply u32_id. pose proof (count_insert counted_reader _ _ _ Reading Ht) as E.
    pose proof (count_le_length counted_reader (<[t:=Reading]> (pcs s))) as H2.
    rewrite length_insert in H2. simpl in E. lia. }
  destruct s as [[st rh m sem] pcs0]. simpl in *. subst m.
  destruct st as [st|st|st]; try discriminate.
  destruct (Z.eqb_spec rh 0) as [E|E].
  - exists 2%nat. eexists. split; [lia|]. simpl. unfold sys_step. simpl. rewrite Ht. simpl.
    unfold reader_lock, first_reader_or_enter. simpl.
    destruct (Z.eqb_spec rh 0); [|done]. simpl.
    rewrite list_lookup_insert_eq by (by eapply lookup_lt_Some). simpl.
    unfold sem_wait. simpl.
    assert (sem = 1) as -> by
      (destruct (Z.ltb_spec 0 (count counted_reader pcs0)); lia).
    simpl. split; [reflexivity|]. simpl.
    split; [apply list_lookup_insert_eq; rewrite length_insert; by eapply lookup_lt_Some|].
    done.
  - exists 1%nat. eexists. split; [lia|]. simpl. unfold sys_step. simpl. rewrite Ht. simpl.
    unfold reader_lock, first_reader_or_enter. simpl.
    destruct (Z.eqb_spec rh 0); [done|]. simpl. split; [reflexivity|]. simpl.
    split; [apply list_lookup_insert_eq; by eapply lookup_lt_Some|done].
Qed.

(** Readers 0 and 1 on a READERS lock: 1 calls [reader_lock] while 0 reads
    and writer 2 waits for the readers to leave. *)
Lemma readers_priority_reader_enters_witness :
  exists rw0 s k s',
    rwlock_new READERS 0 = Some rw0
    /\ run readers_sched (start rw0 3) = Some s
    /\ pcs s = [Reading; RLockMutex; WLockCond]
    /\ (k <= 2)%nat
    /\ run (replicate k (1%nat, Run)) s = Some s'
    /\ pcs s' !! 1%nat = Some Reading
    /\ readers_holding (rw s') = readers_holding (rw s) + 1.
Proof.
  pose proof (readers_priority_reader_enters 0 (mkRW (St_rd (mkRdPr false 0)) 0 false 1)
                3 readers_sched
                (mkSys (mkRW (St_rd (mkRdPr false 1)) 1 false 0)
                   [Reading; RLockMutex; WLockCond]) 1
                ltac:(unfold UINT32_MOD; lia) ltac:(unfold UINT32_MOD; lia) eq_refl
                ltac:(vm_compute; reflexivity) eq_refl eq_refl) as H.
  destruct H as (k & s' & H).
  - intros [|[|[|t']]] c; simpl; intros [= <-]; reflexivity.
  - eexists _, _, k, s'. split; [reflexivity|]. split; [vm_compute; reflexivity|].
    split; [reflexivity|]. exact H.
Defined.

(** X2. WRITERS priority.  In any state a WRITERS lock can reach with
    fewer than 2^32 threads: while some writer stands between the
    registration in [writer_lock] and the end of [writer_unlock], a reader
    in the loop of [reader_lock] that gets the mutex goes (back) to
    [pthread_cond_wait]; it is not added to [readers_holding]. *)
Theorem writers_priority_bars_readers (n : Z) (rw0 : rwlock) (nthreads : nat)
    (sched : list (nat * act)) (s : sys) (w t : nat) (cw c : pc) :
  0 <= n < UINT32_MOD ->
  Z.of_nat nthreads < UINT32_MOD ->
  rwlock_new WRITERS n = Some rw0 ->
  run sched (start rw0 nthreads) = Some s ->
  pcs s !! w = Some cw -> wr_registered cw = true ->
  pcs s !! t = Some c -> in_rd_loop c = true ->
  mutex (rw s) = false ->
  exists s',
    sys_step s (t, Run) = Some s'
    /\ pcs s' !! t = Some RLockCond
    /\ readers_holding (rw s') = readers_holding (rw s)
    /\ write_lock (rw s') = write_lock (rw s).
Proof.
  intros Hn HN Hnew Hrun Hw Hcw Ht Hc Hm.
  destruct (reachable WRITERS n rw0 nthreads sched Hn Hnew s Hrun) as (I & [Hlen C] & P).
  pose proof (count_lookup wr_registered _ _ _ Hw Hcw) as H1.
  destruct s as [[st rh m sem] pcs0]. simpl in *. subst m.
  destruct st as [st|st|st]; try discriminate.
  destruct C as [Cw Cr]. rewrite small_count in Cw by lia.
  assert ((wr_writers_waiting st =? 0) = false) as E by (apply Z.eqb_neq; lia).
  unfold sys_step. simpl. rewrite Ht. simpl.
  destruct c; try discriminate; simpl; unfold reader_lock; simpl;
    unfold wr_priority_rd_wait; simpl; rewrite E; simpl;
    (eexists; split; [reflexivity|]); simpl;
    (split; [apply list_lookup_insert_eq; by eapply lookup_lt_Some|done]).
Qed.

(** Writer 0 waits for reader 1 to leave a WRITERS lock; reader 2 arrives
    and is sent to wait. *)
Lemma writers_priority_bars_readers_witness :
  exists rw0 s s',
    rwlock_new WRITERS 0 = Some rw0
    /\ run writers_sched (start rw0 3) = Some s
    /\ pcs s = [WLockGate; Reading; RLockMutex]
    /\ sys_step s (2%nat, Run) = Some s'
    /\ pcs s' !! 2%nat = Some RLockCond
    /\ readers_holding (rw s') = readers_holding (rw s)
    /\ write_lock (rw s') = write_lock (rw s).
Proof.
  destruct (writers_priority_bars_readers 0 (mkRW (St_wr (mkWrPr 0 0)) 0 false 1)
              3 writers_sched
              (mkSys (mkRW (St_wr (mkWrPr 1 0)) 1 false 0)
                 [WLockGate; Reading; RLockMutex]) 0 2 WLockGate RLockMutex
              ltac:(unfold UINT32_MOD; lia) ltac:(unfold UINT32_MOD; lia) eq_refl
              ltac:(vm_compute; reflexivity) eq_refl eq_refl eq_refl eq_refl eq_refl)
    as (s' & H).
  eexists _, _, s'. split; [reflexivity|]. split; [vm_compute; reflexivity|].
  split; [reflexivity|]. exact H.
Defined.

Lemma thread_step_passed n st rw0 c a rw' c' :
  state rw0 = St_nway st -> nway_n st = n ->
  0 <= nway_readers_passed st <= n -> n < UINT32_MOD ->
  nway_writers_waiting st <> 0 ->
  is_WUnlockMutex c = false ->
  thread_step rw0 c a = Some (rw', c') ->
  exists st',
    state rw' = St_nway st'
    /\ nway_readers_passed st'
       = nway_readers_passed st + b2z (in_rd_loop c && past_rd_loop c').
Proof.
  intros Hst Hn Hp HM Hww Hc Hs. destruct rw0 as [st0 rh m sem]. simpl in Hst. subst st0.
  unfold thread_step in Hs.
  destruct a, c; try discriminate; simpl in Hs.
  all: unfold reader_lock, reader_unlock, writer_lock, writer_unlock,
         writer_unlock_entry in Hs; simpl in Hs.
  all: try (destruct m; [discriminate|]).
  all: unfold nway_priority_rd_wait, nway_priority_wr_wait, first_reader_or_enter,
         nway_reader_blocked, sem_wait, sem_post, hold, unhold,
         set_mutex, set_state, nway_leave_waiting in Hs; simpl in Hs.
  all: repeat match type of Hs with
         | context [if ?b then _ else _] => destruct b eqn:?; simpl in Hs
         end.
  all: try discriminate.
  all: injection Hs as <- <-.
  all: simpl; eexists; (split; [reflexivity|]); simpl.
  all: repeat match goal with
         | H : (_ && _) = false |- _ => apply andb_false_iff in H as [H|H]
         | H : negb _ = false |- _ => apply negb_false_iff in H
         | H : (_ =? _) = true |- _ => apply Z.eqb_eq in H
         | H : (_ =? _) = false |- _ => apply Z.eqb_neq in H
         | H : (_ <? _) = true |- _ => apply Z.ltb_lt in H
         | H : (_ <? _) = false |- _ => apply Z.ltb_ge in H
         | H : (_ <=? _) = true |- _ => apply Z.leb_le in H
         | H : (_ <=? _) = false |- _ => apply Z.leb_gt in H
         end.
  all: try lia.
  all: try (rewrite u32_id; lia).
Qed.

(** X3. The N_WAY window.  On an N_WAY lock made with [n], with fewer than
    2^32 threads: over any stretch of an execution during which writer [w]
    is registered and waits, and in which no [writer_unlock] performs its
    reset of [readers_passed], the readers that leave the loop of
    [reader_lock] are counted one by one in [readers_passed], which stays at
    most [n]: at most [n] minus its value at the start of the stretch get
    past the quota check. *)
Theorem nway_window_quota (n : Z) (rw0 : rwlock) (nthreads : nat)
    (pre post : list (nat * act)) (w : nat) (s1 s2 : sys) (k : Z) :
  0 <= n < UINT32_MOD ->
  Z.of_nat nthreads < UINT32_MOD ->
  rwlock_new N_WAY n = Some rw0 ->
  run pre (start rw0 nthreads) = Some s1 ->
  passed_in_window w post s1 = Some (k, s2) ->
  readers_passed_of s2 = readers_passed_of s1 + k
  /\ 0 <= k <= n - readers_passed_of s1.
Proof.
  intros Hn HN Hnew Hrun.
  destruct (reachable N_WAY n rw0 nthreads pre Hn Hnew s1 Hrun) as (_ & C & P).
  clear Hrun. revert s1 k C P.
  induction post as [|[t a] post IH]; intros s1 k C P; simpl;
    destruct (registered_waiting (pc_of s1 w)) eqn:Hw; try discriminate.
  - intros [= <- <-]. destruct C as [_ C]. unfold readers_passed_of, priority in *.
    destruct (state (rw s1)); try discriminate. lia.
  - destruct (is_WUnlockMutex (pc_of s1 t)) eqn:Hr; [discriminate|].
    destruct (sys_step s1 (t, a)) as [s'|] eqn:Hs; [|discriminate].
    destruct (passed_in_window w post s') as [[k' s'']|] eqn:Hk; [|discriminate].
    intros [= <- <-].
    pose proof (counters_step _ _ _ _ _ Hn C Hs) as C'.
    pose proof (priority_step _ _ _ Hs) as P'. rewrite P in P'.
    destruct (IH s' k' C' P' Hk) as [E B].
    destruct (sys_step_inv _ _ _ _ Hs) as (c & rw' & c' & Hl & Hts & -> & Hc & Hc').
    assert (pcs s1 !! w = Some (pc_of s1 w)) as Hlw.
    { apply pc_of_not_idle. intros E'. rewrite E' in Hw. discriminate. }
    assert (nway_registered (pc_of s1 w) = true) as Hreg
      by (destruct (pc_of s1 w); done).
    pose proof (count_lookup nway_registered _ _ _ Hlw Hreg) as H1.
    destruct C as [Hlen C]. unfold passes. rewrite Hc, Hc'. rewrite Hc in Hr.
    unfold readers_passed_of, priority in *. simpl in *.
    destruct (state (rw s1)) as [st| |] eqn:Est; try discriminate.
    destruct C as (Cn & Cw & Cr & Cp). rewrite small_count in Cw by lia.
    destruct (thread_step_passed n st (rw s1) c a rw' c' Est Cn Cp) as (st' & Est' & Ep);
      try done; try lia.
    rewrite Est' in *.
    assert (0 <= b2z (in_rd_loop c && past_rd_loop c')) by (destruct (_ && _); simpl; lia).
    lia.
Qed.

Lemma nway_window_quota_witness :
  exists rw0 s1 s2,
    rwlock_new N_WAY 3 = Some rw0
    /\ run window_prefix (start rw0 5) = Some s1
    /\ passed_in_window 0 window_sched s1 = Some (2, s2)
    /\ pcs s2 = [WLockCond; Reading; Reading; Reading; RLockCond]
    /\ readers_passed_of s2 = readers_passed_of s1 + 2
    /\ 0 <= 2 <= 3 - readers_passed_of s1.
Proof.
  eexists _, _, _. split; [reflexivity|]. split; [vm_compute; reflexivity|].
  split; [vm_compute; reflexivity|]. split; [reflexivity|].
  apply (nway_window_quota 3 (mkRW (St_nway (mkNWay 3 0 0 0)) 0 false 1) 5
           window_prefix window_sched 0).
  - unfold UINT32_MOD. lia.
  - unfold UINT32_MOD. lia.
  - reflexivity.
  - vm_compute. reflexivity.
  - vm_compute. reflexivity.
Defined.

Lemma count_all_false (f : pc -> bool) (l : list pc) :
  (forall t c, l !! t = Some c -> f c = false) -> count f l = 0.
Proof.
  induction l as [|c l IH]; intros H; simpl; [done|].
  rewrite (H 0%nat c eq_refl). simpl. apply IH. intros t c'. apply (H (S t)).
Qed.

(** X4. The N_WAY quota throttles exactly when it is meant to.  In any
    state an N_WAY lock can reach with fewer than 2^32 threads, a reader in
    the loop of [reader_lock] that gets the mutex goes to
    [pthread_cond_wait] if [readers_passed] has reached [n] and a writer is
    registered, and leaves the loop if [readers_passed] is below [n] or no
    writer is registered. *)
Theorem nway_throttle (n : Z) (rw0 : rwlock) (nthreads : nat)
    (sched : list (nat * act)) (s : sys) (t : nat) (c : pc) :
  0 <= n < UINT32_MOD ->
  Z.of_nat nthreads < UINT32_MOD ->
  rwlock_new N_WAY n = Some rw0 ->
  run sched (start rw0 nthreads) = Some s ->
  pcs s !! t = Some c -> in_rd_loop c = true ->
  mutex (rw s) = false ->
  exists s',
    sys_step s (t, Run) = Some s'
    /\ (readers_passed_of s = n ->
        (exists w cw, pcs s !! w = Some cw /\ nway_registered cw = true) ->
        pcs s' !! t = Some RLockCond
        /\ readers_holding (rw s') = readers_holding (rw s))
    /\ (readers_passed_of s < n
        \/ (forall w cw, pcs s !! w = Some cw -> nway_registered cw = false) ->
        past_rd_loop (pc_of s' t) = true).
Proof.
  intros Hn HN Hnew Hrun Ht Hc Hm.
  destruct (reachable N_WAY n rw0 nthreads sched Hn Hnew s Hrun) as (I & [Hlen C] & P).
  unfold readers_passed_of, pc_of.
  destruct s as [[st rh m sem] pcs0]. simpl in *. subst m.
  destruct st as [st|st|st]; try discriminate.
  destruct C as (Cn & Cw & Cr & Cp). rewrite small_count in Cw by lia.
  unfold sys_step. simpl. rewrite Ht. simpl.
  assert (length pcs0 > t)%nat as Hlt by (by eapply lookup_lt_Some).
  destruct c; try discriminate; simpl; unfold reader_lock; simpl;
    unfold nway_priority_rd_wait, nway_reader_blocked; simpl;
    destruct (Z.leb_spec (nway_n st) (nway_readers_passed st)) as [L|L];
    destruct (Z.eqb_spec (nway_writers_waiting st) 0) as [Z|Z]; simpl;
    unfold first_reader_or_enter; simpl;
    try destruct (rh =? 0); simpl;
    (eexists; split; [reflexivity|]); simpl;
    rewrite list_lookup_insert_eq by lia; simpl;
    (split; [intros Ep [w [cw [Hw Hcw]]]|intros [Hp|Hnone]]);
    try done; try lia;
    try (pose proof (count_lookup nway_registered _ _ _ Hw Hcw); lia);
    try (exfalso; apply Z; rewrite Cw; apply count_all_false; done).
Qed.

Lemma nway_throttle_witness :
  exists rw0 s s',
    rwlock_new N_WAY 3 = Some rw0
    /\ run throttle_sched (start rw0 5) = Some s
    /\ sys_step s (4%nat, Run) = Some s'
    /\ pcs s' !! 4%nat = Some RLockCond.
Proof.
  destruct (nway_throttle 3 (mkRW (St_nway (mkNWay 3 0 0 0)) 0 false 1) 5 throttle_sched
              (mkSys (mkRW (St_nway (mkNWay 3 0 3 1)) 3 false 0)
                 [WLockCond; Reading; Reading; Reading; RLockMutex]) 4 RLockMutex
              ltac:(unfold UINT32_MOD; lia) ltac:(unfold UINT32_MOD; lia) eq_refl
              ltac:(vm_compute; reflexivity) eq_refl eq_refl eq_refl)
    as (s' & Hs & Hblock & _).
  eexists _, _, s'. split; [reflexivity|]. split; [vm_compute; reflexivity|].
  split; [exact Hs|]. apply Hblock; [reflexivity|].
  exists 0%nat, WLockCond. split; reflexivity.
Defined.

(** X5. A lock nobody uses is as good as new.  In any state a lock made by
    [rwlock_new] can reach, under any priority: when every thread has
    returned from its last unlock, no reader is counted, the semaphore and
    the mutex are free and no thread is registered as waiting; the lock
    equals the one [rwlock_new] made, except that an N_WAY lock keeps its
    [readers_passed], a number between 0 and [n]. *)
Theorem quiescent_lock (p : PRIORITY) (n : Z) (rw0 : rwlock) (nthreads : nat)
    (sched : list (nat * act)) (s : sys) :
  0 <= n < UINT32_MOD ->
  rwlock_new p n = Some rw0 ->
  run sched (start rw0 nthreads) = Some s ->
  (forall t c, pcs s !! t = Some c -> c = Idle) ->
  exists k,
    0 <= k <= n
    /\ rw s = match p with
              | N_WAY => mkRW (St_nway (mkNWay n 0 k 0)) 0 false 1
              | _ => rw0
              end.
Proof.
  intros Hn Hnew Hrun Hidle.
  destruct (reachable p n rw0 nthreads sched Hn Hnew s Hrun) as (I & [Hlen C] & P).
  destruct I as [It Is Ir Ib Im].
  rewrite !(count_all_idle _ _ eq_refl Hidle) in *.
  change (0 mod UINT32_MOD) with 0 in *. simpl in It.
  unfold priority in P.
  destruct (rw s) as [st rh m sem]. simpl in *.
  assert (m = false) as -> by (destruct m; [discriminate|done]).
  assert (sem = 1) as -> by lia. subst rh.
  destruct st as [[n' r k w]|[h w]|[w r]]; simpl in *; subst p; simpl in Hnew.
  - destruct C as (-> & -> & -> & Hk). by exists k.
  - destruct C as (-> & Hh). exists 0. split; [lia|].
    injection Hnew as <-. destruct h; [discriminate|done].
  - destruct C as (-> & ->). exists 0. split; [lia|]. by injection Hnew as <-.
Qed.

Lemma quiescent_lock_witness :
  exists rw0 s k,
    rwlock_new N_WAY 2 = Some rw0
    /\ run quiet_sched (start rw0 3) = Some s
    /\ pcs s = [Idle; Idle; Idle]
    /\ 0 <= k <= 2
    /\ rw s = mkRW (St_nway (mkNWay 2 0 k 0)) 0 false 1.
Proof.
  destruct (quiescent_lock N_WAY 2 (mkRW (St_nway (mkNWay 2 0 0 0)) 0 false 1) 3 quiet_sched
              (mkSys (mkRW (St_nway (mkNWay 2 0 0 0)) 0 false 1) [Idle; Idle; Idle])
              ltac:(unfold UINT32_MOD; lia) eq_refl ltac:(vm_compute; reflexivity))
    as (k & Hk & E).
  - intros [|[|[|t]]] c; simpl; intros [= <-]; reflexivity.
  - eexists _, _, k. split; [reflexivity|]. split; [vm_compute; reflexivity|].
    split; [reflexivity|]. split; [exact Hk|exact E].
Defined.

(** X6. The write gate is never lost.  In any state a lock made by
    [rwlock_new] can reach, under any priority: if no thread holds the gate
    as a writer and no thread is counted in [readers_holding], the semaphore
    is free, so a writer standing at [sem_wait] enters the critical section
    in its next step. *)
Theorem gate_free_when_unheld (p : PRIORITY) (n : Z) (rw0 : rwlock) (nthreads : nat)
    (sched : list (nat * act)) (s : sys) (t : nat) :
  rwlock_new p n = Some rw0 ->
  run sched (start rw0 nthreads) = Some s ->
  (forall t' c, pcs s !! t' = Some c ->
                holds_gate_as_writer c = false /\ counted_reader c = false) ->
  pcs s !! t = Some WLockGate ->
  write_lock (rw s) = 1
  /\ exists s',
       sys_step s (t, Run) = Some s'
       /\ pcs s' !! t = Some Writing
       /\ write_lock (rw s') = 0.
Proof.
  intros Hnew Hrun Hfree Ht.
  pose proof (rwlock_inv_run sched _ _ (rwlock_inv_start p n rw0 nthreads Hnew) Hrun)
    as [It Is Ir Ib Im].
  rewrite (count_all_false holds_gate_as_writer) in It
    by (intros t' c Hc; apply (Hfree t' c Hc)).
  rewrite (count_all_false counted_reader) in It
    by (intros t' c Hc; apply (Hfree t' c Hc)).
  simpl in It. assert (write_lock (rw s) = 1) as E by lia. split; [done|].
  unfold sys_step. simpl. rewrite Ht. simpl. unfold writer_lock.
  destruct s as [[st rh m sem] pcs0]. simpl in *. subst sem.
  destruct st; simpl; (eexists; split; [reflexivity|]); simpl;
    (split; [apply list_lookup_insert_eq; by eapply lookup_lt_Some|done]).
Qed.

Lemma gate_free_when_unheld_witness :
  exists rw0 s s',
    rwlock_new READERS 0 = Some rw0
    /\ run gate_sched (start rw0 2) = Some s
    /\ write_lock (rw s) = 1
    /\ sys_step s (0%nat, Run) = Some s'
    /\ pcs s' !! 0%nat = Some Writing
    /\ write_lock (rw s') = 0.
Proof.
  destruct (gate_free_when_unheld READERS 0 (mkRW (St_rd (mkRdPr false 0)) 0 false 1) 2
              gate_sched
              (mkSys (mkRW (St_rd (mkRdPr true 0)) 0 false 1) [WLockGate; Idle]) 0
              eq_refl ltac:(vm_compute; reflexivity)) as (E & s' & H).
  - intros [|[|t]] c; simpl; intros [= <-]; split; reflexivity.
  - reflexivity.
  - eexists _, _, s'. split; [reflexivity|]. split; [vm_compute; reflexivity|].
    split; [exact E|exact H].
Defined.

(** X22. After the quota the writer's turn comes.  In any state an N_WAY
    lock can reach: a writer in the loop of [writer_lock] that gets the
    mutex leaves the loop for [sem_wait] when no reader is counted in
    [readers_holding] and either [readers_passed] has reached [n] or no
    reader waits in [reader_lock]; it goes to [pthread_cond_wait] while a
    reader is counted. *)
Theorem nway_writer_turn (n : Z) (rw0 : rwlock) (nthreads : nat)
    (sched : list (nat * act)) (s : sys) (t : nat) (c : pc) :
  0 <= n < UINT32_MOD ->
  Z.of_nat nthreads < UINT32_MOD ->
  rwlock_new N_WAY n = Some rw0 ->
  run sched (start rw0 nthreads) = Some s ->
  pcs s !! t = Some c -> c = WLockMutex \/ c = WLockCond ->
  mutex (rw s) = false ->
  exists s',
    sys_step s (t, Run) = Some s'
    /\ ((forall t' c', pcs s !! t' = Some c' -> counted_reader c' = false) ->
        readers_passed_of s = n
        \/ (forall t' c', pcs s !! t' = Some c' -> is_RLockCond c' = false) ->
        pcs s' !! t = Some WLockGate)
    /\ ((exists t' c', pcs s !! t' = Some c' /\ counted_reader c' = true) ->
        pcs s' !! t = Some WLockCond).
Proof.
  intros Hn HN Hnew Hrun Ht Hc Hm.
  destruct (reachable N_WAY n rw0 nthreads sched Hn Hnew s Hrun) as (I & [Hlen C] & P).
  destruct I as [It Is Ir Ib Im].
  unfold readers_passed_of.
  destruct s as [[st rh m sem] pcs0]. simpl in *. subst m.
  destruct st as [st|st|st]; try discriminate.
  destruct C as (Cn & Cw & Cr & Cp).
  rewrite small_count in Ir, Cr by lia.
  assert (length pcs0 > t)%nat as Hlt by (by eapply lookup_lt_Some).
  unfold sys_step. simpl. rewrite Ht. simpl.
  destruct Hc as [-> | ->]; simpl; unfold writer_lock; simpl;
    unfold nway_priority_wr_wait, nway_writer_blocked; simpl;
    destruct (Z.eqb_spec rh 0) as [Hr|Hr]; simpl;
    destruct (Z.ltb_spec (nway_readers_passed st) (nway_n st)) as [L|L];
    destruct (Z.eqb_spec (nway_readers_waiting st) 0) as [Z|Z]; simpl;
    (eexists; split; [reflexivity|]); simpl;
    rewrite list_lookup_insert_eq by lia;
    (split; [intros Hnone [Hp|Hw]|intros (t' & c' & Ht' & Hc')]);
    try done; try lia;
    try (exfalso; apply Z; rewrite Cr; apply count_all_false; done);
    try (exfalso; apply Hr; rewrite Ir; apply count_all_false; done);
    try (pose proof (count_lookup counted_reader _ _ _ Ht' Hc'); lia).
Qed.

Lemma nway_writer_turn_witness :
  exists rw0 s s',
    rwlock_new N_WAY 3 = Some rw0
    /\ run window_prefix (start rw0 5) = Some s
    /\ pcs s = [WLockCond; Reading; Idle; Idle; Idle]
    /\ sys_step s (0%nat, Run) = Some s'
    /\ pcs s' !! 0%nat = Some WLockCond.
Proof.
  destruct (nway_writer_turn 3 (mkRW (St_nway (mkNWay 3 0 0 0)) 0 false 1) 5 window_prefix
              (mkSys (mkRW (St_nway (mkNWay 3 0 1 1)) 1 false 0)
                 [WLockCond; Reading; Idle; Idle; Idle]) 0 WLockCond
              ltac:(unfold UINT32_MOD; lia) ltac:(unfold UINT32_MOD; lia) eq_refl
              ltac:(vm_compute; reflexivity) eq_refl ltac:(by right) eq_refl)
    as (s' & Hs & _ & Hwait).
  eexists _, _, s'. split; [reflexivity|]. split; [vm_compute; reflexivity|].
  split; [reflexivity|]. split; [exact Hs|]. apply Hwait.
  exists 1%nat, Reading. split; reflexivity.
Defined.

End RWLockMoreFacts.

(** ** The bounded queue: blocking, bounds and accounting *)

Module QueueMoreFacts.
Import Queue QueueMore QueueFacts.

Section QueueMoreFacts.
Context {A : Type}.
Implicit Types (s : @sys A) (C : Z).

Lemma queue_reachable C (q0 : @queue A) nthreads sched s :
  C <= INT_MAX -> queue_new C = Some q0 -> run sched (start q0 nthreads) = Some s ->
  0 < C /\ inv C s.
Proof.
  intros HC Hnew Hrun.
  assert (0 < C) as HC0.
  { unfold queue_new in Hnew. destruct (C <=? 0) eqn:E; [discriminate|].
    by apply Z.leb_gt in E. }
  split; [done|].
  exact (queue_inv_run C sched _ _ (conj HC0 HC) (queue_inv_start C q0 nthreads Hnew) Hrun).
Qed.

Lemma queue_count_all_idle (f : @pc A -> bool) (l : list (@pc A)) :
  f Idle = false -> (forall t c, l !! t = Some c -> c = Idle) -> count f l = 0.
Proof.
  intros Hf. induction l as [|c l IH]; intros H; simpl; [done|].
  rewrite (H 0%nat c eq_refl), Hf. simpl. apply IH. intros t c'. apply (H (S t)).
Qed.

(** X7. [queue_push] blocks while the queue is full and [queue_pop] while
    it is empty.  In every interleaved execution on a queue of capacity
    [C]: when [C] elements are stored and not yet read, no thread at
    [sem_wait(&q->wr_sem)] can go on; when every stored element was read,
    no thread at [sem_wait(&q->rd_sem)] can go on. *)
Theorem queue_blocking (C : Z) (q0 : @queue A) (nthreads : nat)
    (sched : list (nat * act)) (s : sys) :
  C <= INT_MAX ->
  queue_new C = Some q0 ->
  run sched (start q0 nthreads) = Some s ->
  (Z.of_nat (length (pushed s)) - Z.of_nat (length (popped s)) = C ->
   forall t x, pcs s !! t = Some (PushSem x) -> sys_step s (t, Run) = None)
  /\ (length (popped s) = length (pushed s) ->
      forall t, pcs s !! t = Some PopSem -> sys_step s (t, Run) = None).
Proof.
  intros HC Hnew Hrun.
  destruct (queue_reachable C q0 nthreads sched s HC Hnew Hrun) as [HC0 I].
  destruct I as [Isz Ibuf Ihd Itl Ifree Ifull Iws Irs Iwl Irl Iwin Ipop].
  pose proof (count_nonneg is_PushLock (pcs s)).
  pose proof (count_nonneg is_PushCrit (pcs s)).
  pose proof (count_nonneg is_PushPost (pcs s)).
  pose proof (count_nonneg is_PopLock (pcs s)).
  pose proof (count_nonneg is_PopCrit (pcs s)).
  pose proof (count_nonneg is_PopPost (pcs s)).
  split.
  - intros Hfull t x Ht. unfold sys_step. simpl. rewrite Ht. simpl.
    destruct (Z.ltb_spec 0 (wr_sem (q s))); [lia|done].
  - intros Hempty t Ht. unfold sys_step. simpl. rewrite Ht. simpl.
    destruct (Z.ltb_spec 0 (rd_sem (q s))); [lia|done].
Qed.

(** X8. The buffer is only touched in bounds and by one thread per end.
    In every interleaved execution on a queue of capacity [C]: a thread
    about to store has [head] inside the buffer, is the only thread between
    the lock and unlock of [wr_lock], and its store goes through; a thread
    about to read has [tail] inside the buffer, is the only thread between
    the lock and unlock of [rd_lock], and reads a slot that holds the oldest
    element stored and not yet read, never a slot left as [malloc] made
    it. *)
Theorem queue_buffer_in_bounds (C : Z) (q0 : @queue A) (nthreads : nat)
    (sched : list (nat * act)) (s : sys) (t : nat) :
  C <= INT_MAX ->
  queue_new C = Some q0 ->
  run sched (start q0 nthreads) = Some s ->
  (forall x, pcs s !! t = Some (PushCrit x) ->
     0 <= head (q s) < Z.of_nat (length (buf (q s)))
     /\ (forall t' c, pcs s !! t' = Some c -> is_PushCrit c = true -> t' = t)
     /\ exists s', sys_step s (t, Run) = Some s' /\ pushed s' = pushed s ++ [x])
  /\ (pcs s !! t = Some PopCrit ->
     0 <= tail (q s) < Z.of_nat (length (buf (q s)))
     /\ (forall t' c, pcs s !! t' = Some c -> is_PopCrit c = true -> t' = t)
     /\ exists s' x,
          sys_step s (t, Run) = Some s'
          /\ popped s' = popped s ++ [Some x]
          /\ pushed s !! length (popped s) = Some x).
Proof.
  intros HC Hnew Hrun.
  destruct (queue_reachable C q0 nthreads sched s HC Hnew Hrun) as [HC0 I].
  destruct I as [Isz Ibuf Ihd Itl Ifree Ifull Iws Irs Iwl Irl Iwin Ipop].
  pose proof (count_nonneg is_PushLock (pcs s)).
  pose proof (count_nonneg is_PushCrit (pcs s)).
  pose proof (count_nonneg is_PushPost (pcs s)).
  pose proof (count_nonneg is_PopLock (pcs s)).
  pose proof (count_nonneg is_PopCrit (pcs s)).
  pose proof (count_nonneg is_PopPost (pcs s)).
  pose proof (Z.mod_pos_bound (Z.of_nat (length (pushed s))) C ltac:(lia)).
  pose proof (Z.mod_pos_bound (Z.of_nat (length (popped s))) C ltac:(lia)).
  split.
  - intros x Ht. split; [lia|]. split.
    + intros t' c Ht' Hc.
      apply (count_unique is_PushCrit (pcs s) t' t c (PushCrit x)); try done.
      rewrite Iwl. destruct (wr_lock (q s)); simpl; lia.
    + unfold sys_step. simpl. rewrite Ht. simpl.
      replace (0 <=? head (q s)) with true by (symmetry; apply Z.leb_le; lia).
      replace (head (q s) <? Z.of_nat (length (buf (q s)))) with true
        by (symmetry; apply Z.ltb_lt; lia).
      simpl. eauto.
  - intros Ht. split; [lia|]. split.
    + intros t' c Ht' Hc.
      apply (count_unique is_PopCrit (pcs s) t' t c PopCrit); try done.
      rewrite Irl. destruct (rd_lock (q s)); simpl; lia.
    + pose proof (count_lookup is_PopCrit _ _ _ Ht eq_refl) as Hone.
      destruct (lookup_lt_is_Some_2 (pushed s) (length (popped s)) ltac:(lia)) as [x Hx].
      pose proof (Iwin _ _ Hx ltac:(lia)) as Hslot. rewrite <- Itl in Hslot.
      unfold sys_step. simpl. rewrite Ht. simpl.
      replace (0 <=? tail (q s)) with true by (symmetry; apply Z.leb_le; lia).
      rewrite Hslot. simpl. eauto.
Qed.

(** X9. At rest the semaphores count the queue.  In every interleaved
    execution on a queue of capacity [C], whenever no thread is inside
    [queue_push] or [queue_pop]: [rd_sem] is the number of elements stored
    and not yet read, [wr_sem] the number of free slots, and both mutexes
    are free. *)
Theorem queue_at_rest (C : Z) (q0 : @queue A) (nthreads : nat)
    (sched : list (nat * act)) (s : sys) :
  C <= INT_MAX ->
  queue_new C = Some q0 ->
  run sched (start q0 nthreads) = Some s ->
  (forall t c, pcs s !! t = Some c -> c = Idle) ->
  rd_sem (q s) = Z.of_nat (length (pushed s)) - Z.of_nat (length (popped s))
  /\ wr_sem (q s) = C - rd_sem (q s)
  /\ wr_lock (q s) = false
  /\ rd_lock (q s) = false.
Proof.
  intros HC Hnew Hrun Hidle.
  destruct (queue_reachable C q0 nthreads sched s HC Hnew Hrun) as [HC0 I].
  destruct I as [Isz Ibuf Ihd Itl Ifree Ifull Iws Irs Iwl Irl Iwin Ipop].
  rewrite !(queue_count_all_idle _ _ eq_refl Hidle) in *.
  repeat split; try lia.
  - destruct (wr_lock (q s)); [discriminate|done].
  - destruct (rd_lock (q s)); [discriminate|done].
Qed.

Lemma sys_step_insert (qu : @queue A) ps t c a pu po qu' c' o :
  (t < length ps)%nat ->
  thread_step qu c a = Some (qu', c', o) ->
  sys_step (mkSys qu (<[t:=c]> ps) pu po) (t, a)
  = Some (record o (mkSys qu (<[t:=c]> ps) pu po) qu' (<[t:=c']> ps)).
Proof.
  intros Ht Hs. unfold sys_step. simpl.
  rewrite list_lookup_insert_eq by done. rewrite Hs. by rewrite list_insert_insert_eq.
Qed.

(** X27. A queue at rest does not get stuck.  In every interleaved
    execution on a queue of capacity [C], whenever no thread is inside
    [queue_push] or [queue_pop]: if the queue is not full, a [queue_push] by
    any thread runs to its end without blocking and stores its element last;
    if the queue is not empty, a [queue_pop] by any thread runs to its end
    without blocking and returns the oldest element stored and not yet
    read.  Either leaves every thread outside the queue again. *)
Theorem queue_progress_at_rest (C : Z) (q0 : @queue A) (nthreads : nat)
    (sched : list (nat * act)) (s : sys) (t : nat) :
  C <= INT_MAX ->
  queue_new C = Some q0 ->
  run sched (start q0 nthreads) = Some s ->
  (forall t' c, pcs s !! t' = Some c -> c = Idle) ->
  pcs s !! t = Some Idle ->
  (Z.of_nat (length (pushed s)) - Z.of_nat (length (popped s)) < C ->
   forall x, exists s',
     run (push_by t x) s = Some s'
     /\ pushed s' = pushed s ++ [x] /\ popped s' = popped s /\ pcs s' = pcs s)
  /\ ((length (popped s) < length (pushed s))%nat ->
      exists s' y,
        run (pop_by t) s = Some s'
        /\ pushed s' = pushed s /\ popped s' = popped s ++ [Some y]
        /\ pushed s !! length (popped s) = Some y /\ pcs s' = pcs s).
Proof.
  intros HC Hnew Hrun Hidle Ht.
  destruct (queue_reachable C q0 nthreads sched s HC Hnew Hrun) as [HC0 I].
  destruct I as [Isz Ibuf Ihd Itl Ifree Ifull Iws Irs Iwl Irl Iwin Ipop].
  rewrite !(queue_count_all_idle _ _ eq_refl Hidle) in *.
  pose proof (lookup_lt_Some _ _ _ Ht) as Hlt.
  pose proof (Z.mod_pos_bound (Z.of_nat (length (pushed s))) C ltac:(lia)).
  pose proof (Z.mod_pos_bound (Z.of_nat (length (popped s))) C ltac:(lia)).
  destruct s as [[sz bf hd tl wl rl rs ws] ps pu po]. simpl in *.
  assert (wl = false) as -> by (destruct wl; [discriminate|done]).
  assert (rl = false) as -> by (destruct rl; [discriminate|done]).
  split.
  - intros Hroom x. unfold push_by.
    cbn [run]. unfold sys_step at 1. cbn [pcs fst snd q]. rewrite Ht. cbn [thread_step record].
    rewrite (sys_step_insert _ _ _ _ _ _ _
               (mkQueue sz bf hd tl false false rs (ws - 1)) (PushLock x) Silent Hlt)
      by (simpl; destruct (Z.ltb_spec 0 ws); [done|lia]).
    cbn [record].
    rewrite (sys_step_insert _ _ _ _ _ _ _
               (mkQueue sz bf hd tl true false rs (ws - 1)) (PushCrit x) Silent Hlt)
      by done.
    cbn [record].
    rewrite (sys_step_insert _ _ _ _ _ _ _
               (mkQueue sz (<[Z.to_nat hd := Some x]> bf) (Z.rem (s32 (hd + 1)) sz) tl
                  false false rs (ws - 1)) PushPost (Stored x) Hlt).
    2: { simpl. destruct (Z.leb_spec 0 hd); [|lia].
         destruct (Z.ltb_spec hd (Z.of_nat (length bf))); [done|lia]. }
    cbn [record pushed popped].
    rewrite (sys_step_insert _ _ _ _ _ _ _
               (mkQueue sz (<[Z.to_nat hd := Some x]> bf) (Z.rem (s32 (hd + 1)) sz) tl
                  false false (rs + 1) (ws - 1)) Idle Silent Hlt) by done.
    cbn [record pushed popped]. eexists. split; [reflexivity|]. simpl.
    split; [done|]. split; [done|]. by apply list_insert_id.
  - intros Hsome. unfold pop_by.
    destruct (lookup_lt_is_Some_2 pu (length po) Hsome) as [y Hy].
    pose proof (Iwin _ _ Hy ltac:(lia)) as Hslot. rewrite <- Itl in Hslot.
    cbn [run]. unfold sys_step at 1. cbn [pcs fst snd q]. rewrite Ht. cbn [thread_step record].
    rewrite (sys_step_insert _ _ _ _ _ _ _
               (mkQueue sz bf hd tl false false (rs - 1) ws) PopLock Silent Hlt)
      by (simpl; destruct (Z.ltb_spec 0 rs); [done|lia]).
    cbn [record].
    rewrite (sys_step_insert _ _ _ _ _ _ _
               (mkQueue sz bf hd tl false true (rs - 1) ws) PopCrit Silent Hlt) by done.
    cbn [record].
    rewrite (sys_step_insert _ _ _ _ _ _ _
               (mkQueue sz bf hd (Z.rem (s32 (tl + 1)) sz) false false (rs - 1) ws)
               PopPost (Loaded (Some y)) Hlt).
    2: { simpl. destruct (Z.leb_spec 0 tl); [|lia]. by rewrite Hslot. }
    cbn [record pushed popped].
    rewrite (sys_step_insert _ _ _ _ _ _ _
               (mkQueue sz bf hd (Z.rem (s32 (tl + 1)) sz) false false (rs - 1) (ws + 1))
               Idle Silent Hlt) by done.
    cbn [record pushed popped]. eexists _, y. split; [reflexivity|]. simpl.
    split; [done|]. split; [done|]. split; [done|]. by apply list_insert_id.
Qed.

End QueueMoreFacts.

Lemma queue_blocking_witness :
  exists q0 s,
    queue_new 1 = Some q0
    /\ run full_sched (start q0 2) = Some s
    /\ sys_step s (1%nat, Run) = None.
Proof.
  eexists _, _. split; [reflexivity|]. split; [vm_compute; reflexivity|].
  eapply (proj1 (queue_blocking 1 _ 2 full_sched _ ltac:(unfold INT_MAX; lia) eq_refl
                   ltac:(vm_compute; reflexivity))); reflexivity.
Defined.

Lemma queue_buffer_in_bounds_witness :
  exists q0 s s' x,
    queue_new 2 = Some q0
    /\ run reading_sched (start q0 2) = Some s
    /\ pcs s = [Idle; PopCrit]
    /\ sys_step s (1%nat, Run) = Some s'
    /\ popped s' = popped s ++ [Some x]
    /\ pushed s !! length (popped s) = Some x.
Proof.
  destruct (proj2 (queue_buffer_in_bounds 2 (mkQueue 2 [None; None] 0 0 false false 0 2)
                     2 reading_sched
                     (mkSys (mkQueue 2 [Some 10; None] 1 0 false true 0 1)
                        [Idle; PopCrit] [10] []) 1
                     ltac:(unfold INT_MAX; lia) eq_refl ltac:(vm_compute; reflexivity))
              eq_refl) as (_ & _ & s' & x & H).
  eexists _, _, s', x. split; [reflexivity|]. split; [vm_compute; reflexivity|].
  split; [reflexivity|]. exact H.
Defined.

Lemma queue_at_rest_witness :
  exists q0 s,
    queue_new 3 = Some q0
    /\ run settled_sched (start q0 2) = Some s
    /\ pushed s = [10; 20] /\ popped s = [Some 10]
    /\ rd_sem (q s) = 1 /\ wr_sem (q s) = 2.
Proof.
  eexists _, _. split; [reflexivity|]. split; [vm_compute; reflexivity|].
  split; [reflexivity|]. split; [reflexivity|].
  destruct (queue_at_rest 3 (mkQueue 3 [None; None; None] 0 0 false false 0 3) 2
              settled_sched
              (mkSys (mkQueue 3 [Some 10; Some 20; None] 2 1 false false 1 2)
                 [Idle; Idle] [10; 20] [Some 10])
              ltac:(unfold INT_MAX; lia) eq_refl ltac:(vm_compute; reflexivity))
    as (E1 & E2 & _).
  - intros [|[|t]] c; simpl; intros [= <-]; reflexivity.
  - split; [exact E1|]. rewrite E2, E1. reflexivity.
Defined.

(** Capacity 3, two elements stored, one read: thread 1 pops the other. *)
Lemma queue_progress_at_rest_witness :
  exists q0 s s' y,
    queue_new 3 = Some q0
    /\ run settled_sched (start q0 2) = Some s
    /\ run (pop_by 1) s = Some s'
    /\ popped s' = popped s ++ [Some y]
    /\ y = 20.
Proof.
  destruct (proj2 (queue_progress_at_rest 3 (mkQueue 3 [None; None; None] 0 0 false false 0 3)
                     2 settled_sched
                     (mkSys (mkQueue 3 [Some 10; Some 20; None] 2 1 false false 1 2)
                        [Idle; Idle] [10; 20] [Some 10]) 1
                     ltac:(unfold INT_MAX; lia) eq_refl ltac:(vm_compute; reflexivity)
                     ltac:(intros [|[|t']] c; simpl; intros [= <-]; reflexivity)
                     eq_refl) ltac:(simpl; lia))
    as (s' & y & Hrun & _ & Hpop & Hy & _).
  eexists _, _, s', y. split; [reflexivity|]. split; [vm_compute; reflexivity|].
  split; [exact Hrun|]. split; [exact Hpop|]. simpl in Hy. by injection Hy as <-.
Defined.

End QueueMoreFacts.

(** ** The lock registry: accounting and the acquire/release round trip *)

Module RegistryMoreFacts.
Import Registry RegistryMore RegistryFacts.

(** What [find_file_lock] returns, whenever it returns an entry. *)
Lemma find_shape URI (fls : list file_lock) i fls1 :
  find_file_lock URI fls = Some (i, fls1) ->
  exists fl,
    fls !! i = Some fl
    /\ ((filename fl = None /\ fls1 = <[i := mkFileLock (lock fl) (Some URI) 1]> fls)
        \/ (filename fl = Some URI
            /\ fls1 = <[i := mkFileLock (lock fl) (Some URI) (s32 (users fl + 1))]> fls)).
Proof.
  intros H. unfold find_file_lock in H.
  destruct (find_from_hit _ _ _ _ H) as (j0 & fl0 & Hl0 & Hc0).
  destruct (find_from_some 0 URI _ _ _ Hl0 Hc0) as (j & fl & Hl & _ & Hres).
  destruct Hres as [[Hf Hfind]|[Hf Hfind]]; rewrite Hfind in H; injection H as <- <-;
    exists fl; (split; [done|]); [left|right]; done.
Qed.

Lemma find_release_id URI (fls : list file_lock) i fls1 :
  tidy fls -> find_file_lock URI fls = Some (i, fls1) ->
  release_file_lock i fls1 = Some fls.
Proof.
  intros Ht H. destruct (find_shape _ _ _ _ H) as (fl & Hl & Hres).
  pose proof (lookup_lt_Some _ _ _ Hl) as Hlt.
  destruct (Ht _ _ Hl) as [Hu Hn].
  unfold release_file_lock.
  destruct Hres as [[Hf ->]|[Hf ->]]; rewrite list_lookup_insert_eq by done; simpl;
    rewrite list_insert_insert_eq; f_equal; apply list_insert_id; rewrite Hl; f_equal.
  - destruct fl as [l f u]. simpl in *. subst f.
    change (s32 (1 - 1)) with 0. simpl. f_equal. by rewrite (proj1 Hn eq_refl).
  - assert (users fl <> 0) as Hne by (intros E; apply Hn in E; congruence).
    rewrite (s32_id (users fl + 1)) by (unfold INT_MAX in *; lia).
    replace (users fl + 1 - 1) with (users fl) by lia.
    rewrite s32_id by (unfold INT_MAX in *; lia).
    destruct (Z.eqb_spec (users fl) 0); [done|].
    destruct fl as [l f u]. simpl in *. by subst f.
Qed.

Lemma wf_start T : wf (start T).
Proof.
  split; simpl.
  - intros i fl Hl. by apply init_lookup in Hl as ->.
  - intros w i Hw. apply lookup_replicate in Hw as [? _]. discriminate.
Qed.

Lemma wf_step s wa s' : wf s -> pool_step s wa = Some s' -> wf s'.
Proof.
  intros [Hlock Hheld]. destruct wa as [w a]. unfold pool_step. simpl.
  destruct (holds s !! w) as [[i|]|] eqn:Hw; destruct a as [URI|]; try discriminate.
  - unfold release_file_lock.
    destruct (file_locks s !! i) as [fl|] eqn:Hi; [|discriminate]. intros [= <-].
    split; simpl.
    + intros j fl' Hj. destruct (decide (i = j)) as [<-|Hne].
      * rewrite list_lookup_insert_eq in Hj by (by eapply lookup_lt_Some).
        injection Hj as <-. simpl. by apply Hlock.
      * rewrite list_lookup_insert_ne in Hj by done. by apply Hlock.
    + intros w' j Hw'. rewrite length_insert. destruct (decide (w = w')) as [<-|Hne].
      * rewrite list_lookup_insert_eq in Hw' by (by eapply lookup_lt_Some). discriminate.
      * rewrite list_lookup_insert_ne in Hw' by done. by apply (Hheld w' j).
  - destruct (find_file_lock URI (file_locks s)) as [[i fls1]|] eqn:Hf; [|discriminate].
    intros [= <-]. destruct (find_shape _ _ _ _ Hf) as (fl & Hl & Hres).
    pose proof (lookup_lt_Some _ _ _ Hl) as Hlt.
    assert (exists new, fls1 = <[i := new]> (file_locks s) /\ lock new = lock fl)
      as (new & -> & Hnew).
    { destruct Hres as [[_ ->]|[_ ->]]; eexists; split; done. }
    split; simpl.
    + intros j fl' Hj. destruct (decide (i = j)) as [<-|Hne].
      * rewrite list_lookup_insert_eq in Hj by done.
        injection Hj as <-. rewrite Hnew. by apply Hlock.
      * rewrite list_lookup_insert_ne in Hj by done. by apply Hlock.
    + intros w' j Hw'. rewrite length_insert. destruct (decide (w = w')) as [<-|Hne].
      * rewrite list_lookup_insert_eq in Hw' by (by eapply lookup_lt_Some).
        by injection Hw' as <-.
      * rewrite list_lookup_insert_ne in Hw' by done. by apply (Hheld w' j).
Qed.

Lemma wf_run sched : forall s s', wf s -> run sched s = Some s' -> wf s'.
Proof.
  induction sched as [|wa sched IH]; intros s s' I; simpl.
  - by intros [= <-].
  - destruct (pool_step s wa) as [s1|] eqn:E; [|discriminate].
    apply IH. by apply (wf_step s wa).
Qed.

(** While a worker is idle the array is [tidy]. *)
Lemma idle_worker_tidy T s w :
  Z.of_nat T <= INT_MAX -> inv T s -> holds s !! w = Some None -> tidy (file_locks s).
Proof.
  intros HT [Ilen Iw Iu Inm] Hw i fl Hl. split; [|by apply (Inm i)].
  rewrite (Iu _ _ Hl).
  pose proof (count_nonneg (holds_entry i) (holds s)).
  pose proof (count_below_length (holds_entry i) _ _ _ Hw eq_refl). lia.
Qed.

(** X10. The registry counts its users.  In every state of a pool of [T]
    workers: entry [i] still carries lock [i]; its [users] is the number of
    workers that hold it; its [filename] is NULL exactly when that number is
    0; and a worker that holds an entry holds one of the array, which is in
    use, so that its [release_file_lock] goes through. *)
Theorem pool_accounting (T : nat) (sched : list (nat * act)) (s : pool) :
  Z.of_nat T <= INT_MAX ->
  run sched (start T) = Some s ->
  (forall i fl, file_locks s !! i = Some fl ->
     lock fl = i
     /\ users fl = count (holds_entry i) (holds s)
     /\ (filename fl = None <-> users fl = 0))
  /\ (forall w i, holds s !! w = Some (Some i) ->
        exists fl name,
          file_locks s !! i = Some fl /\ filename fl = Some name /\ 1 <= users fl
          /\ is_Some (pool_step s (w, Release))).
Proof.
  intros HT Hrun.
  pose proof (registry_inv_run T sched _ _ HT (registry_inv_start T) Hrun) as [Ilen Iw Iu Inm].
  pose proof (wf_run sched _ _ (wf_start T) Hrun) as [Hlock Hheld].
  split.
  - intros i fl Hl. split; [by apply Hlock|]. split; [by apply Iu|by apply (Inm i)].
  - intros w i Hw.
    destruct (lookup_lt_is_Some_2 (file_locks s) i (Hheld _ _ Hw)) as [fl Hl].
    assert (1 <= users fl) as Hu.
    { rewrite (Iu _ _ Hl). apply (count_lookup _ _ _ _ Hw). simpl. apply Nat.eqb_refl. }
    destruct (filename fl) as [name|] eqn:Hf.
    + exists fl, name. repeat split; try done.
      unfold pool_step. simpl. rewrite Hw. unfold release_file_lock. rewrite Hl. eauto.
    + exfalso. assert (users fl = 0) by (by apply (Inm _ _ Hl)). lia.
Qed.

Lemma pool_accounting_witness :
  exists s,
    run shared_sched (start 3) = Some s
    /\ holds s = [Some 0%nat; Some 0%nat; None]
    /\ (users <$> file_locks s !! 0%nat) = Some 2
    /\ is_Some (pool_step s (1%nat, Release)).
Proof.
  destruct (pool_accounting 3 shared_sched
              (mkPool [mkFileLock 0 (Some "a") 2; mkFileLock 1 None 0; mkFileLock 2 None 0]
                 [Some 0%nat; Some 0%nat; None])
              ltac:(unfold INT_MAX; lia) eq_refl) as [_ H].
  destruct (H 1%nat 0%nat eq_refl) as (fl & name & _ & _ & _ & Hrel).
  eexists. split; [reflexivity|]. split; [reflexivity|]. split; [reflexivity|].
  exact Hrel.
Defined.

(** X11. A request leaves the registry as it found it.  In every state of
    a pool of [T] workers, for a worker that holds no entry and any path:
    [find_file_lock] followed by [release_file_lock] on the entry it
    returned gives back exactly the pool there was before, user counts,
    paths and free entries included. *)
Theorem pool_acquire_release (T : nat) (sched : list (nat * act)) (s : pool)
    (w : nat) (URI : string) :
  Z.of_nat T <= INT_MAX ->
  run sched (start T) = Some s ->
  holds s !! w = Some None ->
  run [(w, Acquire URI); (w, Release)] s = Some s.
Proof.
  intros HT Hrun Hw.
  pose proof (registry_inv_run T sched _ _ HT (registry_inv_start T) Hrun) as I.
  pose proof (idle_worker_tidy T s w HT I Hw) as Ht.
  destruct (idle_worker_free_entry T s w I Hw) as (j0 & fl0 & Hl0 & Hn0).
  destruct (find_from_some 0 URI _ _ _ Hl0 (or_introl Hn0)) as (j & fl & Hl & _ & Hres).
  assert (exists fls1, find_file_lock URI (file_locks s) = Some (j, fls1)) as [fls1 Hf].
  { unfold find_file_lock. destruct Hres as [[_ ->]|[_ ->]]; eauto. }
  pose proof (lookup_lt_Some _ _ _ Hw) as Hlt.
  simpl. unfold pool_step. simpl. rewrite Hw, Hf. simpl.
  rewrite list_lookup_insert_eq by done.
  rewrite (find_release_id _ _ _ _ Ht Hf). rewrite list_insert_insert_eq.
  rewrite list_insert_id by done. by destruct s.
Qed.

Lemma pool_acquire_release_witness :
  exists s,
    run shared_sched (start 3) = Some s
    /\ run [(2%nat, Acquire "a"); (2%nat, Release)] s = Some s.
Proof.
  eexists. split; [reflexivity|].
  apply (pool_acquire_release 3 shared_sched _ 2 "a");
    [unfold INT_MAX; lia|reflexivity|reflexivity].
Defined.

End RegistryMoreFacts.

(** ** The handlers of the multi-threaded server, as a whole *)

Module HttpMoreFacts.
Import Http HttpMore HttpFacts.






Lemma all_calls_bind (P : forall X, call X -> Prop) {R S} (p : prog R) (f : R -> prog S) :
  all_calls P p -> (forall r, all_calls P (f r)) -> all_calls P (bind p f).
Proof.
  intros Hp Hf. induction Hp as [r| |X c k Hc Hk IH]; simpl.
  - apply Hf.
  - constructor.
  - constructor; [done|]. intros x. apply IH.
Qed.

Lemma all_calls_run (URI : option string) (sys : Sys) {R} (p : prog R) :
  all_calls (fun X c => call_wf URI c = true) p ->
  forall fls tr,
    forallb (event_wf URI) tr = true ->
    forallb (event_wf URI) (trace_of (run_from sys p fls tr)) = true.
Proof.
  intros Hp. induction Hp as [r| |X c k Hc Hk IH]; intros fls tr Htr; simpl; try done.
  assert (forallb (event_wf URI) (tr ++ [Called c]) = true) as Htr'.
  { rewrite forallb_app, Htr. simpl. by rewrite Hc. }
  destruct (exec sys c fls) as [[x fls']|]; [by apply IH|done].
Qed.

Ltac calls :=
  repeat first
    [ apply all_calls_ret
    | apply all_calls_crash
    | apply all_calls_vis;
      [ first [ reflexivity
              | apply Z.eqb_refl
              | cbn [call_wf]; rewrite bool_decide_eq_true_2 by done; reflexivity ]
      | intros ? ]
    | apply all_calls_bind; [|intros ?]
    | match goal with
      | |- all_calls _ (match ?x with _ => _ end) => destruct x
      end
    | progress simpl
    | progress unfold mbind, prog_bind, mret, prog_ret, trigger ].

Lemma respond_calls (URI : option string) (conn status : Z) :
  all_calls (fun X c => call_wf URI c = true) (respond conn status).
Proof. unfold respond. calls. Qed.

(** X13. What the server hands to the outside is well-formed.  In every
    run of [serve], complete or cut short by a fault: each
    [write_n_bytes], to the socket or to the file, is given exactly the
    length of the buffer it is given (the literal lengths 17, 9, 16 and 2
    are those of their strings); the only path that is looked up in the
    registry, opened or created is the URI of the request; and the file is
    created with mode 0666. *)
Theorem serve_calls_well_formed (sys : Sys) (conn : Z) (parse : option Request)
    (fls : list Registry.file_lock) :
  forallb (event_wf (req_get_uri <$> parse))
    (trace_of (run_prog sys (serve conn parse) fls)) = true.
Proof.
  apply all_calls_run; [|done].
  unfold serve. apply all_calls_bind.
  - destruct parse as [req|]; simpl; [|constructor].
    unfold handle_connection, write_audit_log.
    destruct (req_get_header_value req "Request-Id"); [|constructor].
    destruct (req_get_method req).
    + unfold handle_get. calls.
    + unfold handle_put, put_body, req_get_body_size, strlen. calls.
    + constructor.
  - intros r. apply all_calls_bind.
    + destruct (negb (responded r)); [apply respond_calls|constructor].
    + intros []. calls.
Qed.

Lemma strcasecmp_eq_trans (a b c : string) :
  strcasecmp_eq b c = true -> strcasecmp_eq a b = strcasecmp_eq a c.
Proof. unfold strcasecmp_eq. intros H. apply String.eqb_eq in H. by rewrite H. Qed.

Lemma header_value_none (hs : list Header) (k : string) :
  header_value hs k = None <-> forall h, h ∈ hs -> strcasecmp_eq (key h) k = false.
Proof.
  induction hs as [|h hs IH]; simpl.
  - split; [|done]. intros _ h Hh. by apply not_elem_of_nil in Hh.
  - destruct (strcasecmp_eq (key h) k) eqn:E.
    + split; [done|]. intros H. specialize (H h ltac:(left)). congruence.
    + rewrite IH. split.
      * intros H h' Hh'. apply elem_of_cons in Hh' as [->|Hh']; [done|by apply H].
      * intros H h' Hh'. apply H. by right.
Qed.

(** X14. Header lookup.  [req_get_header_value] compares keys without
    regard to case: two keys that [strcasecmp] finds equal get the same
    answer.  It returns NULL exactly when no header has the key, and
    otherwise the value of the first header that has it, whatever comes
    after. *)
Theorem header_lookup (hs : list Header) (k : string) :
  (forall k', strcasecmp_eq k k' = true -> header_value hs k = header_value hs k')
  /\ (header_value hs k = None <->
      forall h, h ∈ hs -> strcasecmp_eq (key h) k = false)
  /\ (forall hs1 h hs2,
        hs = hs1 ++ h :: hs2 ->
        strcasecmp_eq (key h) k = true ->
        (forall h', h' ∈ hs1 -> strcasecmp_eq (key h') k = false) ->
        header_value hs k = Some (value h)).
Proof.
  split; [|split].
  - intros k' Hk. induction hs as [|h hs IH]; simpl; [done|].
    rewrite (strcasecmp_eq_trans (key h) k k' Hk). by rewrite IH.
  - apply header_value_none.
  - intros hs1 h hs2 -> Hh Hno. induction hs1 as [|h1 hs1 IH]; simpl.
    + by rewrite Hh.
    + rewrite (Hno h1 ltac:(left)). apply IH. intros h' Hh'. apply Hno. by right.
Qed.

Lemma uint_digits (d : Decimal.uint) :
  all_chars is_digit (NilEmpty.string_of_uint d) = true
  /\ forall acc : positive,
       decimal_value_from (Z.pos acc) (NilEmpty.string_of_uint d)
       = Z.pos (Pos.of_uint_acc d acc).
Proof.
  induction d as [|d [IH1 IH2]|d [IH1 IH2]|d [IH1 IH2]|d [IH1 IH2]|d [IH1 IH2]
                  |d [IH1 IH2]|d [IH1 IH2]|d [IH1 IH2]|d [IH1 IH2]|d [IH1 IH2]];
    (split; [try done; exact IH1|]); intros acc; try done;
    cbn [NilEmpty.string_of_uint decimal_value_from Pos.of_uint_acc];
    rewrite <- IH2; f_equal;
    match goal with
    | |- context [digit_of ?c] =>
        let v := eval vm_compute in (digit_of c) in change (digit_of c) with v
    end;
    unfold default, id; rewrite ?Pos2Z.inj_add, ?Pos2Z.inj_mul; lia.
Qed.

Lemma uint_value (d : Decimal.uint) :
  decimal_value_from 0 (NilEmpty.string_of_uint d) = Z.of_N (Pos.of_uint d).
Proof.
  induction d; cbn [NilEmpty.string_of_uint decimal_value_from Pos.of_uint]; try done;
    cbn [Z.of_N]; by rewrite <- (proj2 (uint_digits _)).
Qed.

(** X15. The decimal text written for a length is read back as the same
    length.  For every [n] between 0 and 2^63 - 1, [_str_to_long] applied to
    the [%lu] rendering of [n] (the text [handle_get] and [respond] put in
    their Content-Length lines) is [n]. *)
Theorem str_to_long_fmt_lu (n : Z) :
  0 <= n <= SSIZE_MAX -> _str_to_long (fmt_lu n) = n.
Proof.
  intros Hn. unfold fmt_lu, _str_to_long.
  rewrite Z.mod_small by (unfold SSIZE_MAX, SSIZE_MOD in *; lia).
  assert (exists d, N.to_uint (Z.to_N n) = d
                    /\ NilZero.string_of_uint d = NilEmpty.string_of_uint d
                    /\ Pos.of_uint d = Z.to_N n) as (d & -> & -> & Hd).
  { eexists. split; [reflexivity|]. split.
    - destruct (Z.to_N n) as [|p]; [reflexivity|]. simpl.
      pose proof (DecimalPos.Unsigned.to_uint_nonnil p). by destruct (Pos.to_uint p).
    - apply DecimalN.Unsigned.of_to. }
  rewrite str_to_long_from_decimal; rewrite ?uint_value, ?Hd; try lia.
  apply uint_digits.
Qed.

Lemma str_to_long_fmt_lu_witness : _str_to_long (fmt_lu 2048) = 2048.
Proof. apply (str_to_long_fmt_lu 2048). unfold SSIZE_MAX. lia. Defined.

Lemma s64_range x : -9223372036854775808 <= s64 x <= SSIZE_MAX.
Proof.
  unfold s64, SSIZE_MAX, SSIZE_MOD.
  pose proof (Z.mod_pos_bound (x + 9223372036854775808) 18446744073709551616 ltac:(lia)).
  lia.
Qed.

Lemma str_to_long_from_range (s : string) : forall res,
  -9223372036854775808 <= res <= SSIZE_MAX ->
  -9223372036854775808 <= str_to_long_from res s <= SSIZE_MAX.
Proof.
  induction s as [|c s IH]; intros res Hres; simpl; [done|].
  destruct (digit_of c); [apply IH, s64_range|unfold SSIZE_MAX; lia].
Qed.

(** X23. The codes of [req_get_content_length].  It returns -1 exactly
    when the request has no Content-Length header (in any case of the
    letters), and otherwise either -2 or a length between 0 and 2^63 - 1;
    -2 is what a value with a character that is no digit gives.  So the test
    [content_length < 0] of the handlers catches both. *)
Theorem content_length_codes (req : Request) :
  (req_get_content_length req = -1 <->
   req_get_header_value req "Content-Length" = None)
  /\ (req_get_content_length req = -1 \/ req_get_content_length req = -2
      \/ 0 <= req_get_content_length req <= SSIZE_MAX)
  /\ (forall v, req_get_header_value req "Content-Length" = Some v ->
                all_chars is_digit v = false ->
                req_get_content_length req = -2).
Proof.
  unfold req_get_content_length.
  destruct (req_get_header_value req "Content-Length") as [v|] eqn:E.
  - pose proof (str_to_long_from_range v 0 ltac:(unfold SSIZE_MAX; lia)) as Hr.
    fold (_str_to_long v) in Hr.
    split; [|split].
    + destruct (Z.ltb_spec (_str_to_long v) 0); split; try done; lia.
    + destruct (Z.ltb_spec (_str_to_long v) 0); [by right; left|right; right; lia].
    + intros v' [= <-] Hd. unfold _str_to_long.
      by rewrite (str_to_long_not_digits v 0 Hd).
  - split; [done|]. split; [by left|]. intros v [=].
Qed.

(** X24. The multi-threaded server does not compare the buffered body
    with Content-Length.  For a PUT whose Content-Length is positive and
    smaller than the body that came with the headers, to a file that opens:
    [handle_put] writes the whole buffered body to the file, then asks
    [pass_n_bytes] for Content-Length minus what was written, a negative
    count, and returns 200 without an error. *)
Theorem put_overlong_body_written (req : Request) (sys : Sys) (fd : Z)
    (fls : list Registry.file_lock) :
  0 < req_get_content_length req < req_get_body_size req ->
  req_get_body_size req <= SSIZE_MAX ->
  sys_open sys (req_get_uri req) O_WRONLY_O_TRUNC = inr fd ->
  sys_write_n_bytes sys fd (req_get_body req) (req_get_body_size req)
  = req_get_body_size req ->
  req_get_content_length req - req_get_body_size req < 0
  /\ run_prog sys (handle_put req) fls
     = Done (RESPONSE_UNSENT 200) fls
         [Called (Sys_open (req_get_uri req) O_WRONLY_O_TRUNC);
          Called (Write_n_bytes fd (req_get_body req) (req_get_body_size req));
          Called (Pass_n_bytes (req_get_sockfd req) fd
                    (req_get_content_length req - req_get_body_size req));
          Called (Sys_close fd)].
Proof.
  intros Hcl Hmax Ho Hw. split; [lia|].
  assert (0 <= req_get_body_size req) as Hb0 by (unfold req_get_body_size; lia).
  unfold run_prog, handle_put.
  destruct (Z.ltb_spec (req_get_content_length req) 0); [lia|].
  simpl. rewrite Ho. unfold put_body.
  destruct (Z.eqb_spec (req_get_content_length req) 0); [lia|].
  destruct (Z.ltb_spec 0 (req_get_body_size req)); [|lia].
  simpl. rewrite Hw. cbv beta iota.
  rewrite Z.add_0_l.
  rewrite (s64_id (req_get_body_size req)) by (unfold SSIZE_MAX in *; lia).
  destruct (Z.eqb_spec (req_get_body_size req) (req_get_content_length req)); [lia|].
  rewrite s64_id by (unfold SSIZE_MAX in *; lia). reflexivity.
Qed.

Lemma put_overlong_body_written_witness :
  let sys := mkSysAnswers (fun _ _ => inr 3) (fun _ _ => 3) (fun _ => inl EIO)
               (fun _ _ n => n) (fun _ _ n => n) in
  let req := mkRequest 4 PUT "a" "1" "1"
               [mkHeader "Request-Id" "1"; mkHeader "Content-Length" "2"] "abcd" in
  run_prog sys (handle_put req) []
  = Done (RESPONSE_UNSENT 200) []
      [Called (Sys_open "a" O_WRONLY_O_TRUNC); Called (Write_n_bytes 3 "abcd" 4);
       Called (Pass_n_bytes 4 3 (-2)); Called (Sys_close 3)].
Proof.
  intros sys req.
  apply (put_overlong_body_written req sys 3 []);
    [vm_compute; split; reflexivity|vm_compute; discriminate|reflexivity|reflexivity].
Defined.

Lemma find_from_none k URI (fls : list Registry.file_lock) :
  Registry.find_file_lock_from k URI fls = None <->
  forall i fl, fls !! i = Some fl ->
    exists name, Registry.filename fl = Some name /\ name <> URI.
Proof.
  revert k. induction fls as [|fl fls IH]; intros k; simpl.
  - split; [|done]. intros _ i fl H. discriminate.
  - destruct (Registry.filename fl) as [name|] eqn:En.
    + destruct (String.eqb_spec name URI) as [->|Hne].
      * split; [done|]. intros H. destruct (H 0%nat fl eq_refl) as (n & Hn & Hne).
        congruence.
      * specialize (IH (S k)).
        destruct (Registry.find_file_lock_from (S k) URI fls) as [[j rest]|].
        -- split; [done|]. intros H. exfalso.
           assert (Some (j, rest) = None) as [=]. apply IH. intros i fl'. apply (H (S i)).
        -- split; [|done]. intros _ [|i] fl' Hl; simpl in Hl.
           ++ injection Hl as <-. by exists name.
           ++ by apply (proj1 IH eq_refl i).
    + split; [done|]. intros H. destruct (H 0%nat fl eq_refl) as (n & Hn & _). congruence.
Qed.

(** X25. When the registry is full.  [find_file_lock] returns NULL exactly
    when every entry is in use for a path other than [URI].  A GET or PUT
    with a Request-Id that meets such a registry makes the worker take the
    lock of NULL: [handle_connection] does not return, and the registry
    look-up is the only call it made. *)
Theorem full_registry_null (URI : string) (fls : list Registry.file_lock) :
  (Registry.find_file_lock URI fls = None <->
   forall i fl, fls !! i = Some fl ->
     exists name, Registry.filename fl = Some name /\ name <> URI)
  /\ (Registry.find_file_lock URI fls = None ->
      forall sys req,
        req_get_uri req = URI -> takes_lock (Some req) = true ->
        run_prog sys (handle_connection (Some req)) fls
        = Fault [Called (Find_file_lock URI)]).
Proof.
  split; [apply find_from_none|].
  intros Hnone sys req <- Hl. unfold takes_lock in Hl. unfold run_prog, handle_connection.
  destruct (req_get_header_value req "Request-Id"); [|discriminate].
  destruct (req_get_method req); try discriminate; simpl; by rewrite Hnone.
Qed.

Lemma full_registry_null_witness :
  let fls := [Registry.mkFileLock 0 (Some "a") 1] in
  let req := mkRequest 4 GET "b" "1" "1" [mkHeader "Request-Id" "1"] "" in
  let sys := mkSysAnswers (fun _ _ => inr 3) (fun _ _ => 3) (fun _ => inl EIO)
               (fun _ _ n => n) (fun _ _ n => n) in
  run_prog sys (handle_connection (Some req)) fls = Fault [Called (Find_file_lock "b")].
Proof.
  intros fls req sys.
  apply (proj2 (full_registry_null "b" fls)); reflexivity.
Defined.

End HttpMoreFacts.

(** ** The single-threaded server *)

Module Asgn2Facts.
Import Http Asgn2.

Lemma pass_from_delivers (io : Pipe) (n : Z) :
  flowing io -> 0 <= n < UINT32_MOD ->
  forall fuel i total_wb,
    0 <= total_wb <= n -> (Z.to_nat (n - total_wb) <= fuel)%nat ->
    pass_n_bytes_fr_from fuel io i n total_wb = Some n.
Proof.
  intros [Hr Hw] Hn. induction fuel as [|fuel IH]; intros i total Ht Hf; simpl.
  - destruct (Z.ltb_spec total n); [lia|]. f_equal. lia.
  - destruct (Z.ltb_spec total n) as [Hlt|Hge]; [|f_equal; lia].
    rewrite (u32_id (n - total)) by lia.
    set (k := if _PNB_BUF_SIZE <? n - total then _PNB_BUF_SIZE else n - total).
    assert (1 <= k <= n - total /\ k <= _PNB_BUF_SIZE) as [Hk Hk'].
    { unfold k, _PNB_BUF_SIZE. destruct (Z.ltb_spec 4096 (n - total)); lia. }
    pose proof (Hr i k ltac:(lia)) as Hrb. rewrite Hw.
    destruct (Z.eqb_spec (read_n_bytes io i k) (-1)); [lia|].
    rewrite s64_id by (unfold SSIZE_MAX, UINT32_MOD in *; lia).
    apply IH; lia.
Qed.

(** X16. [pass_n_bytes_fr] delivers what it is asked for.  For a count
    [n] that fits 32 bits, a source that gives at least one byte and at most
    what is asked for on every read, and a destination that takes all it is
    given: the loop ends within [n] turns and returns exactly [n]. *)
Theorem pass_n_bytes_fr_delivers (io : Pipe) (n : Z) (fuel : nat) :
  flowing io ->
  0 <= n < UINT32_MOD ->
  (Z.to_nat n <= fuel)%nat ->
  pass_n_bytes_fr fuel io n = Some n.
Proof.
  intros Hio Hn Hf. apply pass_from_delivers; try done; [lia|].
  by rewrite Z.sub_0_r.
Qed.

Lemma pass_n_bytes_fr_delivers_witness :
  pass_n_bytes_fr 10 three_a_turn 10 = Some 10.
Proof.
  apply (pass_n_bytes_fr_delivers three_a_turn 10 10).
  - split; simpl; [intros _ k Hk; lia|done].
  - unfold UINT32_MOD. lia.
  - lia.
Defined.

Lemma pass_from_result (io : Pipe) (n : Z) :
  forall fuel i total_wb r,
    pass_n_bytes_fr_from fuel io i n total_wb = Some r -> r = -1 \/ n <= r.
Proof.
  induction fuel as [|fuel IH]; intros i total r; simpl;
    destruct (Z.ltb_spec total n) as [Hlt|Hge]; try discriminate.
  - intros [= <-]. by right.
  - destruct (_ =? -1); [intros [= <-]; by left|].
    destruct (_ =? -1); [intros [= <-]; by left|]. apply IH.
  - intros [= <-]. by right.
Qed.

Lemma pass_from_eof (io : Pipe) (n : Z) :
  at_eof io -> 0 < n ->
  forall fuel i, pass_n_bytes_fr_from fuel io i n 0 = None.
Proof.
  intros [Hr Hw] Hn. induction fuel as [|fuel IH]; intros i; simpl;
    destruct (Z.ltb_spec 0 n); try lia; [done|].
  rewrite Hr, Hw. simpl. apply IH.
Qed.

(** X17. [pass_n_bytes_fr] never reports a short transfer.  Whenever it
    returns, it returns -1 or at least [n].  So when the source is at its
    end, where every read gives 0 bytes, and [n] is positive, it does not
    return at all: the loop runs on however many turns it is given. *)
Theorem pass_n_bytes_fr_all_or_nothing (io : Pipe) (n : Z) :
  (forall fuel r, pass_n_bytes_fr fuel io n = Some r -> r = -1 \/ n <= r)
  /\ (at_eof io -> 0 < n -> forall fuel, pass_n_bytes_fr fuel io n = None).
Proof.
  split.
  - intros fuel r. apply pass_from_result.
  - intros Hio Hn fuel. by apply pass_from_eof.
Qed.

Lemma pass_n_bytes_fr_all_or_nothing_witness :
  pass_n_bytes_fr 1000 eof_pipe 5 = None.
Proof.
  apply (proj2 (pass_n_bytes_fr_all_or_nothing eof_pipe 5)); [|lia].
  split; reflexivity.
Defined.

Lemma pass_nothing (io : Pipe) (n : Z) (fuel : nat) :
  n <= 0 -> pass_n_bytes_fr fuel io n = Some 0.
Proof.
  intros Hn. unfold pass_n_bytes_fr.
  destruct fuel; simpl; by destruct (Z.ltb_spec 0 n); [lia|].
Qed.

Lemma content_length_max (req : Request) : req_get_content_length req <= SSIZE_MAX.
Proof.
  unfold req_get_content_length.
  destruct (req_get_header_value req "Content-Length") as [v|]; [|unfold SSIZE_MAX; lia].
  pose proof (HttpMoreFacts.str_to_long_from_range v 0 ltac:(unfold SSIZE_MAX; lia)) as Hr.
  fold (_str_to_long v) in Hr.
  destruct (Z.ltb_spec (_str_to_long v) 0); [unfold SSIZE_MAX|]; lia.
Qed.

Lemma body_size_nonneg (req : Request) : 0 <= req_get_body_size req.
Proof. unfold req_get_body_size. lia. Qed.

Ltac put_cases H :=
  repeat match type of H with
    | context [if ?b then _ else _] => destruct b eqn:?; simpl in H
    | context [pass_n_bytes_fr ?f ?io ?n] =>
        destruct (pass_n_bytes_fr f io n) eqn:?; simpl in H
    end.

Ltac to_Z :=
  repeat match goal with
    | H : (_ <? _) = true |- _ => apply Z.ltb_lt in H
    | H : (_ <? _) = false |- _ => apply Z.ltb_ge in H
    | H : (_ =? _) = true |- _ => apply Z.eqb_eq in H
    | H : (_ =? _) = false |- _ => apply Z.eqb_neq in H
    end.

(** What [handle_put] returns, whenever it returns. *)
Lemma put_returned (req : Request) (sys : Sys) (fuel : nat) (code : Z) (tr : list event) :
  0 <= req_get_content_length req ->
  run fuel sys (handle_put req) = Returned code tr ->
  (code = 200 \/ code = 201 \/ code = 400 \/ code = 403 \/ code = 500)
  /\ count is_close tr = b2z (opened sys req)
  /\ (code = 400 -> last tr = Some (cleanup_of sys req) /\ count is_cleanup tr = 1)
  /\ (code <> 400 -> count is_cleanup tr = 0)
  /\ (code = 200 \/ code = 201 ->
      code = (if created sys req then 201 else 200)
      /\ req_get_body_size req <= req_get_content_length req)
  /\ (req_get_content_length req < req_get_body_size req -> count is_data tr = 0).
Proof.
  intros Hcl Hrun. unfold handle_put in Hrun.
  destruct (Z.ltb_spec (req_get_content_length req) 0) as [|_]; [lia|].
  unfold opened, created, cleanup_of, created.
  simpl in Hrun.
  destruct (sys_open sys (req_get_uri req) O_WRONLY_O_TRUNC) as [e|fd] eqn:Ho.
  - destruct e; simpl in Hrun; try (injection Hrun as <- <-; simpl; repeat split; lia || done).
    unfold put_body, put_cleanup in Hrun. simpl in Hrun.
    put_cases Hrun; try discriminate; injection Hrun as <- <-; simpl; to_Z;
      repeat split; try lia; try done; intros; try lia.
  - unfold put_body, put_cleanup in Hrun. simpl in Hrun.
    put_cases Hrun; try discriminate; injection Hrun as <- <-; simpl; to_Z;
      repeat split; try lia; try done; intros; try lia.
Qed.

Section Put.
Variables (req : Request) (sys : Sys).
Let cl := req_get_content_length req.
Let sock := req_get_sockfd req.
Let wrote (fd : Z) := sys_write_n_bytes sys fd (req_get_body req) (req_get_body_size req).

Lemma put_body_returns (fuel : nat) (fd res : Z) :
  0 <= cl < UINT32_MOD ->
  flowing (sys_pipe sys sock fd) ->
  0 <= wrote fd <= req_get_body_size req ->
  (Z.to_nat cl <= fuel)%nat ->
  exists code tr,
    run fuel sys (put_body req cl fd res) = Returned code tr
    /\ (req_get_body_size req <= cl -> sys_recv_peek sys sock <= 0 -> code = res).
Proof.
  intros Hcl Hio Hw Hf. unfold put_body, put_cleanup.
  destruct (Z.ltb_spec cl (req_get_body_size req)) as [Hlong|Hfits].
  { destruct (res =? 201); simpl; eexists _, _; (split; [reflexivity|lia]). }
  destruct (Z.eqb_spec cl 0) as [H0|H0].
  { simpl. eexists _, _. split; [reflexivity|done]. }
  assert (exists total_wb,
    0 <= total_wb <= cl
    /\ forall k : Z -> prog Z,
         (exists code tr, run fuel sys (k total_wb) = Returned code tr
            /\ (req_get_body_size req <= cl -> sys_recv_peek sys sock <= 0 -> code = res)) ->
         exists code tr,
           run fuel sys
             (total_wb ← (if 0 <? req_get_body_size req
                          then wb ← trigger (Write_n_bytes fd (req_get_body req)
                                               (req_get_body_size req));
                               mret (s64 (0 + wb))
                          else mret 0);
              k total_wb) = Returned code tr
           /\ (req_get_body_size req <= cl -> sys_recv_peek sys sock <= 0 -> code = res))
    as (total_wb & Ht & Hk).
  { destruct (Z.ltb_spec 0 (req_get_body_size req)).
    - exists (wrote fd). split; [lia|]. intros k (code & tr & Hrun & Hcode). simpl.
      rewrite s64_id by (unfold wrote, SSIZE_MAX, UINT32_MOD in *; lia).
      fold (wrote fd). rewrite Z.add_0_l, Hrun. eauto.
    - exists 0. split; [lia|]. intros k H'. exact H'. }
  apply Hk. clear Hk.
  destruct (Z.eqb_spec total_wb cl) as [Hall|Hmore].
  { simpl. eexists _, _. split; [reflexivity|done]. }
  simpl. fold sock.
  rewrite (s64_id (cl - total_wb)) by (unfold SSIZE_MAX, UINT32_MOD in *; lia).
  unfold pass_n_bytes_fr.
  rewrite (pass_from_delivers _ (cl - total_wb) Hio ltac:(lia) fuel 0%nat 0 ltac:(lia)
             ltac:(lia)).
  replace (total_wb + (cl - total_wb)) with cl by lia.
  rewrite s64_id by (unfold SSIZE_MAX, UINT32_MOD in *; lia).
  rewrite Z.ltb_irrefl. simpl.
  destruct (Z.ltb_spec 0 (sys_recv_peek sys sock)) as [Hleft|Hnone].
  - destruct (res =? 201); simpl; eexists _, _; (split; [reflexivity|lia]).
  - simpl. eexists _, _. split; [reflexivity|done].
Qed.

Lemma put_body_hangs (fuel : nat) (fd res : Z) :
  0 <= cl ->
  at_eof (sys_pipe sys sock fd) ->
  0 <= wrote fd <= req_get_body_size req ->
  req_get_body_size req < cl ->
  exists tr n,
    run fuel sys (put_body req cl fd res) = Running (tr ++ [Called (Pass_n_bytes_fr sock fd n)])
    /\ 0 < n /\ count is_close tr = 0 /\ count is_cleanup tr = 0
    /\ (0 < req_get_body_size req ->
        last tr = Some (Called (Write_n_bytes fd (req_get_body req) (req_get_body_size req)))).
Proof.
  intros Hcl Hio Hw Hshort. unfold put_body.
  pose proof (content_length_max req) as Hmax. fold cl in Hmax.
  pose proof (body_size_nonneg req) as Hb.
  destruct (Z.ltb_spec cl (req_get_body_size req)) as [|_]; [lia|].
  destruct (Z.eqb_spec cl 0) as [|_]; [lia|].
  destruct (Z.ltb_spec 0 (req_get_body_size req)).
  - simpl. fold (wrote fd).
    rewrite (s64_id (0 + wrote fd)) by (unfold SSIZE_MAX in *; lia).
    destruct (Z.eqb_spec (0 + wrote fd) cl) as [|_]; [lia|]. simpl. fold sock.
    rewrite (s64_id (cl - (0 + wrote fd))) by (unfold SSIZE_MAX in *; lia).
    unfold pass_n_bytes_fr. rewrite (pass_from_eof _ _ Hio) by lia.
    eexists [Called (Write_n_bytes fd (req_get_body req) (req_get_body_size req))], _.
    split; [reflexivity|]. split; [lia|done].
  - simpl. change (match cl with 0 => true | _ => false end) with (0 =? cl).
    rewrite (proj2 (Z.eqb_neq 0 cl)) by lia. simpl. fold sock.
    rewrite (s64_id (cl - 0)) by (unfold SSIZE_MAX in *; lia).
    unfold pass_n_bytes_fr. rewrite (pass_from_eof _ _ Hio) by lia.
    eexists [], _. split; [reflexivity|]. split; [lia|]. repeat split; try done. lia.
Qed.

End Put.

(** X18. A PUT that fails leaves no partial file; a PUT whose body stops
    short never fails.  For a PUT with a valid Content-Length, run with the
    loop of [pass_n_bytes_fr] as it is written.
    Whenever [handle_put] returns: it returns 200, 201, 400, 403 or 500; it
    closed the descriptor it got exactly once; when it returns 400 its last
    call deletes the file if this request created it and empties it if it
    was there before, and no such call is made otherwise; 200 or 201 is only
    returned for a buffered body no longer than Content-Length (200 for a
    file that was there, 201 for one that was created); and when the
    buffered body is longer than Content-Length nothing is written.
    It returns, within Content-Length turns of the loop, when the
    Content-Length fits 32 bits, the buffered body is written without error
    and the socket gives at least a byte on every read; the status is then
    200 or 201 if the file was opened, the buffered body is no longer than
    Content-Length and nothing follows the body.
    It does not return when the file was opened, the buffered body is
    shorter than Content-Length and the socket is at its end: however many
    turns the loop is given, [handle_put] is still inside
    [pass_n_bytes_fr], and up to there it has neither closed the
    descriptor nor deleted or emptied the file, which keeps the part of the
    body that was buffered. *)
Theorem put_undone_on_failure (req : Request) (sys : Sys) :
  0 <= req_get_content_length req ->
  (forall fuel code tr,
     run fuel sys (handle_put req) = Returned code tr ->
     (code = 200 \/ code = 201 \/ code = 400 \/ code = 403 \/ code = 500)
     /\ count is_close tr = b2z (opened sys req)
     /\ (code = 400 -> last tr = Some (cleanup_of sys req) /\ count is_cleanup tr = 1)
     /\ (code <> 400 -> count is_cleanup tr = 0)
     /\ (code = 200 \/ code = 201 ->
         code = (if created sys req then 201 else 200)
         /\ req_get_body_size req <= req_get_content_length req)
     /\ (req_get_content_length req < req_get_body_size req -> count is_data tr = 0))
  /\ (req_get_content_length req < UINT32_MOD ->
      (forall fd, flowing (sys_pipe sys (req_get_sockfd req) fd)) ->
      (forall fd, 0 <= sys_write_n_bytes sys fd (req_get_body req) (req_get_body_size req)
                    <= req_get_body_size req) ->
      forall fuel, (Z.to_nat (req_get_content_length req) <= fuel)%nat ->
      exists code tr,
        run fuel sys (handle_put req) = Returned code tr
        /\ (opened sys req = true ->
            req_get_body_size req <= req_get_content_length req ->
            sys_recv_peek sys (req_get_sockfd req) <= 0 ->
            code = if created sys req then 201 else 200))
  /\ (opened sys req = true ->
      req_get_body_size req < req_get_content_length req ->
      (forall fd, at_eof (sys_pipe sys (req_get_sockfd req) fd)) ->
      (forall fd, 0 <= sys_write_n_bytes sys fd (req_get_body req) (req_get_body_size req)
                    <= req_get_body_size req) ->
      forall fuel, exists tr fd n,
        run fuel sys (handle_put req)
        = Running (tr ++ [Called (Pass_n_bytes_fr (req_get_sockfd req) fd n)])
        /\ 0 < n /\ count is_close tr = 0 /\ count is_cleanup tr = 0
        /\ (0 < req_get_body_size req ->
            last tr = Some (Called (Write_n_bytes fd (req_get_body req)
                                      (req_get_body_size req))))).
Proof.
  intros Hcl. split; [|split].
  - intros fuel code tr. by apply put_returned.
  - intros Hmax Hio Hw fuel Hf. unfold handle_put, opened, created.
    destruct (Z.ltb_spec (req_get_content_length req) 0) as [|_]; [lia|]. simpl.
    destruct (sys_open sys (req_get_uri req) O_WRONLY_O_TRUNC) as [e|fd] eqn:Ho.
    + destruct e; simpl;
        try (eexists _, _; split; [reflexivity|intros [=]]).
      destruct (put_body_returns req sys fuel (sys_creat sys (req_get_uri req) 438) 201
                  (conj Hcl Hmax) (Hio _) (Hw _) Hf) as (code & tr & -> & Hcode).
      eexists _, _. split; [reflexivity|]. intros _. apply Hcode.
    + simpl.
      destruct (put_body_returns req sys fuel fd 200 (conj Hcl Hmax) (Hio _) (Hw _) Hf)
        as (code & tr & -> & Hcode).
      eexists _, _. split; [reflexivity|]. intros _. apply Hcode.
  - intros Hop Hshort Hio Hw fuel. unfold handle_put. unfold opened in Hop.
    destruct (Z.ltb_spec (req_get_content_length req) 0) as [|_]; [lia|]. simpl.
    destruct (sys_open sys (req_get_uri req) O_WRONLY_O_TRUNC) as [e|fd] eqn:Ho.
    + destruct e; try discriminate. simpl.
      destruct (put_body_hangs req sys fuel (sys_creat sys (req_get_uri req) 438) 201
                  Hcl (Hio _) (Hw _) Hshort) as (tr & n & -> & Hn & Hc & Hu & Hl).
      eexists (Called (Sys_open (req_get_uri req) O_WRONLY_O_TRUNC)
              :: Called (Sys_creat (req_get_uri req) 438) :: tr), _, n.
      split; [reflexivity|]. split; [done|]. simpl. split; [done|]. split; [done|].
      intros Hb. rewrite !last_cons, (Hl Hb). done.
    + simpl.
      destruct (put_body_hangs req sys fuel fd 200 Hcl (Hio _) (Hw _) Hshort)
        as (tr & n & -> & Hn & Hc & Hu & Hl).
      eexists (Called (Sys_open (req_get_uri req) O_WRONLY_O_TRUNC) :: tr), _, n.
      split; [reflexivity|]. split; [done|]. simpl. split; [done|]. split; [done|].
      intros Hb. rewrite last_cons, (Hl Hb). done.
Qed.

(** A PUT of "abcd" under Content-Length 10 to a file that is not there:
    answered 201 when the socket gives the six bytes that are missing,
    not answered at all when the socket is at its end. *)
Lemma put_undone_on_failure_witness :
  (exists tr, run 10 sys_delivering (handle_put short_put) = Returned 201 tr
              /\ count is_cleanup tr = 0 /\ count is_close tr = 1)
  /\ (exists tr fd n,
        run 50 sys_at_eof (handle_put short_put)
        = Running (tr ++ [Called (Pass_n_bytes_fr 4 fd n)])
        /\ 0 < n /\ count is_close tr = 0 /\ count is_cleanup tr = 0
        /\ last tr = Some (Called (Write_n_bytes fd "abcd" 4))).
Proof.
  assert (0 <= req_get_content_length short_put) as Hcl by (vm_compute; discriminate).
  split.
  - destruct (put_undone_on_failure short_put sys_delivering Hcl) as (Hret & _ & _).
    eexists. split; [vm_compute; reflexivity|].
    destruct (Hret 10%nat 201 _ ltac:(vm_compute; reflexivity)) as (_ & Hc & _ & Hu & _).
    split; [apply Hu; lia|exact Hc].
  - destruct (put_undone_on_failure short_put sys_at_eof Hcl) as (_ & _ & Hhang).
    destruct (Hhang eq_refl ltac:(vm_compute; reflexivity)
                ltac:(intros fd; split; reflexivity)
                ltac:(intros fd; vm_compute; split; discriminate) 50%nat)
      as (tr & fd & n & Hrun & Hn & Hc & Hu & Hl).
    exists tr, fd, n. split; [exact Hrun|]. split; [exact Hn|]. split; [exact Hc|].
    split; [exact Hu|]. apply Hl. reflexivity.
Defined.

(** X19. The single-threaded server validates before it touches a file.
    [validate_request] returns 501 exactly for an unsupported method, 400
    exactly for a GET with a buffered body, 505 exactly for a PUT, or a GET
    without a buffered body, whose version is not 1.1, and 0 exactly for a
    PUT, or a GET without a buffered body, of version 1.1: the method is
    looked at first, then the body of a GET, then the version.
    [handle_connection] returns a status that is not 0, or 400 for a
    request that did not parse, without making a single call, however
    many turns its loops are given; a request that validates goes to
    [handle_get] or [handle_put]. *)
Theorem asgn2_validates_before_io (req : Request) (sys : Sys) (fuel : nat) :
  (validate_request req = 0 <->
     (req_get_method req = PUT
      \/ (req_get_method req = GET /\ req_get_body_size req = 0))
     /\ req_get_http_ver_major req = "1"%char
     /\ req_get_http_ver_minor req = "1"%char)
  /\ (validate_request req = 501 <-> req_get_method req = UNSUPPORTED)
  /\ (validate_request req = 400 <->
      req_get_method req = GET /\ req_get_body_size req <> 0)
  /\ (validate_request req = 505 <->
      (req_get_method req = PUT
       \/ (req_get_method req = GET /\ req_get_body_size req = 0))
      /\ (req_get_http_ver_major req <> "1"%char
          \/ req_get_http_ver_minor req <> "1"%char))
  /\ (validate_request req = 0 \/ validate_request req = 400
      \/ validate_request req = 501 \/ validate_request req = 505)
  /\ (validate_request req <> 0 ->
      run fuel sys (handle_connection (Some req)) = Returned (validate_request req) [])
  /\ (validate_request req = 0 ->
      handle_connection (Some req)
      = match req_get_method req with
        | GET => handle_get req
        | PUT => handle_put req
        | UNSUPPORTED => Ret 501
        end)
  /\ run fuel sys (handle_connection None) = Returned 400 [].
Proof.
  unfold handle_connection, validate_request.
  destruct (req_get_method req) eqn:Hm;
    destruct (Z.eqb_spec (req_get_body_size req) 0) as [Hb|Hb]; simpl;
    destruct (Ascii.eqb_spec (req_get_http_ver_major req) "1") as [H1|H1]; simpl;
    destruct (Ascii.eqb_spec (req_get_http_ver_minor req) "1") as [H2|H2]; simpl;
    repeat split; try done; try tauto; try lia;
    try (intros [[?|[? ?]] [? ?]]; done);
    try (intros [[?|[? ?]] [?|?]]; done);
    try (intros [?|[? ?]]; done);
    try (intros (? & ? & ?); done);
    try (intros [? ?]; done);
    try (right; right; right; reflexivity);
    try (right; right; left; reflexivity);
    try (right; left; reflexivity);
    try (left; reflexivity).
Qed.

End Asgn2Facts.

(** ** Reading a request *)

Module ParserFacts.
Import Parser.

Lemma store_length off data (bytes : list ascii) :
  0 <= off -> off + Z.of_nat (length data) <= Z.of_nat (length bytes) ->
  length (store off data bytes) = length bytes.
Proof.
  intros H0 H1. unfold store. rewrite !length_app, length_take, length_drop. lia.
Qed.

Lemma inv_pc st r :
  inv st -> buf (input r) = buf (input (req st)) -> wc (input r) = wc (input (req st)) ->
  inv (with_req st r).
Proof. intros [Ha Hw Hb] E1 E2. split; simpl; by rewrite ?E1, ?E2. Qed.

Lemma read_into_inv answer n st rb st1 :
  inv st -> 0 <= n -> wc (input (req st)) + n <= REQ_MAX_SIZE ->
  (forall data, answer = Some data -> Z.of_nat (length data) <= n) ->
  read_into answer n st = (rb, st1) ->
  inv st1 /\ -1 <= rb <= n
  /\ pc (input (req st1)) = pc (input (req st))
  /\ wc (input (req st1)) = wc (input (req st)).
Proof.
  intros [Ha Hw Hb] Hn Hroom Hans. unfold read_into.
  assert (Forall in_bounds (asked st ++ [(wc (input (req st)), n)])) as Ha'.
  { apply Forall_app. split; [done|]. constructor; [|constructor].
    unfold in_bounds. simpl. lia. }
  destruct answer as [data|]; intros [= <- <-]; simpl.
  - pose proof (Hans data eq_refl). split; [|lia]. split; simpl; try done.
    rewrite store_length; unfold REQ_MAX_SIZE, _BUF_EXTRA in *; lia.
  - split; [|lia]. by split.
Qed.

Lemma grow_inv st rb :
  inv st -> 0 <= rb -> wc (input (req st)) + rb <= REQ_MAX_SIZE -> inv (grow st rb).
Proof. intros [Ha Hw Hb] H0 H1. split; simpl; try done. lia. Qed.

Lemma parse_chunk_inv env st chunk_size reg res st1 matches :
  bounded_input env -> inv st ->
  parse_chunk env st chunk_size reg = (res, st1, matches) ->
  inv st1 /\ pc (input (req st1)) = pc (input (req st)).
Proof.
  intros [Hread _] I. unfold parse_chunk.
  destruct ((_ <? chunk_size) && (_ <? REQ_MAX_SIZE)) eqn:Hc.
  - apply andb_true_iff in Hc as [Hc1 Hc2]. apply Z.ltb_lt in Hc1, Hc2.
    set (need0 := chunk_size - (wc (input (req st)) - pc (input (req st)))) in *.
    set (need := if REQ_MAX_SIZE <? wc (input (req st)) + need0
                 then REQ_MAX_SIZE - wc (input (req st)) else need0).
    assert (0 <= need /\ wc (input (req st)) + need <= REQ_MAX_SIZE) as [Hn0 Hn1].
    { unfold need. destruct (Z.ltb_spec REQ_MAX_SIZE (wc (input (req st)) + need0)); lia. }
    destruct (read_into _ need st) as [rb st'] eqn:Hr.
    destruct (read_into_inv _ _ _ _ _ I Hn0 Hn1 (fun data => Hread _ _ data Hn0) Hr) as (I' & Hrb & Hpc & Hwc).
    destruct ((rb =? 0) || (rb =? -1)) eqn:Hz.
    + intros [= <- <- <-]. done.
    + apply orb_false_iff in Hz as [Hz1 Hz2]. apply Z.eqb_neq in Hz1, Hz2.
      assert (inv (grow st' rb)) as I2 by (apply grow_inv; [done|lia|lia]).
      destruct (regexec env reg _); intros [= <- <- <-]; done.
  - destruct (regexec env reg _); intros [= <- <- <-]; done.
Qed.


Lemma parse_method_inv env st res st1 :
  bounded_input env -> inv st -> parse_method env st = (res, st1) -> inv st1.
Proof.
  intros Hin I. unfold parse_method.
  destruct (parse_chunk env st _ _) as [[res1 st1'] m1] eqn:H1.
  destruct (parse_chunk_inv _ _ _ _ _ _ _ Hin I H1) as [I1 _].
  destruct (negb (res1 =? 0)); intros [= <- <-]; [done|]. by apply inv_pc.
Qed.

Lemma parse_uri_inv env st res st1 :
  bounded_input env -> inv st -> parse_uri env st = (res, st1) -> inv st1.
Proof.
  intros Hin I. unfold parse_uri.
  destruct (parse_chunk env st _ _) as [[res1 st1'] m1] eqn:H1.
  destruct (parse_chunk_inv _ _ _ _ _ _ _ Hin I H1) as [I1 _].
  destruct (negb (res1 =? 0)); intros [= <- <-]; [done|]. by apply inv_pc.
Qed.

Lemma parse_http_version_inv env st res st1 :
  bounded_input env -> inv st -> parse_http_version env st = (res, st1) -> inv st1.
Proof.
  intros Hin I. unfold parse_http_version.
  destruct (parse_chunk env st _ _) as [[res1 st1'] m1] eqn:H1.
  destruct (parse_chunk_inv _ _ _ _ _ _ _ Hin I H1) as [I1 _].
  destruct (negb (res1 =? 0)); intros [= <- <-]; [done|]. by apply inv_pc.
Qed.





Lemma sample_env_bounded : bounded_input sample_env.
Proof.
  split; simpl.
  - intros i n data Hn. destruct (i =? 0)%nat; intros [= <-]; rewrite length_take; lia.
  - intros i n data Hn [= <-]. simpl. lia.
Qed.


(** *** What a request that was accepted looks like *)

Lemma c_str_prefix (l : list ascii) : exists rest, l = c_str l ++ rest.
Proof.
  induction l as [|c l [rest IH]]; simpl; [by exists []|].
  destruct (Ascii.eqb c NUL); [by eexists|]. exists rest. simpl. by rewrite <- IH.
Qed.

Lemma c_str_id (f : ascii -> bool) (l : list ascii) :
  f NUL = false -> forallb f l = true -> c_str l = l.
Proof.
  intros Hf. induction l as [|c l IH]; simpl; [done|].
  intros H. apply andb_true_iff in H as [Hc Hl].
  destruct (Ascii.eqb_spec c NUL) as [->|_]; [congruence|]. by rewrite IH.
Qed.

Lemma all_chars_list (f : ascii -> bool) (l : list ascii) :
  Http.all_chars f (String.string_of_list_ascii l) = forallb f l.
Proof. induction l as [|c l IH]; simpl; [done|]. by rewrite IH. Qed.

Lemma length_string_of_list (l : list ascii) :
  String.length (String.string_of_list_ascii l) = length l.
Proof. induction l as [|c l IH]; simpl; [done|]. by rewrite IH. Qed.

(** A slice of a string that starts the buffer at [p] is a slice of the
    buffer. *)
Lemma slice_prefix (bytes str rest : list ascii) (p so n : Z) :
  drop (Z.to_nat p) bytes = str ++ rest ->
  0 <= p -> 0 <= so -> 0 <= n -> so + n <= Z.of_nat (length str) ->
  slice (p + so) n bytes = slice so n str.
Proof.
  intros Hd Hp Hso Hn Hlen. unfold slice.
  rewrite Z2Nat.inj_add by lia. rewrite <- drop_drop, Hd.
  rewrite drop_app_le by lia. rewrite take_app_le; [done|].
  rewrite length_drop. lia.
Qed.

Lemma slice_length (str : list ascii) (so n : Z) :
  0 <= so -> 0 <= n -> so + n <= Z.of_nat (length str) ->
  Z.of_nat (length (slice so n str)) = n.
Proof. intros. unfold slice. rewrite length_take, length_drop. lia. Qed.

Lemma copy_str_class (f : ascii -> bool) (lo hi : Z) (m : regmatch_t)
    (bytes str rest : list ascii) (p : Z) :
  f NUL = false -> 0 <= lo ->
  drop (Z.to_nat p) bytes = str ++ rest -> 0 <= p ->
  in_class f lo hi m str ->
  let s := copy_str (p + rm_so m) (rm_eo m - rm_so m) bytes in
  lo <= Z.of_nat (String.length s) <= hi /\ Http.all_chars f s = true.
Proof.
  intros Hf Hlo Hd Hp (Hso & Heo & Hn & Hall). simpl. unfold copy_str.
  rewrite (slice_prefix _ _ _ _ _ _ Hd) by lia.
  rewrite (c_str_id f _ Hf Hall), length_string_of_list, all_chars_list.
  rewrite slice_length by lia. done.
Qed.

Lemma byte_at_class (f : ascii -> bool) (m : regmatch_t)
    (bytes str rest : list ascii) (p : Z) :
  drop (Z.to_nat p) bytes = str ++ rest -> 0 <= p ->
  in_class f 1 1 m str ->
  f (byte_at (p + rm_so m) bytes) = true.
Proof.
  intros Hd Hp (Hso & Heo & Hn & Hall).
  assert (slice (p + rm_so m) 1 bytes = slice (rm_so m) (rm_eo m - rm_so m) str) as E.
  { replace (rm_eo m - rm_so m) with 1 by lia. apply (slice_prefix _ _ rest); try lia. done. }
  pose proof (slice_length str (rm_so m) (rm_eo m - rm_so m) Hso ltac:(lia) ltac:(lia))
    as Hl.
  rewrite <- E in Hall, Hl. unfold slice, byte_at in *.
  assert (bytes !! Z.to_nat (p + rm_so m)
          = drop (Z.to_nat (p + rm_so m)) bytes !! 0%nat) as ->
    by (rewrite lookup_drop; f_equal; lia).
  change (Z.to_nat 1) with 1%nat in *.
  destruct (drop (Z.to_nat (p + rm_so m)) bytes) as [|c l] eqn:Ed; simpl in *; [lia|].
  by apply andb_true_iff in Hall as [Hc _].
Qed.

Lemma chunk_string (bytes : list ascii) (p w : Z) :
  exists rest, drop (Z.to_nat p) bytes = c_str (slice p (w - p) bytes) ++ rest.
Proof.
  destruct (c_str_prefix (slice p (w - p) bytes)) as [rest1 E]. unfold slice in *.
  exists (rest1 ++ drop (Z.to_nat (w - p)) (drop (Z.to_nat p) bytes)).
  rewrite app_assoc, <- E. by rewrite take_drop.
Qed.

Lemma parse_chunk_shape env st chunk_size reg res st1 m :
  parse_chunk env st chunk_size reg = (res, st1, m) ->
  (res = 0 \/ res = -1)
  /\ (exists i', req st1 = set_input (req st) i' /\ pc i' = pc (input (req st)))
  /\ (res = 0 ->
      exists str rest,
        regexec env reg str = Some m
        /\ drop (Z.to_nat (pc (input (req st1)))) (buf (input (req st1))) = str ++ rest).
Proof.
  destruct st as [[[b p w] sock me u ma mi hs bs bo] c a].
  unfold parse_chunk, read_into, grow. simpl.
  destruct ((w - p <? chunk_size) && (w <? REQ_MAX_SIZE)).
  - match goal with
    | |- context [read_n_bytes env ?i ?n] => destruct (read_n_bytes env i n) as [data|]
    end; simpl.
    + destruct ((Z.of_nat (length data) =? 0) || (Z.of_nat (length data) =? -1)); simpl.
      * intros [= <- <- <-]. split; [by right|]. split; [by eexists|]. done.
      * match goal with
        | |- context [regexec env reg ?s] => destruct (regexec env reg s) as [m'|] eqn:Er
        end; intros [= <- <- <-]; simpl.
        -- split; [by left|]. split; [by eexists|]. intros _.
           destruct (chunk_string (store w data b) p (w + Z.of_nat (length data)))
             as [rest Hrest].
           eexists _, rest. split; [exact Er|exact Hrest].
        -- split; [by right|]. split; [by eexists|]. done.
    + intros [= <- <- <-]. split; [by right|]. split; [by eexists|]. done.
  - match goal with
    | |- context [regexec env reg ?s] => destruct (regexec env reg s) as [m'|] eqn:Er
    end; intros [= <- <- <-]; simpl.
    + split; [by left|]. split; [by eexists|]. intros _.
      destruct (chunk_string b p w) as [rest Hrest].
      eexists _, rest. split; [exact Er|exact Hrest].
    + split; [by right|]. split; [by eexists|]. done.
Qed.

Lemma parse_method_shape env st res st1 :
  regex_sound env -> 0 <= pc (input (req st)) ->
  parse_method env st = (res, st1) ->
  (res = 0 \/ res = -1) /\ 0 <= pc (input (req st1))
  /\ headers (req st1) = headers (req st).
Proof.
  intros Hs Hp. unfold parse_method.
  destruct (parse_chunk env st _ _) as [[res1 st1'] m1] eqn:H1.
  destruct (parse_chunk_shape _ _ _ _ _ _ _ H1) as (Hres & (i' & Hi & Hpc) & Hm).
  destruct Hres as [-> | ->]; simpl; intros [= <- <-].
  - split; [by left|]. destruct (Hm eq_refl) as (str & rest & Er & _).
    destruct (Hs _ _ _ Er) as (H0 & H1' & _). rewrite Hi. simpl. split; [lia|done].
  - split; [by right|]. rewrite Hi. simpl. split; [lia|done].
Qed.

(** The headers the parser lets through are the headers of a parsed
    request, a backslash in a key included. *)
Lemma header_shape_parsed (r : Http.Request) :
  forallb header_shape (Http.headers r) = true <-> Http.parsed r.
Proof. reflexivity. Qed.

Lemma backslash_in_key :
  header_shape (Http.mkHeader "Re\q" "x") = true
  /\ Http.header_ok (Http.mkHeader "Re\q" "x") = true.
Proof. split; reflexivity. Qed.

Lemma name_char_not_slash (u : string) :
  Http.all_chars name_char u = true ->
  Http.all_chars (fun c => negb (Ascii.eqb c "/")) u = true.
Proof.
  induction u as [|c u IH]; simpl; [done|]. intros H.
  apply andb_true_iff in H as [Hc Hu]. rewrite (IH Hu), andb_true_r.
  destruct (Ascii.eqb_spec c "/") as [->|]; [discriminate|done].
Qed.

Lemma parse_uri_shape env st res st1 :
  regex_sound env -> 0 <= pc (input (req st)) ->
  parse_uri env st = (res, st1) ->
  (res = 0 \/ res = -1) /\ 0 <= pc (input (req st1))
  /\ headers (req st1) = headers (req st)
  /\ (res = 0 -> exists u, uri (req st1) = Some u /\ uri_ok u = true).
Proof.
  intros Hs Hp. unfold parse_uri.
  destruct (parse_chunk env st _ _) as [[res1 st1'] m1] eqn:H1.
  destruct (parse_chunk_shape _ _ _ _ _ _ _ H1) as (Hres & (i' & Hi & Hpc) & Hm).
  destruct Hres as [-> | ->]; simpl; intros [= <- <-].
  - split; [by left|]. destruct (Hm eq_refl) as (str & rest & Er & Hd).
    destruct (Hs _ _ _ Er) as (H0 & H1' & H2 & Hc & _).
    split; [rewrite Hi; simpl; lia|]. split; [by rewrite Hi|].
    intros _. eexists. split; [reflexivity|].
    destruct (copy_str_class name_char 1 63 _ _ _ _ _ eq_refl ltac:(lia) Hd
                ltac:(rewrite Hi; simpl; lia) Hc) as [Hlen Hall].
    unfold uri_ok. rewrite Hall, andb_true_r.
    apply andb_true_iff. split; [apply Nat.leb_le|apply Nat.leb_le]; lia.
  - split; [by right|]. split; [rewrite Hi; simpl; lia|]. split; [by rewrite Hi|]. done.
Qed.

Lemma parse_http_version_shape env st res st1 :
  regex_sound env -> 0 <= pc (input (req st)) ->
  parse_http_version env st = (res, st1) ->
  (res = 0 \/ res = -1) /\ 0 <= pc (input (req st1))
  /\ uri (req st1) = uri (req st)
  /\ headers (req st1) = headers (req st)
  /\ (res = 0 -> Http.is_digit (http_ver_major (req st1)) = true
                 /\ Http.is_digit (http_ver_minor (req st1)) = true).
Proof.
  intros Hs Hp. unfold parse_http_version.
  destruct (parse_chunk env st _ _) as [[res1 st1'] m1] eqn:H1.
  destruct (parse_chunk_shape _ _ _ _ _ _ _ H1) as (Hres & (i' & Hi & Hpc) & Hm).
  destruct Hres as [-> | ->]; simpl; intros [= <- <-].
  - split; [by left|]. destruct (Hm eq_refl) as (str & rest & Er & Hd).
    destruct (Hs _ _ _ Er) as (H0 & H1' & H2 & Hc1 & Hc2 & _).
    split; [rewrite Hi; simpl; lia|]. split; [by rewrite Hi|]. split; [by rewrite Hi|].
    intros _. simpl.
    assert (0 <= pc (input (req st1'))) by (rewrite Hi; simpl; lia).
    split; [by apply (byte_at_class _ _ _ str rest)|by apply (byte_at_class _ _ _ str rest)].
  - split; [by right|]. split; [rewrite Hi; simpl; lia|]. split; [by rewrite Hi|].
    split; [by rewrite Hi|]. done.
Qed.

Lemma loop_shape env (Hs : regex_sound env) : forall fuel r headers_end found,
  0 <= pc (input r) ->
  (Z.to_nat (headers_end - pc (input r)) <= fuel)%nat ->
  forallb header_shape found = true ->
  exists res r',
    parse_headers_loop fuel env r headers_end found = Some (res, r')
    /\ (res = 0 \/ res = -1)
    /\ uri r' = uri r /\ http_ver_major r' = http_ver_major r
    /\ http_ver_minor r' = http_ver_minor r
    /\ (res = 0 -> forallb header_shape (headers r') = true).
Proof.
  induction fuel as [|fuel IH]; intros r he found Hp Hf Hfound; simpl.
  - destruct (Z.ltb_spec (pc (input r)) he); [lia|].
    eexists _, _. split; [reflexivity|]. split; [by left|]. by repeat split.
  - destruct (Z.ltb_spec (pc (input r)) he) as [Hlt|Hge].
    2: { eexists _, _. split; [reflexivity|]. split; [by left|]. by repeat split. }
    destruct (regexec env _HEADER_REG _) as [hm|] eqn:Er.
    2: { eexists _, _. split; [reflexivity|]. split; [by right|]. by repeat split. }
    destruct (Hs _ _ _ Er) as (H0 & H1 & H2 & Hk & Hv & _).
    destruct (c_str_prefix (drop (Z.to_nat (pc (input r))) (buf (input r)))) as [rest Hd].
    assert (0 <= 1) as H01 by lia.
    destruct (copy_str_class name_char 1 128 _ _ _ _ _ eq_refl H01 Hd Hp Hk)
      as [Hklen Hkall].
    destruct (copy_str_class Http.printable 1 128 _ _ _ _ _ eq_refl H01 Hd Hp Hv)
      as [Hvlen Hvall].
    match goal with
    | |- context [parse_headers_loop fuel env ?r1 he ?f1] =>
        destruct (IH r1 he f1) as (res & r' & Hrun & Hres & Hu & Hma & Hmi & Hok)
    end.
    + simpl. lia.
    + simpl. lia.
    + rewrite forallb_app, Hfound. cbn [forallb andb]. rewrite andb_true_r.
      unfold header_shape. cbn [Http.key Http.value]. rewrite Hkall, Hvall.
      rewrite !(proj2 (Nat.leb_le _ _)) by lia. reflexivity.
    + exists res, r'. split; [exact Hrun|]. by repeat split.
Qed.

Lemma c_str_length (l : list ascii) : (length (c_str l) <= length l)%nat.
Proof.
  induction l as [|c l IH]; simpl; [lia|]. destruct (Ascii.eqb c NUL); simpl; lia.
Qed.

Lemma parse_headers_shape fuel env st :
  regex_sound env -> bounded_input env -> inv st ->
  0 <= pc (input (req st)) ->
  (Z.to_nat (REQ_MAX_SIZE + _BUF_EXTRA) <= fuel)%nat ->
  forallb header_shape (headers (req st)) = true ->
  exists res st1,
    parse_headers fuel env st = Some (res, st1)
    /\ (res = 0 \/ res = -1)
    /\ uri (req st1) = uri (req st)
    /\ http_ver_major (req st1) = http_ver_major (req st)
    /\ http_ver_minor (req st1) = http_ver_minor (req st)
    /\ (res = 0 -> forallb header_shape (headers (req st1)) = true).
Proof.
  intros Hs Hin I Hp Hf Hok. unfold parse_headers.
  destruct (parse_chunk env st _ _) as [[res1 st1'] m1] eqn:H1.
  destruct (parse_chunk_inv _ _ _ _ _ _ _ Hin I H1) as [[_ _ Hlen] _].
  destruct (parse_chunk_shape _ _ _ _ _ _ _ H1) as (Hres & (i' & Hi & Hpc) & Hm).
  destruct Hres as [-> | ->]; simpl.
  2: { eexists _, _. split; [reflexivity|]. rewrite Hi. split; [by right|]. by repeat split. }
  destruct (Hm eq_refl) as (str & rest & Er & Hd).
  destruct (Hs _ _ _ Er) as (H0 & H1' & H2 & Hg).
  destruct (Z.eqb_spec (rm_so (group m1 1)) (rm_eo (group m1 1))) as [E|E].
  { eexists _, _. split; [reflexivity|]. rewrite Hi. split; [by left|]. by repeat split. }
  destruct Hg as [Hg|[Hg1 Hg2]]; [rewrite Hg in E; done|].
  assert (Z.of_nat (length str) <= Z.of_nat (length (buf (input (req st1'))))) as Hstr.
  { pose proof (f_equal length Hd) as El. rewrite length_drop, length_app in El. lia. }
  destruct (loop_shape env Hs fuel (req st1')
              (pc (input (req st1')) + rm_eo (group m1 1)) [])
    as (res & r' & Hrun & Hres & Hu & Hma & Hmi & Hh).
  - rewrite Hi. simpl. lia.
  - lia.
  - done.
  - rewrite Hrun. eexists _, _. split; [reflexivity|]. simpl.
    rewrite Hu, Hma, Hmi, Hi. split; [done|]. by repeat split.
Qed.

(** X21. [req_parse] returns, and what it accepts is well-formed.  With a
    [regexec] whose matches are matches of the five patterns, a socket that
    delivers no more than it is asked for and the buffer [req_create]
    allocates: [req_parse] returns 0 or -1 (the loop over the headers ends
    within as many turns as the buffer has bytes); and when it returns 0,
    the URI the handlers get is 1 to 63 letters, digits, dots, hyphens and
    backslashes, so it holds no '/', both version characters are digits,
    every header has a key of 1 to 128 such characters and a value of 1 to
    128 printable characters, and the parse cursor has reached the write
    cursor. *)
Theorem req_parse_accepts_well_formed (env : Env) (fuel : nat) (sockfd : Z)
    (memory : list ascii) :
  regex_sound env ->
  bounded_input env ->
  Z.of_nat (length memory) = REQ_MAX_SIZE + _BUF_EXTRA ->
  (length memory <= fuel)%nat ->
  exists res st,
    req_parse fuel env (mkState (req_create sockfd memory) 0 []) = Some (res, st)
    /\ (res = 0 \/ res = -1)
    /\ (res = 0 ->
        (exists u, uri (req st) = Some u /\ Http.uri (request_of (req st)) = u
                   /\ uri_ok u = true
                   /\ Http.all_chars (fun c => negb (Ascii.eqb c "/")) u = true)
        /\ Http.is_digit (Http.http_ver_major (request_of (req st))) = true
        /\ Http.is_digit (Http.http_ver_minor (request_of (req st))) = true
        /\ forallb header_shape (Http.headers (request_of (req st))) = true
        /\ pc (input (req st)) = wc (input (req st))).
Proof.
  intros Hs Hin Hmem Hfuel.
  assert (inv (mkState (req_create sockfd memory) 0 [])) as I0.
  { split; simpl; [constructor|unfold REQ_MAX_SIZE; lia|done]. }
  assert (0 <= pc (input (req (mkState (req_create sockfd memory) 0 [])))) as Hp0
    by (simpl; lia).
  assert (headers (req (mkState (req_create sockfd memory) 0 [])) = []) as Hh0 by done.
  revert I0 Hp0 Hh0. generalize (mkState (req_create sockfd memory) 0 []).
  intros st0 I0 Hp0 Hh0. unfold req_parse.
  destruct (parse_method env st0) as [res1 s1] eqn:H1.
  pose proof (parse_method_inv _ _ _ _ Hin I0 H1) as I1.
  destruct (parse_method_shape _ _ _ _ Hs Hp0 H1) as (Hr1 & Hp1 & Hh1).
  destruct Hr1 as [-> | ->]; simpl;
    [|eexists _, _; split; [reflexivity|]; split; [by right|done]].
  destruct (parse_uri env s1) as [res2 s2] eqn:H2.
  pose proof (parse_uri_inv _ _ _ _ Hin I1 H2) as I2.
  destruct (parse_uri_shape _ _ _ _ Hs Hp1 H2) as (Hr2 & Hp2 & Hh2 & Hu2).
  destruct Hr2 as [-> | ->]; simpl;
    [|eexists _, _; split; [reflexivity|]; split; [by right|done]].
  destruct (Hu2 eq_refl) as (u & Hu & Huok).
  destruct (parse_http_version env s2) as [res3 s3] eqn:H3.
  pose proof (parse_http_version_inv _ _ _ _ Hin I2 H3) as I3.
  destruct (parse_http_version_shape _ _ _ _ Hs Hp2 H3) as (Hr3 & Hp3 & Hu3 & Hh3 & Hd3).
  destruct Hr3 as [-> | ->]; simpl;
    [|eexists _, _; split; [reflexivity|]; split; [by right|done]].
  destruct (Hd3 eq_refl) as [Hma Hmi].
  destruct (read_into _ _ s3) as [rb s4] eqn:H4.
  pose proof I3 as [_ Hw3 _].
  assert (0 <= REQ_MAX_SIZE - wc (input (req s3))) as Hn0 by lia.
  assert (wc (input (req s3)) + (REQ_MAX_SIZE - wc (input (req s3))) <= REQ_MAX_SIZE)
    as Hn1 by lia.
  destruct (read_into_inv _ _ _ _ _ I3 Hn0 Hn1 (fun data => proj2 Hin _ _ data Hn0) H4)
    as (I4 & Hrb & Hpc4 & Hwc4).
  assert (exists i4, req s4 = set_input (req s3) i4) as [i4 Hi4].
  { unfold read_into in H4. destruct (recv env _ _); injection H4 as <- <-; simpl;
      [by eexists|]. destruct (req s3) as [[]]. by eexists. }
  set (s4' := if 0 <? rb then grow s4 rb else s4).
  assert (inv s4') as I4'.
  { unfold s4'. destruct (Z.ltb_spec 0 rb); [|done]. apply grow_inv; [done|lia|lia]. }
  assert (exists i4', req s4' = set_input (req s3) i4' /\ pc i4' = pc (input (req s3)))
    as (i4' & Hi4' & Hpc4').
  { unfold s4', grow. destruct (0 <? rb); simpl; rewrite Hi4; simpl.
    - eexists. split; [reflexivity|]. simpl. rewrite Hi4 in Hpc4. done.
    - exists i4. split; [done|]. rewrite Hi4 in Hpc4. done. }
  destruct (parse_headers_shape fuel env s4' Hs Hin I4')
    as (res5 & s5 & H5 & Hr5 & Hu5 & Hma5 & Hmi5 & Hh5).
  { rewrite Hi4'. simpl. lia. }
  { lia. }
  { rewrite Hi4'. simpl. rewrite Hh3, Hh2, Hh1, Hh0. done. }
  rewrite H5.
  destruct Hr5 as [-> | ->]; simpl;
    [|eexists _, _; split; [reflexivity|]; split; [by right|done]].
  eexists _, _. split; [reflexivity|]. split; [by left|]. intros _.
  unfold request_of, parse_body. simpl.
  rewrite Hi4' in Hu5, Hma5, Hmi5. simpl in Hu5, Hma5, Hmi5.
  destruct (0 <? wc (input (req s5)) - pc (input (req s5))); simpl;
    rewrite ?Hu5, ?Hma5, ?Hmi5, ?Hu3, ?Hu;
    (split; [exists u; split; [done|]; split; [done|]; split; [done|];
             apply name_char_not_slash;
             by apply andb_true_iff in Huok as [_ ?]|]);
    (split; [done|]); (split; [done|]); (split; [by apply Hh5|done]).
Qed.

Lemma slice_known (str known : list ascii) (k : nat) (so n : Z) :
  take k str = known -> 0 <= so -> 0 <= n -> so + n <= Z.of_nat k ->
  slice so n str = slice so n known.
Proof.
  intros <- Hso Hn Hk. unfold slice.
  rewrite !take_drop_commute, take_take. do 2 f_equal. lia.
Qed.

Lemma length_known (str known : list ascii) (k : nat) :
  take k str = known -> length known = k -> Z.of_nat k <= Z.of_nat (length str).
Proof. intros <-. rewrite length_take. lia. Qed.

Ltac known_class E :=
  unfold in_class; cbn [rm_so rm_eo];
  pose proof (length_known _ _ _ E eq_refl);
  split; [lia|]; split; [lia|]; split; [lia|];
  rewrite (slice_known _ _ _ _ _ E) by lia; reflexivity.

Lemma sample_env_sound : regex_sound sample_env.
Proof.
  intros reg str matches. destruct reg; cbn [regexec sample_env];
    match goal with |- context [bool_decide ?P] => destruct (bool_decide_reflect P) as [E|] end;
    try discriminate; intros [= <-]; unfold group; cbn [lookup list_lookup default from_option id];
    pose proof (length_known _ _ _ E eq_refl) as Hlen; cbn [rm_so rm_eo];
    (split; [lia|]); (split; [lia|]); (split; [lia|]).
  - split; [known_class E|lia].
  - split; [known_class E|lia].
  - split; [known_class E|]. split; [known_class E|lia].
  - right. lia.
  - split; [known_class E|]. split; [known_class E|lia].
Qed.

(** The request [GET /a.txt HTTP/1.1] with one header is accepted. *)
Lemma req_parse_accepts_well_formed_witness :
  exists st,
    req_parse 2304 sample_env (mkState (req_create 4 fresh_memory) 0 []) = Some (0, st)
    /\ uri (req st) = Some "a.txt"
    /\ forallb header_shape (Http.headers (request_of (req st))) = true.
Proof.
  destruct (req_parse_accepts_well_formed sample_env 2304 4 fresh_memory
              sample_env_sound sample_env_bounded eq_refl ltac:(vm_compute; lia))
    as (res & st & Hrun & _ & Hok).
  assert (exists st',
            req_parse 2304 sample_env (mkState (req_create 4 fresh_memory) 0 [])
            = Some (0, st')
            /\ uri (req st') = Some "a.txt") as (st' & Hval & Huri)
    by (eexists; split; vm_compute; reflexivity).
  rewrite Hval in Hrun. injection Hrun as <- <-.
  exists st'. split; [exact Hval|]. split; [exact Huri|]. apply (Hok eq_refl).
Defined.

(** X26. A connection that delivers nothing is a bad request.  If the
    first read from the socket fails or gives no byte, [req_parse] returns
    -1 after that one read of [_METHOD_CHUNK_LEN] bytes at the start of the
    buffer, without a call of [regexec], and leaves the request as
    [req_create] made it. *)
Theorem req_parse_empty_input (env : Env) (fuel : nat) (sockfd : Z)
    (memory : list ascii) :
  read_n_bytes env 0 _METHOD_CHUNK_LEN = None
  \/ read_n_bytes env 0 _METHOD_CHUNK_LEN = Some [] ->
  exists st,
    req_parse fuel env (mkState (req_create sockfd memory) 0 []) = Some (-1, st)
    /\ asked st = [(0, _METHOD_CHUNK_LEN)]
    /\ calls st = 1%nat
    /\ request_of (req st) = request_of (req_create sockfd memory)
    /\ wc (input (req st)) = 0.
Proof.
  intros H. unfold req_parse, parse_method, parse_chunk, read_into.
  cbn [req input req_create wc pc calls asked]. unfold _METHOD_CHUNK_LEN in *.
  change (0 - 0 <? 9) with true. change (0 <? REQ_MAX_SIZE) with true.
  cbn [andb]. change (REQ_MAX_SIZE <? 0 + (9 - (0 - 0))) with false.
  cbv iota. change (9 - (0 - 0)) with 9.
  destruct H as [-> | ->]; simpl.
  - eexists. split; [reflexivity|]. by repeat split.
  - eexists. split; [reflexivity|]. by repeat split.
Qed.

Lemma req_parse_empty_input_witness :
  exists st,
    req_parse 0 (mkEnv (fun _ _ => None) (fun _ _ => Some []) (fun _ _ => None))
      (mkState (req_create 4 fresh_memory) 0 []) = Some (-1, st)
    /\ asked st = [(0, 9)].
Proof.
  destruct (req_parse_empty_input
              (mkEnv (fun _ _ => None) (fun _ _ => Some []) (fun _ _ => None))
              0 4 fresh_memory (or_intror eq_refl)) as (st & Hrun & Ha & _).
  exists st. split; [exact Hrun|exact Ha].
Defined.

End ParserFacts.
